(** * OPC UA nodeset import: the parser and the namespace query

    A shallow embedding of [NodesetParser] (nodeset-parser.service.ts) and of
    [FileImportServiceImpl.extractNamespaces] (file-import.service.ts), and
    the properties of the design document that concern them.

    Conventions of the embedding:
    - the browser's [DOMParser] is the platform's, not the repository's; the
      embedding starts from the [Document] that [parseFromString] returns.  A
      text that is not well-formed XML is reported by the platform as a
      document that holds a [parsererror] element, and that is how the code
      detects it;
    - JavaScript strings are [string]s; the built-ins used by the code
      ([includes], [toLowerCase], [split], [trim], [parseInt]) are written
      out in module [Js] for ASCII text;
    - the two symbol tables of the parser instance are [gmap]s; the node map
      of a result is an insertion-ordered association list ([JsMap]), since
      [Map.prototype.forEach] visits entries in insertion order;
    - node objects live in a store and are named by their location: the node
      map and every [children] array hold locations, so sharing is
      explicit.  The store of a result also keeps the objects that a later
      [nodes.set] with the same key made unreachable;
    - a method that reads or writes the instance fields takes the instance
      as [this] and, when it writes, returns the new instance; a call that
      can throw returns an [Outcome].

    The file has four parts: the embedding, the vocabulary of the
    properties, the properties, and the code run on concrete documents. *)

From Stdlib Require Import ZArith Ascii Sorted.
From stdpp Require Import base option list gmap strings pretty.

Set Warnings "-clear-no-such-hyp".

Local Open Scope Z_scope.
Local Open Scope nat_scope.

(** ** JavaScript built-ins on strings *)

Module Js.

(** [!s] is false exactly for the non-empty string. *)
Definition truthy (s : string) : bool := bool_decide (s ≠ "").

(** [a || b] where [a] may be [null]. *)
Definition orElse (a : option string) (b : string) : string :=
  match a with
  | Some s => if truthy s then s else b
  | None => b
  end.

(** [a || undefined], also the test [if (a)] on a nullable string. *)
Definition nonEmpty (a : option string) : option string :=
  match a with
  | Some s => if truthy s then Some s else None
  | None => None
  end.

Fixpoint startsWith (sub s : string) : bool :=
  match sub, s with
  | EmptyString, _ => true
  | String a sub', String b s' => bool_decide (a = b) && startsWith sub' s'
  | String _ _, EmptyString => false
  end.

(** [s.includes(sub)] *)
Fixpoint includes (s sub : string) : bool :=
  startsWith sub s ||
  match s with
  | EmptyString => false
  | String _ s' => includes s' sub
  end.

Definition lowerAscii (c : ascii) : ascii :=
  let n := nat_of_ascii c in
  if (65 <=? n) && (n <=? 90) then ascii_of_nat (n + 32) else c.

(** [s.toLowerCase()] *)
Fixpoint toLowerCase (s : string) : string :=
  match s with
  | EmptyString => EmptyString
  | String c s' => String (lowerAscii c) (toLowerCase s')
  end.

(** [s.split(sep)] for a one-character separator. *)
Fixpoint split (sep : ascii) (s : string) : list string :=
  match s with
  | EmptyString => [EmptyString]
  | String c s' =>
      if bool_decide (c = sep) then EmptyString :: split sep s'
      else match split sep s' with
           | h :: t => String c h :: t
           | [] => [String c EmptyString]
           end
  end.

Fixpoint trimStart (s : string) : string :=
  match s with
  | EmptyString => EmptyString
  | String c s' => if Ascii.is_space c then trimStart s' else s
  end.

Fixpoint trimEnd (s : string) : string :=
  match s with
  | EmptyString => EmptyString
  | String c s' =>
      match trimEnd s' with
      | EmptyString => if Ascii.is_space c then EmptyString else String c EmptyString
      | r => String c r
      end
  end.

(** [s.trim()] *)
Definition trim (s : string) : string := trimEnd (trimStart s).

(** [parseInt(s)]: optional sign, optional [0x] prefix, then the longest
    run of digits; [None] stands for [NaN].  Integers are kept exact. *)
Definition digitValue (c : ascii) : option Z :=
  let n := nat_of_ascii c in
  if (48 <=? n) && (n <=? 57) then Some (Z.of_nat (n - 48))
  else if (97 <=? n) && (n <=? 102) then Some (Z.of_nat (n - 87))
  else if (65 <=? n) && (n <=? 70) then Some (Z.of_nat (n - 55))
  else None.

Fixpoint digits (radix : Z) (acc : option Z) (s : string) : option Z :=
  match s with
  | EmptyString => acc
  | String c s' =>
      match digitValue c with
      | Some d =>
          if (d <? radix)%Z
          then digits radix (Some (from_option id 0%Z acc * radix + d)%Z) s'
          else acc
      | None => acc
      end
  end.

Definition parseUnsigned (s : string) : option Z :=
  match s with
  | String "0" (String "x" s') | String "0" (String "X" s') => digits 16 None s'
  | _ => digits 10 None s
  end.

Definition parseInt (s : string) : option Z :=
  match trimStart s with
  | String "-" s' => Z.opp <$> parseUnsigned s'
  | String "+" s' => parseUnsigned s'
  | s' => parseUnsigned s'
  end.

(** [ToInt32]: what [x | 0] makes of an integer. *)
Definition toInt32 (x : Z) : Z := ((x + 2 ^ 31) mod 2 ^ 32 - 2 ^ 31)%Z.

(** [x << n] on a 32-bit integer [x], for a shift count below 32. *)
Definition shiftLeft (x n : Z) : Z := toInt32 (Z.shiftl x n).

(** [s.charCodeAt(i)] of each position of [s], in turn. *)
Definition charCode (c : ascii) : Z := Z.of_nat (nat_of_ascii c).

Definition hexDigit (d : N) : ascii :=
  default "0"%char (String.get (N.to_nat d) "0123456789abcdef").

Fixpoint toString16_go (fuel : nat) (n : N) (acc : string) : string :=
  match fuel with
  | O => acc
  | S fuel' =>
      let acc' := String (hexDigit (n mod 16)) acc in
      if (n / 16 =? 0)%N then acc' else toString16_go fuel' (n / 16) acc'
  end.

(** [n.toString(16)] for a non-negative integer. *)
Definition toString16 (n : N) : string := toString16_go (S (N.size_nat n)) n "".

Fixpoint repeatChar (n : nat) (c : ascii) : string :=
  match n with
  | O => EmptyString
  | S n' => String c (repeatChar n' c)
  end.

(** [s.padStart(targetLength, pad)] for a one-character pad. *)
Definition padStart (targetLength : nat) (pad : ascii) (s : string) : string :=
  repeatChar (targetLength - String.length s) pad +:+ s.

(** [parts.join('')] *)
Definition join (parts : list string) : string := foldr String.append EmptyString parts.

End Js.

(** ** The document tree handed over by the platform *)

Module Dom.

Set Warnings "-register-all".
Inductive Element : Type :=
| Elem (tagName : string) (attributes : list (string * string))
       (childNodes : list (string + Element)).

Definition tagName (e : Element) : string :=
  match e with Elem t _ _ => t end.
Definition attributes (e : Element) : list (string * string) :=
  match e with Elem _ a _ => a end.
Definition childNodes (e : Element) : list (string + Element) :=
  match e with Elem _ _ c => c end.

Record Document := { documentElement : Element }.

(** [e.getAttribute(name)], [null] when the attribute is absent. *)
Fixpoint lookupAttribute (name : string) (l : list (string * string))
  : option string :=
  match l with
  | [] => None
  | (n, v) :: r => if bool_decide (n = name) then Some v else lookupAttribute name r
  end.

Definition getAttribute (name : string) (e : Element) : option string :=
  lookupAttribute name (attributes e).

(** [e.textContent]: the text of all descendants, in document order. *)
Fixpoint textContent (e : Element) : string :=
  match e with
  | Elem _ _ cs =>
      (fix go (l : list (string + Element)) : string :=
         match l with
         | [] => EmptyString
         | inl s :: r => s +:+ go r
         | inr c :: r => textContent c +:+ go r
         end) cs
  end.

(** The element and its descendant elements, in document order. *)
Fixpoint inclusive (e : Element) : list Element :=
  match e with
  | Elem _ _ cs =>
      e :: (fix go (l : list (string + Element)) : list Element :=
              match l with
              | [] => []
              | inl _ :: r => go r
              | inr c :: r => inclusive c ++ go r
              end) cs
  end.

Definition descendants (e : Element) : list Element := tail (inclusive e).

(** [e.querySelectorAll(tag)] for a type selector. *)
Definition querySelectorAll (tag : string) (e : Element) : list Element :=
  filter (λ d, tagName d = tag) (descendants e).

(** [e.querySelector(tag)] *)
Definition querySelector (tag : string) (e : Element) : option Element :=
  head (querySelectorAll tag e).

(** [doc.querySelector(tag)]: the root element is a candidate too. *)
Definition docQuerySelector (tag : string) (d : Document) : option Element :=
  head (filter (λ x, tagName x = tag) (inclusive (documentElement d))).

(** Every element of the document with the tags of its ancestors, nearest
    first. *)
Fixpoint withAncestors (anc : list string) (e : Element)
  : list (list string * Element) :=
  match e with
  | Elem t _ cs =>
      (anc, e) ::
      (fix go (l : list (string + Element)) : list (list string * Element) :=
         match l with
         | [] => []
         | inl _ :: r => go r
         | inr c :: r => withAncestors (t :: anc) c ++ go r
         end) cs
  end.

Fixpoint isPrefix (p l : list string) : bool :=
  match p, l with
  | [], _ => true
  | a :: p', b :: l' => bool_decide (a = b) && isPrefix p' l'
  | _ :: _, [] => false
  end.

(** [doc.querySelectorAll("T1 > T2 > ... > Tn")]: a chain of type
    selectors joined by child combinators. *)
Definition docQuerySelectorAllChain (chain : list string) (d : Document)
  : list Element :=
  snd <$> filter (λ x, isPrefix (reverse chain) (tagName x.2 :: x.1) = true)
                 (withAncestors [] (documentElement d)).

(** [e.querySelectorAll("P > T")]: the descendants of [e] with tag [T]
    whose parent has tag [P]; the parent is [e] or a descendant of [e]. *)
Definition querySelectorAllChild (parent tag : string) (e : Element) : list Element :=
  snd <$> filter (λ x, isPrefix [tag; parent] (tagName x.2 :: x.1) = true)
                 (tail (withAncestors [] e)).

(** [e.querySelectorAll("T1,T2,...")]: the descendants of [e] with one of
    these tags, in document order. *)
Definition querySelectorAllAny (tags : list string) (e : Element) : list Element :=
  filter (λ d, tagName d ∈ tags) (descendants e).

End Dom.

(** ** [Map<string, V>] with its insertion order *)

Module JsMap.

Section Ops.
Context {V : Type}.

(** [m.get(k)] *)
Fixpoint get (m : list (string * V)) (k : string) : option V :=
  match m with
  | [] => None
  | (k', v) :: r => if bool_decide (k' = k) then Some v else get r k
  end.

(** [m.set(k, v)]: a key already present keeps its place and takes the new
    value, a new key goes last. *)
Fixpoint set (m : list (string * V)) (k : string) (v : V) : list (string * V) :=
  match m with
  | [] => [(k, v)]
  | (k', v') :: r => if bool_decide (k' = k) then (k', v) :: r else (k', v') :: set r k v
  end.

(** [m.size] *)
Definition size (m : list (string * V)) : nat := length m.

Definition keys (m : list (string * V)) : list string := m.*1.

End Ops.

End JsMap.

(** ** types/opcua.types.ts *)

(** The enum [NodeClass]; its member [Variable] is spelled [Variable_]. *)
Module NodeClass.
Inductive t := Object | Variable_ | Method | ObjectType | VariableType | ReferenceType | DataType | View.
End NodeClass.

Record OpcUaReference := {
  referenceType : string;
  isForward : bool;
  targetNodeId : string;
}.

(** A node object is named by its place in the store. *)
Abbreviation loc := nat.

Record OpcUaNode := {
  nodeId : string;
  browseName : string;
  displayName : string;
  nodeClass : NodeClass.t;
  description : option string;
  dataType : option string;
  valueRank : option (option Z);
  modellingRule : option string;
  type : option string;
  typeDefinition : option string;
  derivedFrom : option string;
  references : list OpcUaReference;
  children : list loc;
}.

Record OpcUaNodeset := {
  fileName : string;
  namespaceUri : string;
  namespaceIndex : Z;
  store : list OpcUaNode;
  nodes : list (string * loc);
  rootNodes : list OpcUaNode;
}.

Record Namespace := {
  index : nat;
  uri : string;
}.

(** A call either returns a value or throws an [Error] with a message. *)
Inductive Outcome (A : Type) : Type :=
| Returned (value : A)
| Thrown (message : string).
Arguments Returned {A} value.
Arguments Thrown {A} message.

(** [node.children.push(child)] *)
Definition push (node : OpcUaNode) (child : loc) : OpcUaNode :=
  {| nodeId := nodeId node; browseName := browseName node;
     displayName := displayName node; nodeClass := nodeClass node;
     description := description node; dataType := dataType node;
     valueRank := valueRank node; modellingRule := modellingRule node;
     type := type node; typeDefinition := typeDefinition node;
     derivedFrom := derivedFrom node; references := references node;
     children := children node ++ [child] |}.

(** ** services/nodeset-parser.service.ts *)

Module NodesetParser.

(** The instance fields. *)
Record t := {
  aliasMap : gmap string string;
  nodeNameMap : gmap string string;
}.

(** [new NodesetParser()] *)
Definition new : t := {| aliasMap := ∅; nodeNameMap := ∅ |}.

Definition nodeTypes : list string :=
  ["UAObject"; "UAVariable"; "UAMethod"; "UAObjectType"; "UAVariableType";
   "UAReferenceType"; "UADataType"; "UAView"].

Definition resolveNodeId (this : t) (nodeId : string) : string :=
  if negb (Js.truthy nodeId) then ""
  else if bool_decide (is_Some (aliasMap this !! nodeId))
  then default "" (aliasMap this !! nodeId)
  else if bool_decide (is_Some (nodeNameMap this !! nodeId))
  then default "" (nodeNameMap this !! nodeId)
  else let parts := Js.split ":" nodeId in
       Js.orElse (last parts) nodeId.

Definition getElementText (parent : Dom.Element) (tagName : string) : string :=
  match Dom.querySelector tagName parent with
  | None => ""
  | Some element =>
      match Dom.querySelector "Text" element with
      | Some textElement =>
          if Js.truthy (Dom.textContent textElement)
          then Js.trim (Dom.textContent textElement)
          else Js.trim (Dom.textContent element)
      | None => Js.trim (Dom.textContent element)
      end
  end.

Definition getNodeClass (nodeType : string) : NodeClass.t :=
  if bool_decide (nodeType = "UAObject") then NodeClass.Object
  else if bool_decide (nodeType = "UAVariable") then NodeClass.Variable_
  else if bool_decide (nodeType = "UAMethod") then NodeClass.Method
  else if bool_decide (nodeType = "UAObjectType") then NodeClass.ObjectType
  else if bool_decide (nodeType = "UAVariableType") then NodeClass.VariableType
  else if bool_decide (nodeType = "UAReferenceType") then NodeClass.ReferenceType
  else if bool_decide (nodeType = "UADataType") then NodeClass.DataType
  else if bool_decide (nodeType = "UAView") then NodeClass.View
  else NodeClass.Object.

Definition findDerivedFrom (references : list OpcUaReference) : option string :=
  targetNodeId <$>
    List.find (λ ref, bool_decide (referenceType ref = "HasSubtype") && negb (isForward ref))
              references.

(** The body of the [refElements.forEach] callback of [parseNode]. *)
Definition parseReference (ref : Dom.Element) : option OpcUaReference :=
  let targetNodeId := Js.trim (Dom.textContent ref) in
  if Js.truthy targetNodeId
  then Some {| referenceType := Js.orElse (Dom.getAttribute "ReferenceType" ref) "References";
               isForward := negb (bool_decide (Dom.getAttribute "IsForward" ref = Some "false"));
               targetNodeId := targetNodeId |}
  else None.

Definition parseReferences (xmlNode : Dom.Element) : list OpcUaReference :=
  match Dom.querySelector "References" xmlNode with
  | Some referencesElement =>
      omap parseReference (Dom.querySelectorAll "Reference" referencesElement)
  | None => []
  end.

Definition parseNode (this : t) (xmlNode : Dom.Element) (nodeType : string)
  : option OpcUaNode :=
  match Js.nonEmpty (Dom.getAttribute "NodeId" xmlNode) with
  | None => None
  | Some nodeId =>
      let nodeClass := getNodeClass nodeType in
      let displayName := getElementText xmlNode "DisplayName" in
      let description := getElementText xmlNode "Description" in
      let browseName := Js.orElse (Dom.getAttribute "BrowseName" xmlNode) displayName in
      let references := parseReferences xmlNode in
      let dataType := Js.nonEmpty (Dom.getAttribute "DataType" xmlNode) in
      let valueRankStr := Js.nonEmpty (Dom.getAttribute "ValueRank" xmlNode) in
      let valueRank := Js.parseInt <$> valueRankStr in
      let parentNodeId := Js.nonEmpty (Dom.getAttribute "ParentNodeId" xmlNode) in
      let derivedFromId := Js.nonEmpty (findDerivedFrom references) in
      let derivedFromName := resolveNodeId this <$> derivedFromId in
      let typeDefRef :=
        List.find (λ ref, bool_decide (referenceType ref = "HasTypeDefinition") && isForward ref)
                  references in
      let typeDefinitionName := (λ ref, resolveNodeId this (targetNodeId ref)) <$> typeDefRef in
      let modellingRuleRef :=
        List.find (λ ref, bool_decide (referenceType ref = "HasModellingRule") && isForward ref)
                  references in
      let modellingRuleName := (λ ref, resolveNodeId this (targetNodeId ref)) <$> modellingRuleRef in
      Some {| nodeId := nodeId;
              browseName := browseName;
              displayName := displayName;
              nodeClass := nodeClass;
              description := Some description;
              dataType := resolveNodeId this <$> dataType;
              valueRank := valueRank;
              modellingRule := modellingRuleName;
              type := resolveNodeId this <$> parentNodeId;
              typeDefinition := typeDefinitionName;
              derivedFrom := derivedFromName;
              references := references;
              children := [] |}
  end.

(** The body of the [aliasElements.forEach] callback of [parseAliases]. *)
Definition addAlias (m : gmap string string) (alias : Dom.Element) : gmap string string :=
  match Js.nonEmpty (Dom.getAttribute "Alias" alias),
        Js.nonEmpty (Some (Js.trim (Dom.textContent alias))) with
  | Some aliasName, Some nodeId => <[nodeId := aliasName]> m
  | _, _ => m
  end.

Definition parseAliases (this : t) (uaNodeSet : Dom.Element) : t :=
  match Dom.querySelector "Aliases" uaNodeSet with
  | None => this
  | Some aliasesElement =>
      {| aliasMap := foldl addAlias (aliasMap this) (Dom.querySelectorAll "Alias" aliasesElement);
         nodeNameMap := nodeNameMap this |}
  end.

(** The body of the inner [forEach] callback of [parseNodeNames]. *)
Definition addNodeName (m : gmap string string) (xmlNode : Dom.Element) : gmap string string :=
  match Js.nonEmpty (Dom.getAttribute "NodeId" xmlNode),
        Js.nonEmpty (Dom.getAttribute "BrowseName" xmlNode) with
  | Some nodeId, Some browseName => <[nodeId := browseName]> m
  | _, _ => m
  end.

Definition parseNodeNames (this : t) (uaNodeSet : Dom.Element) : t :=
  {| aliasMap := aliasMap this;
     nodeNameMap :=
       foldl (λ m nodeType, foldl addNodeName m (Dom.querySelectorAll nodeType uaNodeSet))
             (nodeNameMap this) nodeTypes |}.

(** [createCategoryNode(name, nodeClass)] *)
Definition createCategoryNode (name : string) (nodeClass : NodeClass.t) : OpcUaNode :=
  {| nodeId := "Category_" +:+ name;
     browseName := name;
     displayName := name;
     nodeClass := nodeClass;
     description := None; dataType := None; valueRank := None;
     modellingRule := None; type := None; typeDefinition := None;
     derivedFrom := None;
     references := [];
     children := [] |}.

Definition hasEventTypeReference (node : OpcUaNode) : bool :=
  existsb (λ ref, bool_decide (referenceType ref = "HasSubtype") &&
                  Js.includes (targetNodeId ref) "EventType")
          (references node).

Definition hasInterfaceReference (node : OpcUaNode) : bool :=
  existsb (λ ref, bool_decide (referenceType ref = "HasInterface") ||
                  (bool_decide (referenceType ref = "HasSubtype") &&
                   Js.includes (targetNodeId ref) "Interface"))
          (references node).

(** The six category objects that [organizeIntoCategories] holds in local
    variables while it walks the node map. *)
Record Categories := {
  dataTypesCategory : OpcUaNode;
  eventTypesCategory : OpcUaNode;
  interfaceTypesCategory : OpcUaNode;
  objectTypesCategory : OpcUaNode;
  referenceTypesCategory : OpcUaNode;
  variableTypesCategory : OpcUaNode;
}.

Definition createCategories : Categories :=
  {| dataTypesCategory := createCategoryNode "DataTypes" NodeClass.DataType;
     eventTypesCategory := createCategoryNode "EventTypes" NodeClass.ObjectType;
     interfaceTypesCategory := createCategoryNode "InterfaceTypes" NodeClass.ObjectType;
     objectTypesCategory := createCategoryNode "ObjectTypes" NodeClass.ObjectType;
     referenceTypesCategory := createCategoryNode "ReferenceTypes" NodeClass.ReferenceType;
     variableTypesCategory := createCategoryNode "VariableTypes" NodeClass.VariableType |}.

(** The body of the [nodes.forEach] callback of [organizeIntoCategories];
    [l] is the node object the map entry holds. *)
Definition collect (store : list OpcUaNode) (c : Categories) (entry : string * loc)
  : Categories :=
  let l := entry.2 in
  match store !! l with
  | None => c
  | Some node =>
      match nodeClass node with
      | NodeClass.DataType =>
          {| dataTypesCategory := push (dataTypesCategory c) l;
             eventTypesCategory := eventTypesCategory c;
             interfaceTypesCategory := interfaceTypesCategory c;
             objectTypesCategory := objectTypesCategory c;
             referenceTypesCategory := referenceTypesCategory c;
             variableTypesCategory := variableTypesCategory c |}
      | NodeClass.ReferenceType =>
          {| dataTypesCategory := dataTypesCategory c;
             eventTypesCategory := eventTypesCategory c;
             interfaceTypesCategory := interfaceTypesCategory c;
             objectTypesCategory := objectTypesCategory c;
             referenceTypesCategory := push (referenceTypesCategory c) l;
             variableTypesCategory := variableTypesCategory c |}
      | NodeClass.VariableType =>
          {| dataTypesCategory := dataTypesCategory c;
             eventTypesCategory := eventTypesCategory c;
             interfaceTypesCategory := interfaceTypesCategory c;
             objectTypesCategory := objectTypesCategory c;
             referenceTypesCategory := referenceTypesCategory c;
             variableTypesCategory := push (variableTypesCategory c) l |}
      | NodeClass.ObjectType =>
          let browseName := Js.toLowerCase (browseName node) in
          if Js.includes browseName "event" || hasEventTypeReference node then
            {| dataTypesCategory := dataTypesCategory c;
               eventTypesCategory := push (eventTypesCategory c) l;
               interfaceTypesCategory := interfaceTypesCategory c;
               objectTypesCategory := objectTypesCategory c;
               referenceTypesCategory := referenceTypesCategory c;
               variableTypesCategory := variableTypesCategory c |}
          else if Js.includes browseName "interface" || hasInterfaceReference node then
            {| dataTypesCategory := dataTypesCategory c;
               eventTypesCategory := eventTypesCategory c;
               interfaceTypesCategory := push (interfaceTypesCategory c) l;
               objectTypesCategory := objectTypesCategory c;
               referenceTypesCategory := referenceTypesCategory c;
               variableTypesCategory := variableTypesCategory c |}
          else
            {| dataTypesCategory := dataTypesCategory c;
               eventTypesCategory := eventTypesCategory c;
               interfaceTypesCategory := interfaceTypesCategory c;
               objectTypesCategory := push (objectTypesCategory c) l;
               referenceTypesCategory := referenceTypesCategory c;
               variableTypesCategory := variableTypesCategory c |}
      | _ => c
      end
  end.

(** [if (category.children.length > 0) categories.push(category)] *)
Definition pushIfNonEmpty (categories : list OpcUaNode) (category : OpcUaNode)
  : list OpcUaNode :=
  if 0 <? length (children category) then categories ++ [category] else categories.

Definition organizeIntoCategories (store : list OpcUaNode) (nodes : list (string * loc))
  : list OpcUaNode :=
  let c := foldl (collect store) createCategories nodes in
  let categories := [] in
  let categories := pushIfNonEmpty categories (dataTypesCategory c) in
  let categories := pushIfNonEmpty categories (eventTypesCategory c) in
  let categories := pushIfNonEmpty categories (interfaceTypesCategory c) in
  let categories := pushIfNonEmpty categories (objectTypesCategory c) in
  let categories := pushIfNonEmpty categories (referenceTypesCategory c) in
  let categories := pushIfNonEmpty categories (variableTypesCategory c) in
  categories.

(** The test of [buildHierarchy] on one reference. *)
Definition isHierarchical (ref : OpcUaReference) : bool :=
  (bool_decide (referenceType ref = "HasComponent") ||
   bool_decide (referenceType ref = "Organizes") ||
   bool_decide (referenceType ref = "HasProperty")) &&
  isForward ref.

(** The body of the inner [forEach] callback of [buildHierarchy], for the
    node object at [l]. *)
Definition link (nodes : list (string * loc)) (l : loc) (store : list OpcUaNode)
    (ref : OpcUaReference) : list OpcUaNode :=
  if isHierarchical ref then
    match JsMap.get nodes (targetNodeId ref) with
    | Some childNode => alter (λ node, push node childNode) l store
    | None => store
    end
  else store.

Definition buildHierarchy (store : list OpcUaNode) (nodes : list (string * loc))
  : list OpcUaNode :=
  foldl (λ store entry,
           match store !! entry.2 with
           | Some node => foldl (link nodes entry.2) store (references node)
           | None => store
           end)
        store nodes.

(** The body of the inner [forEach] callback of [processNodeset]: a parsed
    node is a new object, stored under its raw identifier. *)
Definition addNode (this : t) (nodeType : string)
    (acc : list OpcUaNode * list (string * loc)) (xmlNode : Dom.Element)
  : list OpcUaNode * list (string * loc) :=
  match parseNode this xmlNode nodeType with
  | Some node => (acc.1 ++ [node], JsMap.set acc.2 (nodeId node) (length acc.1))
  | None => acc
  end.

Definition parseNodes (this : t) (uaNodeSet : Dom.Element)
  : list OpcUaNode * list (string * loc) :=
  foldl (λ acc nodeType,
           foldl (addNode this nodeType) acc (Dom.querySelectorAll nodeType uaNodeSet))
        ([], []) nodeTypes.

Definition extractNamespaceUri (uaNodeSet : Dom.Element) : string :=
  let namespaceUri := "http://opcfoundation.org/UA/" in
  match Dom.querySelector "NamespaceUris" uaNodeSet with
  | Some namespaceUrisElement =>
      match Dom.querySelector "Uri" namespaceUrisElement with
      | Some uriElement =>
          if Js.truthy (Dom.textContent uriElement) then Dom.textContent uriElement
          else namespaceUri
      | None => namespaceUri
      end
  | None => namespaceUri
  end.

Definition processNodeset (this : t) (xmlDoc : Dom.Document) (fileName : string)
  : t * Outcome OpcUaNodeset :=
  match Dom.docQuerySelector "UANodeSet" xmlDoc with
  | None => (this, Thrown "Invalid nodeset format: UANodeSet element not found")
  | Some uaNodeSet =>
      let namespaceUri := extractNamespaceUri uaNodeSet in
      let this := parseAliases this uaNodeSet in
      let '(store, nodes) := parseNodes this uaNodeSet in
      let store := buildHierarchy store nodes in
      let typeCategories := organizeIntoCategories store nodes in
      (this, Returned {| fileName := fileName;
                         namespaceUri := namespaceUri;
                         namespaceIndex := 1;
                         store := store;
                         nodes := nodes;
                         rootNodes := typeCategories |})
  end.

(** The body of the [referenceNodesets.forEach] callback of [parseNodeset]. *)
Definition addReferenceNodeset (this : t) (refDoc : Dom.Document) : t :=
  match Dom.docQuerySelector "UANodeSet" refDoc with
  | Some refNodeSet => parseNodeNames (parseAliases this refNodeSet) refNodeSet
  | None => this
  end.

(** [parseNodeset(xmlContent, fileName, referenceNodesets)], from the
    documents the platform's parser made of the texts.  The instance fields
    after the call come with the outcome: they are set before an error is
    thrown, too. *)
Definition parseNodeset (this : t) (xmlDoc : Dom.Document) (fileName : string)
    (referenceNodesets : list Dom.Document) : t * Outcome OpcUaNodeset :=
  let this := foldl addReferenceNodeset this referenceNodesets in
  match Dom.docQuerySelector "parsererror" xmlDoc with
  | Some parserError =>
      (this, Thrown ("Failed to parse XML: " +:+ Dom.textContent parserError))
  | None => processNodeset this xmlDoc fileName
  end.

End NodesetParser.

(** ** types/import.types.ts and the metadata of types/opcua.types.ts *)

Module Validation.

Record ValidationError := {
  message : string;
  code : option string;
  path : option string;
  details : option string;
}.

(** [ValidationWarning] has the fields of [ValidationError]. *)
Abbreviation ValidationWarning := ValidationError.

Record ValidationResult := {
  isValid : bool;
  errors : list ValidationError;
  warnings : list ValidationWarning;
}.

End Validation.

Module Metadata.

(** What [extractMetadata] reads of a [File]. *)
Record File := {
  name : string;
  size : Z;
  lastModified : Z;
}.

Record NodesetMetadata := {
  fileName : string;
  namespaceUri : string;
  publicationDate : option string;
  version : option string;
  nodeCount : nat;
  loadedAt : Z;
  id : string;
  metadataName : string;
  filePath : option string;
  fileSize : Z;
  namespaces : list Namespace;
  checksum : option string;
}.

End Metadata.

(** ** services/file-import.service.ts *)

Module FileImportService.

(** [extractNamespaces(xmlContent)], from the document the platform's
    parser made of the text. *)
Definition extractNamespaces (xmlDoc : Dom.Document) : list Namespace :=
  let uriElements := Dom.docQuerySelectorAllChain ["UANodeSet"; "NamespaceUris"; "Uri"] xmlDoc in
  omap (λ '(index, uriElement),
          let uri := Js.trim (Dom.textContent uriElement) in
          if Js.truthy uri then Some {| index := index; uri := uri |} else None)
       (imap pair uriElements).

(** [parseNodesetFile]: every import goes through the one exported
    [nodesetParser] instance. *)
Definition parseNodesetFile (nodesetParser : NodesetParser.t) (xmlDoc : Dom.Document)
    (fileName : string) (referenceNodesets : list Dom.Document)
  : NodesetParser.t * Outcome OpcUaNodeset :=
  NodesetParser.parseNodeset nodesetParser xmlDoc fileName referenceNodesets.

Definition missingElements (message : string) : Validation.ValidationError :=
  {| Validation.message := message; Validation.code := Some "MISSING_ELEMENTS";
     Validation.path := None; Validation.details := None |}.

(** [validateXML(xmlContent)], from the document the platform's parser made
    of the text. *)
Definition validateXML (xmlDoc : Dom.Document) : Validation.ValidationResult :=
  match Dom.docQuerySelector "parsererror" xmlDoc with
  | Some parserError =>
      {| Validation.isValid := false;
         Validation.errors :=
           [{| Validation.message := "XML parsing error";
               Validation.code := Some "PARSE_ERROR";
               Validation.path := None;
               Validation.details := Js.nonEmpty (Some (Dom.textContent parserError)) |}];
         Validation.warnings := [] |}
  | None =>
      let errors := [] in
      let uaNodeSet := Dom.docQuerySelector "UANodeSet" xmlDoc in
      let errors :=
        match uaNodeSet with
        | None => errors ++ [missingElements "Missing UANodeSet root element"]
        | Some _ => errors
        end in
      let namespaceUris :=
        match uaNodeSet with
        | Some e => Dom.querySelectorAllChild "NamespaceUris" "Uri" e
        | None => []
        end in
      let errors :=
        if length namespaceUris =? 0
        then errors ++ [missingElements "Missing NamespaceUris section"]
        else errors in
      let nodeElements := Dom.querySelectorAllAny NodesetParser.nodeTypes <$> uaNodeSet in
      let errors :=
        match nodeElements with
        | Some (_ :: _) => errors
        | _ => errors ++ [missingElements "Nodeset contains no node definitions"]
        end in
      {| Validation.isValid := length errors =? 0;
         Validation.errors := errors;
         Validation.warnings := [] |}
  end.

(** [extractMetadata(xmlContent, nodeset, file, checksum)]; [now] is what
    [new Date()] gives. *)
Definition extractMetadata (xmlDoc : Dom.Document) (nodeset : OpcUaNodeset)
    (file : Metadata.File) (checksum : option string) (now : Z)
  : Metadata.NodesetMetadata :=
  let namespaces := extractNamespaces xmlDoc in
  let nodeCount := JsMap.size (nodes nodeset) in
  {| Metadata.id :=
       Metadata.name file +:+ "-" +:+ pretty (Metadata.size file) +:+ "-" +:+
       pretty (Metadata.lastModified file);
     Metadata.metadataName := Metadata.name file;
     Metadata.fileName := Metadata.name file;
     Metadata.filePath := None;
     Metadata.fileSize := Metadata.size file;
     Metadata.loadedAt := now;
     Metadata.namespaces := namespaces;
     Metadata.nodeCount := nodeCount;
     Metadata.checksum := checksum;
     Metadata.namespaceUri := namespaceUri nodeset;
     Metadata.publicationDate := None;
     Metadata.version := None |}.

(** [detectDuplicate(checksum, loadedChecksums)] *)
Definition detectDuplicate (checksum : option string) (loadedChecksums : gset string) : bool :=
  match Js.nonEmpty checksum with
  | None => false
  | Some checksum => bool_decide (checksum ∈ loadedChecksums)
  end.

(** The body of the fallback loop of [generateChecksum]. *)
Definition hashStep (hash : Z) (c : ascii) : Z :=
  Js.toInt32 (Js.shiftLeft hash 5 - hash + Js.charCode c).

Fixpoint hashLoop (hash : Z) (xmlContent : string) : Z :=
  match xmlContent with
  | EmptyString => hash
  | String c rest => hashLoop (hashStep hash c) rest
  end.

(** [new TextEncoder().encode(xmlContent)], for ASCII text. *)
Definition encode (xmlContent : string) : list Byte.byte :=
  String.list_byte_of_string xmlContent.

(** [hashArray.map((b) => b.toString(16).padStart(2, '0')).join('')] *)
Definition hex (hashArray : list Byte.byte) : string :=
  Js.join ((λ b, Js.padStart 2 "0" (Js.toString16 (Byte.to_N b))) <$> hashArray).

(** [generateChecksum(xmlContent)].  [subtleDigest] is the platform's
    [crypto.subtle.digest] for SHA-256 when the platform has one. *)
Definition generateChecksum (subtleDigest : option (list Byte.byte → list Byte.byte))
    (xmlContent : string) : string :=
  match subtleDigest with
  | Some digest => hex (digest (encode xmlContent))
  | None => "fallback-" +:+ pretty (Z.abs (hashLoop 0 xmlContent))
  end.

End FileImportService.

(** * Vocabulary of the properties

    What the statements below are written in: the orders in which the code
    visits elements, the intermediate values of its loops, and the rules of
    the specification. *)

(** ** Symbol resolution *)

(** The part of [s] after its last colon, when [s] has a colon. *)
Fixpoint afterLastColon (s : string) : option string :=
  match s with
  | EmptyString => None
  | String c r =>
      match afterLastColon r with
      | Some t => Some t
      | None => if bool_decide (c = ":"%char) then Some r else None
      end
  end.

Module SymbolTable.

(** The states a parser instance can be in: the one [new NodesetParser()]
    makes, and whatever [parseNodeset] leaves behind. *)
Inductive reachable : NodesetParser.t → Prop :=
| reachable_new : reachable NodesetParser.new
| reachable_parseNodeset this xmlDoc fileName referenceNodesets :
    reachable this →
    reachable (NodesetParser.parseNodeset this xmlDoc fileName referenceNodesets).1.

Definition noEmptyKey (this : NodesetParser.t) : Prop :=
  NodesetParser.aliasMap this !! "" = None ∧
  NodesetParser.nodeNameMap this !! "" = None.

(** Resolution as the specification orders it. *)
Definition resolution (aliasMap nodeNameMap : gmap string string) (X : string) : string :=
  match aliasMap !! X with
  | Some alias => alias
  | None =>
      match nodeNameMap !! X with
      | Some name => name
      | None =>
          match afterLastColon X with
          | Some suffix => if bool_decide (suffix = "") then X else suffix
          | None => X
          end
      end
  end.

End SymbolTable.

(** ** Node extraction *)

(** The recognized elements of a nodeset with their tags, in the order in
    which [processNodeset] and [parseNodeNames] visit them: tag by tag, and
    in document order under one tag. *)
Definition nodeElements (uaNodeSet : Dom.Element) : list (string * Dom.Element) :=
  ty ← NodesetParser.nodeTypes; pair ty <$> Dom.querySelectorAll ty uaNodeSet.

(** The identifier under which an element is stored: its non-empty
    [NodeId]. *)
Definition elementId (x : string * Dom.Element) : option string :=
  Js.nonEmpty (Dom.getAttribute "NodeId" x.2).

Definition parsedNodes (this : NodesetParser.t) (uaNodeSet : Dom.Element) : list OpcUaNode :=
  omap (λ x, NodesetParser.parseNode this x.2 x.1) (nodeElements uaNodeSet).

(** [nodes.set(node.nodeId, node)] for the nodes [ns], whose objects are at
    [i], [i+1], ... *)
Fixpoint setAll (m : list (string * loc)) (i : nat) (ns : list OpcUaNode)
  : list (string * loc) :=
  match ns with
  | [] => m
  | n :: r => setAll (JsMap.set m (nodeId n) i) (S i) r
  end.

(** Every entry of the node map names an object of the store that carries
    the entry's key; no key and no object occurs twice. *)
Record wfNodes (store : list OpcUaNode) (nodes : list (string * loc)) : Prop := {
  wf_keys : NoDup (JsMap.keys nodes);
  wf_locs : NoDup nodes.*2;
  wf_entry : ∀ k l, (k, l) ∈ nodes → ∃ n, store !! l = Some n ∧ nodeId n = k;
}.

(** ** Hierarchy *)

(** [node.children.push(...cs)] *)
Definition pushAll (node : OpcUaNode) (cs : list loc) : OpcUaNode :=
  {| nodeId := nodeId node; browseName := browseName node;
     displayName := displayName node; nodeClass := nodeClass node;
     description := description node; dataType := dataType node;
     valueRank := valueRank node; modellingRule := modellingRule node;
     type := type node; typeDefinition := typeDefinition node;
     derivedFrom := derivedFrom node; references := references node;
     children := children node ++ cs |}.

(** The objects that the references [refs] make children, in the order of
    [refs]: the map's object for the target of each forward [HasComponent],
    [Organizes] or [HasProperty] reference whose target is a key. *)
Definition childrenOf (nodes : list (string * loc)) (refs : list OpcUaReference)
  : list loc :=
  omap (λ ref, if NodesetParser.isHierarchical ref
               then JsMap.get nodes (targetNodeId ref) else None) refs.

(** The step of [buildHierarchy] on one map entry. *)
Definition linkEntry (nodes : list (string * loc)) (store : list OpcUaNode)
    (entry : string * loc) : list OpcUaNode :=
  match store !! entry.2 with
  | Some node => foldl (NodesetParser.link nodes entry.2) store (references node)
  | None => store
  end.

(** ** Categories *)

Inductive Bucket :=
| DataTypes | EventTypes | InterfaceTypes | ObjectTypes | ReferenceTypes | VariableTypes.

Global Instance Bucket_eq_dec : EqDecision Bucket.
Proof. solve_decision. Defined.

(** The categories in the order in which [organizeIntoCategories] offers
    them to the result. *)
Definition buckets : list Bucket :=
  [DataTypes; EventTypes; InterfaceTypes; ObjectTypes; ReferenceTypes; VariableTypes].

Definition bucketName (b : Bucket) : string :=
  match b with
  | DataTypes => "DataTypes"
  | EventTypes => "EventTypes"
  | InterfaceTypes => "InterfaceTypes"
  | ObjectTypes => "ObjectTypes"
  | ReferenceTypes => "ReferenceTypes"
  | VariableTypes => "VariableTypes"
  end.

Definition bucketClass (b : Bucket) : NodeClass.t :=
  match b with
  | DataTypes => NodeClass.DataType
  | EventTypes | InterfaceTypes | ObjectTypes => NodeClass.ObjectType
  | ReferenceTypes => NodeClass.ReferenceType
  | VariableTypes => NodeClass.VariableType
  end.

Definition category (b : Bucket) (c : NodesetParser.Categories) : OpcUaNode :=
  match b with
  | DataTypes => NodesetParser.dataTypesCategory c
  | EventTypes => NodesetParser.eventTypesCategory c
  | InterfaceTypes => NodesetParser.interfaceTypesCategory c
  | ObjectTypes => NodesetParser.objectTypesCategory c
  | ReferenceTypes => NodesetParser.referenceTypesCategory c
  | VariableTypes => NodesetParser.variableTypesCategory c
  end.

(** The two tests [organizeIntoCategories] makes on an [ObjectType] node. *)
Definition eventTest (node : OpcUaNode) : bool :=
  Js.includes (Js.toLowerCase (browseName node)) "event" ||
  NodesetParser.hasEventTypeReference node.

Definition interfaceTest (node : OpcUaNode) : bool :=
  Js.includes (Js.toLowerCase (browseName node)) "interface" ||
  NodesetParser.hasInterfaceReference node.

(** The category a node goes to, if any. *)
Definition bucketOf (node : OpcUaNode) : option Bucket :=
  match nodeClass node with
  | NodeClass.DataType => Some DataTypes
  | NodeClass.ReferenceType => Some ReferenceTypes
  | NodeClass.VariableType => Some VariableTypes
  | NodeClass.ObjectType =>
      if eventTest node then Some EventTypes
      else if interfaceTest node then Some InterfaceTypes
      else Some ObjectTypes
  | _ => None
  end.

(** The objects of the node map that go to category [b], in map order. *)
Definition members (store : list OpcUaNode) (nodes : list (string * loc)) (b : Bucket)
  : list loc :=
  omap (λ entry : string * loc,
          match store !! entry.2 with
          | Some node => if decide (bucketOf node = Some b) then Some entry.2 else None
          | None => None
          end) nodes.

(** The category object for [b] once it holds the members [ms]. *)
Definition categoryNode (b : Bucket) (ms : list loc) : OpcUaNode :=
  pushAll (NodesetParser.createCategoryNode (bucketName b) (bucketClass b)) ms.

Definition typeClasses : list NodeClass.t :=
  [NodeClass.DataType; NodeClass.ReferenceType; NodeClass.VariableType; NodeClass.ObjectType].

(** The object at [l] is a member of the root category called [name]. *)
Definition under (r : OpcUaNodeset) (name : string) (l : loc) : Prop :=
  ∃ c, c ∈ rootNodes r ∧ browseName c = name ∧ l ∈ children c.

(** The event rule of the code: the direction of the [HasSubtype] reference
    is not looked at. *)
Definition eventRule (node : OpcUaNode) : Prop :=
  Js.includes (Js.toLowerCase (browseName node)) "event" = true ∨
  ∃ ref, ref ∈ references node ∧ referenceType ref = "HasSubtype" ∧
         Js.includes (targetNodeId ref) "EventType" = true.

(** The event rule as the specification words it: only a backward
    [HasSubtype] reference counts. *)
Definition eventRuleBackwardOnly (node : OpcUaNode) : Prop :=
  Js.includes (Js.toLowerCase (browseName node)) "event" = true ∨
  ∃ ref, ref ∈ references node ∧ referenceType ref = "HasSubtype" ∧
         isForward ref = false ∧
         Js.includes (targetNodeId ref) "EventType" = true.

Definition interfaceRule (node : OpcUaNode) : Prop :=
  Js.includes (Js.toLowerCase (browseName node)) "interface" = true ∨
  ∃ ref, ref ∈ references node ∧
         (referenceType ref = "HasInterface" ∨
          referenceType ref = "HasSubtype" ∧
          Js.includes (targetNodeId ref) "Interface" = true).

(** ** Documents *)

(** The document has an element with this tag, at any depth. *)
Definition hasElement (tag : string) (d : Dom.Document) : Prop :=
  ∃ e, e ∈ Dom.inclusive (Dom.documentElement d) ∧ Dom.tagName e = tag.

(** The elements [extractNamespaces] reads. *)
Definition uriElements (xmlDoc : Dom.Document) : list Dom.Element :=
  Dom.docQuerySelectorAllChain ["UANodeSet"; "NamespaceUris"; "Uri"] xmlDoc.

(** The body of the [uriElements.forEach] callback. *)
Definition namespaceOf (x : nat * Dom.Element) : option Namespace :=
  let uri := Js.trim (Dom.textContent x.2) in
  if Js.truthy uri then Some {| index := x.1; uri := uri |} else None.

(** ** Auxiliary documents and the name table *)

(** The recognized elements of the auxiliary documents, in the order in
    which [parseNodeset] visits them: document by document, and within a
    document as [nodeElements] lists them.  A document with no [UANodeSet]
    element gives none. *)
Definition referenceElements (referenceNodesets : list Dom.Document)
  : list (string * Dom.Element) :=
  d ← referenceNodesets;
  match Dom.docQuerySelector "UANodeSet" d with
  | Some refNodeSet => nodeElements refNodeSet
  | None => []
  end.

(** The pair an element adds to the name table. *)
Definition nameOf (x : string * Dom.Element) : option (string * string) :=
  match Js.nonEmpty (Dom.getAttribute "NodeId" x.2),
        Js.nonEmpty (Dom.getAttribute "BrowseName" x.2) with
  | Some nodeId, Some browseName => Some (nodeId, browseName)
  | _, _ => None
  end.

Definition addName (m : gmap string string) (x : string * Dom.Element) : gmap string string :=
  NodesetParser.addNodeName m x.2.

(** ** State carried between calls *)

(** The identifiers [parseNode] resolves for one element. *)
Definition resolvedBy (xmlNode : Dom.Element) : list string :=
  let references := NodesetParser.parseReferences xmlNode in
  option_list (Js.nonEmpty (Dom.getAttribute "DataType" xmlNode)) ++
  option_list (Js.nonEmpty (Dom.getAttribute "ParentNodeId" xmlNode)) ++
  option_list (Js.nonEmpty (NodesetParser.findDerivedFrom references)) ++
  option_list (targetNodeId <$>
     List.find (λ ref, bool_decide (referenceType ref = "HasTypeDefinition") && isForward ref)
               references) ++
  option_list (targetNodeId <$>
     List.find (λ ref, bool_decide (referenceType ref = "HasModellingRule") && isForward ref)
               references).

(** The identifiers a parse of this main document resolves. *)
Definition resolvedIds (xmlDoc : Dom.Document) : list string :=
  match Dom.docQuerySelector "UANodeSet" xmlDoc with
  | Some uaNodeSet => x ← nodeElements uaNodeSet; resolvedBy x.2
  | None => []
  end.

(** [this1] holds what [this0] holds, over what was in [base]. *)
Definition over (base this0 this1 : NodesetParser.t) : Prop :=
  NodesetParser.aliasMap this1 = NodesetParser.aliasMap this0 ∪ NodesetParser.aliasMap base ∧
  NodesetParser.nodeNameMap this1 =
    NodesetParser.nodeNameMap this0 ∪ NodesetParser.nodeNameMap base.

(** ** Structural validation *)

(** The error [validateXML] reports for a document that did not parse. *)
Definition parseError (details : option string) : Validation.ValidationError :=
  {| Validation.message := "XML parsing error"; Validation.code := Some "PARSE_ERROR";
     Validation.path := None; Validation.details := details |}.

(** The three errors [validateXML] can report for a document that parsed. *)
Definition missingRoot : Validation.ValidationError :=
  FileImportService.missingElements "Missing UANodeSet root element".
Definition missingNamespaceUris : Validation.ValidationError :=
  FileImportService.missingElements "Missing NamespaceUris section".
Definition missingNodes : Validation.ValidationError :=
  FileImportService.missingElements "Nodeset contains no node definitions".

(** ** Checksums *)

(** The value the fallback loop computes when numbers do not wrap: each
    character multiplies what came before by 31 and adds its code. *)
Fixpoint polynomial (h : Z) (s : string) : Z :=
  match s with
  | EmptyString => h
  | String c r => polynomial (31 * h + Js.charCode c) r
  end.

(** Reading a checksum of the digest kind back: two lower-case hexadecimal
    digits make one byte. *)
Fixpoint indexOf (c : ascii) (s : string) (i : N) : option N :=
  match s with
  | EmptyString => None
  | String d r => if bool_decide (d = c) then Some i else indexOf c r (i + 1)
  end.

Definition hexValue (c : ascii) : option N := indexOf c "0123456789abcdef" 0.

Fixpoint unhex (s : string) : option (list Byte.byte) :=
  match s with
  | EmptyString => Some []
  | String c1 (String c2 r) =>
      match hexValue c1, hexValue c2 with
      | Some a, Some b =>
          match Byte.of_N (16 * a + b), unhex r with
          | Some byte, Some l => Some (byte :: l)
          | _, _ => None
          end
      | _, _ => None
      end
  | String _ EmptyString => None
  end.


(** ** The alias table *)

(** The [Alias] elements [parseAliases] reads in a nodeset: those of its
    first [Aliases] element. *)
Definition aliasElements (uaNodeSet : Dom.Element) : list Dom.Element :=
  match Dom.querySelector "Aliases" uaNodeSet with
  | Some aliasesElement => Dom.querySelectorAll "Alias" aliasesElement
  | None => []
  end.

(** The pair an [Alias] element adds to the alias table: its trimmed text
    as the key and its [Alias] attribute as the value, when neither is
    empty. *)
Definition aliasOf (alias : Dom.Element) : option (string * string) :=
  match Js.nonEmpty (Dom.getAttribute "Alias" alias),
        Js.nonEmpty (Some (Js.trim (Dom.textContent alias))) with
  | Some aliasName, Some nodeId => Some (nodeId, aliasName)
  | _, _ => None
  end.

(** The [Alias] elements one call of [parseNodeset] reads, in the order in
    which it reads them: those of the auxiliary documents, document by
    document, and then those of the main document, if the main document gets
    as far as [processNodeset] finding its [UANodeSet] element. *)
Definition aliasSequence (xmlDoc : Dom.Document) (referenceNodesets : list Dom.Document)
  : list Dom.Element :=
  (d ← referenceNodesets;
   match Dom.docQuerySelector "UANodeSet" d with
   | Some refNodeSet => aliasElements refNodeSet
   | None => []
   end) ++
  match Dom.docQuerySelector "parsererror" xmlDoc, Dom.docQuerySelector "UANodeSet" xmlDoc with
  | None, Some uaNodeSet => aliasElements uaNodeSet
  | _, _ => []
  end.

(** The names that the elements [seq] declare for the identifier [k], in
    the order of [seq]. *)
Definition aliasesFor (k : string) (seq : list Dom.Element) : list string :=
  omap (λ a, p ← aliasOf a; if decide (p.1 = k) then Some p.2 else None) seq.

(** Neither table holds an empty key or an empty value. *)
Definition symbolsNonEmpty (this : NodesetParser.t) : Prop :=
  (∀ k v, NodesetParser.aliasMap this !! k = Some v → k ≠ "" ∧ v ≠ "") ∧
  (∀ k v, NodesetParser.nodeNameMap this !! k = Some v → k ≠ "" ∧ v ≠ "").

(** ** Node classes *)

(** The string value of a member of the enum [NodeClass]. *)
Definition nodeClassName (c : NodeClass.t) : string :=
  match c with
  | NodeClass.Object => "Object"
  | NodeClass.Variable_ => "Variable"
  | NodeClass.Method => "Method"
  | NodeClass.ObjectType => "ObjectType"
  | NodeClass.VariableType => "VariableType"
  | NodeClass.ReferenceType => "ReferenceType"
  | NodeClass.DataType => "DataType"
  | NodeClass.View => "View"
  end.

(** ** Text that has been trimmed *)

Definition startsClean (s : string) : Prop :=
  match s with
  | EmptyString => True
  | String c _ => Ascii.is_space c = false
  end.


(** ** What the tables can change *)

(** Two node objects that differ at most in the names the parser resolves
    through its tables: data type, parent type, type definition, modelling
    rule and supertype, each of which is present in both or in neither. *)
Record sameButNames (n1 n2 : OpcUaNode) : Prop := {
  same_nodeId : nodeId n1 = nodeId n2;
  same_browseName : browseName n1 = browseName n2;
  same_displayName : displayName n1 = displayName n2;
  same_nodeClass : nodeClass n1 = nodeClass n2;
  same_description : description n1 = description n2;
  same_valueRank : valueRank n1 = valueRank n2;
  same_references : references n1 = references n2;
  same_children : children n1 = children n2;
  same_dataType : is_Some (dataType n1) ↔ is_Some (dataType n2);
  same_type : is_Some (type n1) ↔ is_Some (type n2);
  same_typeDefinition : is_Some (typeDefinition n1) ↔ is_Some (typeDefinition n2);
  same_modellingRule : is_Some (modellingRule n1) ↔ is_Some (modellingRule n2);
  same_derivedFrom : is_Some (derivedFrom n1) ↔ is_Some (derivedFrom n2);
}.

(** An auxiliary document that [parseNodeset] reads: one with a
    [UANodeSet] element. *)
Definition hasUANodeSet (d : Dom.Document) : Prop :=
  is_Some (Dom.docQuerySelector "UANodeSet" d).

Global Instance hasUANodeSet_dec d : Decision (hasUANodeSet d).
Proof. unfold hasUANodeSet. apply _. Defined.


(** ** The order of the node map *)

(** The different values of a list, each at the place where it occurs
    first. *)
Fixpoint firstOccurrences (l : list string) : list string :=
  match l with
  | [] => []
  | x :: l => x :: filter (λ y, y ≠ x) (firstOccurrences l)
  end.


(** ** Documents to run the parser on *)

Module Examples.

Definition el (tag : string) (attrs : list (string * string))
    (kids : list (string + Dom.Element)) : string + Dom.Element :=
  inr (Dom.Elem tag attrs kids).

Definition root (tag : string) (kids : list (string + Dom.Element)) : Dom.Document :=
  {| Dom.documentElement := Dom.Elem tag [] kids |}.

(** An auxiliary nodeset: one alias and one named data type, both for
    [i=24]. *)
Definition auxDoc : Dom.Document :=
  root "UANodeSet"
    [el "Aliases" [] [el "Alias" [("Alias", "BaseDataType")] [inl "i=24"]];
     el "UADataType" [("NodeId", "i=24"); ("BrowseName", "BaseDataTypeName")] []].

(** A main nodeset: a parent with a forward and a backward [HasComponent]
    reference to [ns=1;i=2], two elements that both bear that [NodeId], and
    an object type. *)
Definition childVariable : Dom.Element :=
  Dom.Elem "UAVariable"
    [("NodeId", "ns=1;i=2"); ("BrowseName", "Child"); ("DataType", "i=6")] [].

Definition mainDoc : Dom.Document :=
  root "UANodeSet"
    [el "Aliases" [] [el "Alias" [("Alias", "Int32")] [inl "i=6"]];
     el "UAObject" [("NodeId", "ns=1;i=1"); ("BrowseName", "Parent")]
        [el "References" []
            [el "Reference" [("ReferenceType", "HasComponent")] [inl "ns=1;i=2"];
             el "Reference" [("ReferenceType", "HasComponent"); ("IsForward", "false")]
                [inl "ns=1;i=2"]]];
     inr childVariable;
     el "UAObject" [("NodeId", "ns=1;i=2"); ("BrowseName", "FirstChild")] [];
     el "UAObjectType" [("NodeId", "ns=1;i=3"); ("BrowseName", "BaseEventType")] []].

(** A variable whose data type is [i=24], with no alias of its own. *)
Definition secondDoc : Dom.Document :=
  root "UANodeSet"
    [el "UAVariable" [("NodeId", "ns=1;i=9"); ("BrowseName", "V"); ("DataType", "i=24")] []].

(** An object type that is no event by name and has a forward [HasSubtype]
    reference to a node whose identifier contains "EventType". *)
Definition forwardSubtypeDoc : Dom.Document :=
  root "UANodeSet"
    [el "UAObjectType" [("NodeId", "ns=1;i=1"); ("BrowseName", "Device")]
        [el "References" []
            [el "Reference" [("ReferenceType", "HasSubtype")] [inl "ns=1;s=AlarmEventType"]]]].

(** Elements whose [NodeId] attribute is there and empty. *)
Definition emptyIdElement : Dom.Element :=
  Dom.Elem "UAObject" [("NodeId", ""); ("BrowseName", "Nameless")] [].

Definition emptyIdDoc : Dom.Document :=
  root "UANodeSet" [inr emptyIdElement; inr emptyIdElement].

(** A well-formed document whose root is not [UANodeSet] and that has a
    [UANodeSet] element below the root. *)
Definition nestedDoc : Dom.Document :=
  root "Envelope" [el "UANodeSet" [] [el "UAObject" [("NodeId", "ns=1;i=1")] []]].

(** A named main-document node, and no auxiliary document. *)
Definition namedDoc : Dom.Document :=
  root "UANodeSet" [el "UAObject" [("NodeId", "ns=1;i=1"); ("BrowseName", "Pump")] []].

(** Namespace tables: one with an empty first [Uri], one without. *)
Definition sparseUrisDoc : Dom.Document :=
  root "UANodeSet"
    [el "NamespaceUris" [] [el "Uri" [] []; el "Uri" [] [inl "http://example.com/UA"]]].

Definition urisDoc : Dom.Document :=
  root "UANodeSet"
    [el "NamespaceUris" []
        [el "Uri" [] [inl "http://example.com/A"]; el "Uri" [] [inl " http://example.com/B "]];
     el "Extensions" [] [el "Uri" [] [inl "http://example.com/not-a-namespace"]]].

(** The instance after one import of [auxDoc] as a main document. *)
Definition usedParser : NodesetParser.t :=
  (NodesetParser.parseNodeset NodesetParser.new auxDoc "first.xml" []).1.

(** A nodeset that passes the structural validation. *)
Definition validDoc : Dom.Document :=
  root "UANodeSet"
    [el "NamespaceUris" [] [el "Uri" [] [inl "http://example.com/UA"]];
     el "UAObject" [("NodeId", "ns=1;i=1"); ("BrowseName", "Pump")] []].


End Examples.

(** ** Sentences of the specification that the code does not meet *)

(** C2 as the specification words it: only a backward [HasSubtype]
    reference to an "EventType" target counts. *)
Definition C2_as_stated (xmlDoc : Dom.Document) : Prop :=
  ∀ this' r k l node,
    NodesetParser.parseNodeset NodesetParser.new xmlDoc "unknown.xml" [] = (this', Returned r) →
    (k, l) ∈ nodes r → store r !! l = Some node →
    nodeClass node = NodeClass.ObjectType →
    (under r "EventTypes" l ↔ eventRuleBackwardOnly node).

(** C3 as the specification words it, for the main document: its named
    elements are in the name table after the call. *)
Definition C3_as_stated (xmlDoc : Dom.Document) : Prop :=
  ∀ uaNodeSet x id bn,
    Dom.docQuerySelector "UANodeSet" xmlDoc = Some uaNodeSet →
    x ∈ nodeElements uaNodeSet →
    Dom.getAttribute "NodeId" x.2 = Some id →
    Dom.getAttribute "BrowseName" x.2 = Some bn →
    NodesetParser.nodeNameMap
      (NodesetParser.parseNodeset NodesetParser.new xmlDoc "unknown.xml" []).1 !! id = Some bn.

(** C4 as the specification words it: on an instance that was used before,
    a call gives what it gives on a fresh instance. *)
Definition C4_as_stated (this : NodesetParser.t) (xmlDoc : Dom.Document) : Prop :=
  SymbolTable.reachable this →
  (NodesetParser.parseNodeset this xmlDoc "unknown.xml" []).2 =
  (NodesetParser.parseNodeset NodesetParser.new xmlDoc "unknown.xml" []).2.

(** C6 as the specification words it: an element that carries a [NodeId]
    attribute has its entry in the node map. *)
Definition C6_as_stated (xmlDoc : Dom.Document) : Prop :=
  ∀ uaNodeSet this' r x id,
    Dom.docQuerySelector "UANodeSet" xmlDoc = Some uaNodeSet →
    NodesetParser.parseNodeset NodesetParser.new xmlDoc "unknown.xml" [] = (this', Returned r) →
    x ∈ nodeElements uaNodeSet →
    Dom.getAttribute "NodeId" x.2 = Some id →
    length (filter (λ en, en.1 = id) (nodes r)) = 1.

(** C7 as the specification words it: the distinct message, exactly when a
    well-formed main document has a root that is not [UANodeSet]. *)
Definition C7_as_stated (xmlDoc : Dom.Document) : Prop :=
  (NodesetParser.parseNodeset NodesetParser.new xmlDoc "unknown.xml" []).2
    = Thrown "Invalid nodeset format: UANodeSet element not found" ↔
  ¬ hasElement "parsererror" xmlDoc ∧
  Dom.tagName (Dom.documentElement xmlDoc) ≠ "UANodeSet".

(** C9 as the specification words it: one entry per [Uri] element, numbered
    by its place in the result. *)
Definition C9_as_stated (xmlDoc : Dom.Document) : Prop :=
  length (FileImportService.extractNamespaces xmlDoc) = length (uriElements xmlDoc) ∧
  ∀ i ns, FileImportService.extractNamespaces xmlDoc !! i = Some ns → index ns = i.

(** C10 as the specification words it: whatever the shared [NodeId] value
    is, the node map has one entry for it. *)
Definition C10_as_stated (xmlDoc : Dom.Document) : Prop :=
  ∀ uaNodeSet earlier x later id,
    Dom.docQuerySelector "parsererror" xmlDoc = None →
    Dom.docQuerySelector "UANodeSet" xmlDoc = Some uaNodeSet →
    nodeElements uaNodeSet = earlier ++ x :: later →
    (∃ y, y ∈ earlier ∧ Dom.getAttribute "NodeId" y.2 = Some id) →
    Dom.getAttribute "NodeId" x.2 = Some id →
    (∀ y, y ∈ later → Dom.getAttribute "NodeId" y.2 ≠ Some id) →
    ∃ this' r,
      NodesetParser.parseNodeset NodesetParser.new xmlDoc "unknown.xml" [] = (this', Returned r) ∧
      length (filter (λ en, en.1 = id) (nodes r)) = 1.

(** ** Proof steps *)

(** Runs [parseNodeset] on a closed input: [Hparse] keeps the call, [Hr]
    gives the returned nodeset. *)
Ltac run_parseNodeset call this' r Hparse Hr :=
  let Hval := fresh "Hval" in
  let msg := fresh "msg" in
  destruct call as [this' [r|msg]] eqn:Hparse;
  [pose proof Hparse as Hval; vm_compute in Hval; injection Hval as _ Hr
  |vm_compute in Hparse; discriminate Hparse].

(** * Properties *)

(** ** Splitting at colons *)

Lemma split_no_colon s :
  afterLastColon s = None → Js.split ":" s = [s].
Proof.
  induction s as [|c r IH]; simpl; [done|].
  destruct (afterLastColon r) eqn:Hr; [done|].
  case_bool_decide; [done|].
  intros _. by rewrite IH.
Qed.

Lemma split_colon s t :
  afterLastColon s = Some t →
  ∃ p ps, Js.split ":" s = p :: ps ++ [t].
Proof.
  revert t. induction s as [|c r IH]; intros t; simpl; [done|].
  destruct (afterLastColon r) as [t'|] eqn:Hr.
  - intros [= <-]. destruct (IH _ eq_refl) as (p & ps & ->).
    case_bool_decide.
    + by exists EmptyString, (p :: ps).
    + by exists (String c p), ps.
  - case_bool_decide as Hc; [|done]. intros [= <-].
    rewrite (split_no_colon r Hr). by exists EmptyString, [].
Qed.

Lemma last_split s :
  last (Js.split ":" s) = Some (default s (afterLastColon s)).
Proof.
  destruct (afterLastColon s) as [t|] eqn:Hs; simpl.
  - destruct (split_colon s t Hs) as (p & ps & ->).
    by rewrite app_comm_cons, last_snoc.
  - by rewrite (split_no_colon s Hs).
Qed.

(** ** The symbol tables never hold the empty key *)

Lemma nonEmpty_Some a s : Js.nonEmpty a = Some s ↔ a = Some s ∧ s ≠ "".
Proof.
  unfold Js.nonEmpty, Js.truthy. destruct a as [x|]; [|by split; [|intros []]].
  case_bool_decide as Hx; split.
  - by intros [= <-].
  - by intros [? _].
  - done.
  - by intros [[= <-] ?].
Qed.

Lemma nonEmpty_None a : Js.nonEmpty a = None ↔ a = None ∨ a = Some "".
Proof.
  unfold Js.nonEmpty, Js.truthy. destruct a as [x|]; [|by split; [left|]].
  case_bool_decide as Hx; split; try done.
  - intros [|]; congruence.
  - intros _. right. by f_equal.
Qed.

Lemma addAlias_empty_key m alias :
  m !! "" = None → NodesetParser.addAlias m alias !! "" = None.
Proof.
  intros Hm. unfold NodesetParser.addAlias.
  destruct (Js.nonEmpty (Dom.getAttribute _ _)); [|done].
  destruct (Js.nonEmpty (Some _)) as [k|] eqn:Hk; [|done].
  apply nonEmpty_Some in Hk as [_ Hk]. by rewrite lookup_insert_ne.
Qed.

Lemma addNodeName_empty_key m xmlNode :
  m !! "" = None → NodesetParser.addNodeName m xmlNode !! "" = None.
Proof.
  intros Hm. unfold NodesetParser.addNodeName.
  destruct (Js.nonEmpty (Dom.getAttribute "NodeId" _)) as [k|] eqn:Hk; [|done].
  destruct (Js.nonEmpty (Dom.getAttribute "BrowseName" _)); [|done].
  apply nonEmpty_Some in Hk as [_ Hk]. by rewrite lookup_insert_ne.
Qed.

Lemma foldl_preserves {A B} (P : A → Prop) (f : A → B → A) l a :
  (∀ a b, P a → P (f a b)) → P a → P (foldl f a l).
Proof. intros Hf. revert a. induction l; simpl; auto. Qed.

Lemma parseAliases_noEmptyKey this uaNodeSet :
  SymbolTable.noEmptyKey this →
  SymbolTable.noEmptyKey (NodesetParser.parseAliases this uaNodeSet).
Proof.
  intros [Ha Hn]. unfold NodesetParser.parseAliases.
  destruct (Dom.querySelector _ _); [|done]. split; [|done]. simpl.
  apply (foldl_preserves (λ m, m !! "" = None)); auto using addAlias_empty_key.
Qed.

Lemma parseNodeNames_noEmptyKey this uaNodeSet :
  SymbolTable.noEmptyKey this →
  SymbolTable.noEmptyKey (NodesetParser.parseNodeNames this uaNodeSet).
Proof.
  intros [Ha Hn]. split; [done|].
  unfold NodesetParser.parseNodeNames. cbn [NodesetParser.nodeNameMap].
  apply (foldl_preserves (λ m, m !! "" = None)); [|exact Hn].
  intros m ty Hm.
  apply (foldl_preserves (λ m, m !! "" = None)); auto using addNodeName_empty_key.
Qed.

Lemma processNodeset_state this xmlDoc fileName :
  (NodesetParser.processNodeset this xmlDoc fileName).1 =
  match Dom.docQuerySelector "UANodeSet" xmlDoc with
  | Some uaNodeSet => NodesetParser.parseAliases this uaNodeSet
  | None => this
  end.
Proof.
  unfold NodesetParser.processNodeset.
  destruct (Dom.docQuerySelector _ _); [|done].
  by destruct (NodesetParser.parseNodes _ _).
Qed.

Lemma parseNodeset_state this xmlDoc fileName referenceNodesets :
  (NodesetParser.parseNodeset this xmlDoc fileName referenceNodesets).1 =
  let this' := foldl NodesetParser.addReferenceNodeset this referenceNodesets in
  match Dom.docQuerySelector "parsererror" xmlDoc,
        Dom.docQuerySelector "UANodeSet" xmlDoc with
  | None, Some uaNodeSet => NodesetParser.parseAliases this' uaNodeSet
  | _, _ => this'
  end.
Proof.
  unfold NodesetParser.parseNodeset. simpl.
  destruct (Dom.docQuerySelector "parsererror" _); [done|].
  apply processNodeset_state.
Qed.

Lemma parseNodeset_noEmptyKey this xmlDoc fileName referenceNodesets :
  SymbolTable.noEmptyKey this →
  SymbolTable.noEmptyKey
    (NodesetParser.parseNodeset this xmlDoc fileName referenceNodesets).1.
Proof.
  intros Hthis. rewrite parseNodeset_state. simpl.
  assert (SymbolTable.noEmptyKey
            (foldl NodesetParser.addReferenceNodeset this referenceNodesets)) as H.
  { apply (foldl_preserves SymbolTable.noEmptyKey); [|done].
    intros s d Hs. unfold NodesetParser.addReferenceNodeset.
    destruct (Dom.docQuerySelector _ _); [|done].
    by apply parseNodeNames_noEmptyKey, parseAliases_noEmptyKey. }
  destruct (Dom.docQuerySelector "parsererror" _); [done|].
  destruct (Dom.docQuerySelector "UANodeSet" _); [|done].
  by apply parseAliases_noEmptyKey.
Qed.

Lemma reachable_noEmptyKey this :
  SymbolTable.reachable this → SymbolTable.noEmptyKey this.
Proof.
  induction 1 as [|this xmlDoc fileName refs _ IH].
  - by split.
  - by apply parseNodeset_noEmptyKey.
Qed.

Lemma resolveNodeId_resolution this X :
  SymbolTable.noEmptyKey this →
  NodesetParser.resolveNodeId this X =
  SymbolTable.resolution (NodesetParser.aliasMap this) (NodesetParser.nodeNameMap this) X.
Proof.
  intros [Ha Hn]. unfold NodesetParser.resolveNodeId, SymbolTable.resolution, Js.truthy.
  case_bool_decide as HX; simpl.
  - destruct (NodesetParser.aliasMap this !! X) as [a|] eqn:HaX.
    { rewrite bool_decide_true by eauto. done. }
    rewrite bool_decide_false by (by intros [? ?]).
    destruct (NodesetParser.nodeNameMap this !! X) as [n|] eqn:HnX.
    { rewrite bool_decide_true by eauto. done. }
    rewrite bool_decide_false by (by intros [? ?]).
    rewrite last_split. unfold Js.orElse, Js.truthy.
    destruct (afterLastColon X) as [t|]; simpl.
    + repeat case_bool_decide; naive_solver.
    + by rewrite bool_decide_true.
  - subst X. by rewrite Ha, Hn.
Qed.

(** C1. In every state a parser instance can reach, [resolveNodeId] of any
    nodeId [X] is the alias-table entry of [X] when there is one, else the
    discovered name of [X] when there is one, else the non-empty part of [X]
    after its last colon, else [X] unchanged; so a nodeId present in both
    tables resolves to its alias. *)
Theorem C1_resolveNodeId_priority this X :
  SymbolTable.reachable this →
  NodesetParser.resolveNodeId this X =
    SymbolTable.resolution (NodesetParser.aliasMap this) (NodesetParser.nodeNameMap this) X
  ∧ (∀ alias name,
       NodesetParser.aliasMap this !! X = Some alias →
       NodesetParser.nodeNameMap this !! X = Some name →
       NodesetParser.resolveNodeId this X = alias).
Proof.
  intros Hr%reachable_noEmptyKey.
  pose proof (resolveNodeId_resolution this X Hr) as E.
  split; [done|]. intros alias name Ha _.
  rewrite E. unfold SymbolTable.resolution. by rewrite Ha.
Qed.

(** ** Facts about [JsMap] *)

Section JsMapFacts.
Context {V : Type}.
Implicit Types (m : list (string * V)) (k : string) (v : V).

Lemma get_set m k v k' :
  JsMap.get (JsMap.set m k v) k' = if bool_decide (k = k') then Some v else JsMap.get m k'.
Proof.
  induction m as [|[k0 v0] m IH]; csimpl.
  - done.
  - destruct (bool_decide (k0 = k)) eqn:E0; csimpl.
    + apply bool_decide_eq_true in E0 as ->.
      by destruct (bool_decide (k = k')).
    + apply bool_decide_eq_false in E0.
      destruct (bool_decide (k0 = k')) eqn:E1.
      * apply bool_decide_eq_true in E1 as ->. by rewrite bool_decide_false by done.
      * done.
Qed.

Lemma keys_set m k v :
  JsMap.keys (JsMap.set m k v) =
  if bool_decide (k ∈ JsMap.keys m) then JsMap.keys m else JsMap.keys m ++ [k].
Proof.
  unfold JsMap.keys. induction m as [|[k0 v0] m IH]; csimpl; [done|].
  destruct (bool_decide (k0 = k)) eqn:E0; csimpl.
  - apply bool_decide_eq_true in E0 as ->.
    by rewrite bool_decide_true by left.
  - apply bool_decide_eq_false in E0. rewrite IH.
    destruct (bool_decide (k ∈ m.*1)) eqn:E1.
    + apply bool_decide_eq_true in E1. by rewrite bool_decide_true by by right.
    + apply bool_decide_eq_false in E1.
      rewrite bool_decide_false; [done|].
      intros [?|?]%elem_of_cons; congruence.
Qed.

Lemma elem_of_set_values m k v x :
  x ∈ (JsMap.set m k v).*2 → x = v ∨ x ∈ m.*2.
Proof.
  induction m as [|[k0 v0] m IH]; csimpl.
  - intros ?%list_elem_of_singleton. by left.
  - case_bool_decide; csimpl.
    + intros [?|?]%elem_of_cons; [by left|right; by right].
    + intros [->|?]%elem_of_cons; [right; by left|].
      destruct IH as [?|?]; [done|by left|right; by right].
Qed.

Lemma NoDup_set_values m k v :
  NoDup m.*2 → v ∉ m.*2 → NoDup (JsMap.set m k v).*2.
Proof.
  induction m as [|[k0 v0] m IH]; csimpl.
  - intros _ _. apply NoDup_singleton.
  - intros [Hv0 Hm]%NoDup_cons Hv.
    apply not_elem_of_cons in Hv as [Hne Hv].
    case_bool_decide; csimpl.
    + by apply NoDup_cons.
    + apply NoDup_cons. split; [|by apply IH].
      intros [?|?]%elem_of_set_values; congruence.
Qed.

Lemma NoDup_set_keys m k v :
  NoDup (JsMap.keys m) → NoDup (JsMap.keys (JsMap.set m k v)).
Proof.
  intros Hm. rewrite keys_set. case_bool_decide as Hk; [done|].
  apply NoDup_app. split_and!; [done| |apply NoDup_singleton].
  intros x Hx ->%list_elem_of_singleton. done.
Qed.

Lemma get_Some_elem m k v : JsMap.get m k = Some v → (k, v) ∈ m.
Proof.
  induction m as [|[k0 v0] m IH]; csimpl; [done|].
  case_bool_decide as E0.
  - intros [= ->]. subst. by left.
  - intros ?. right. by apply IH.
Qed.

Lemma elem_get m k v : NoDup (JsMap.keys m) → (k, v) ∈ m → JsMap.get m k = Some v.
Proof.
  unfold JsMap.keys. induction m as [|[k0 v0] m IH]; csimpl.
  - by intros _ ?%elem_of_nil.
  - intros [Hk0 Hm]%NoDup_cons [?|Hin]%elem_of_cons.
    + simplify_eq. by rewrite bool_decide_true.
    + rewrite bool_decide_false; [by apply IH|].
      intros ->. apply Hk0. apply list_elem_of_fmap. by exists (k, v).
Qed.

Lemma get_None_keys m k : JsMap.get m k = None ↔ k ∉ JsMap.keys m.
Proof.
  unfold JsMap.keys. induction m as [|[k0 v0] m IH]; csimpl.
  - split; [intros _; apply not_elem_of_nil|done].
  - case_bool_decide as E0.
    + subst. split; [done|]. intros []. by left.
    + rewrite IH, not_elem_of_cons.
      split; [intros ?; split; [congruence|done]|by intros [_ ?]].
Qed.

End JsMapFacts.

(** ** The node extractor: what [parseNodes] leaves in the store and the map *)

Lemma setAll_app m i ns1 ns2 :
  setAll m i (ns1 ++ ns2) = setAll (setAll m i ns1) (i + length ns1) ns2.
Proof.
  revert m i. induction ns1 as [|n ns1 IH]; intros m i; simpl.
  - by rewrite Nat.add_0_r.
  - rewrite IH. f_equal. lia.
Qed.

Lemma foldl_addNode this ty es s m :
  foldl (NodesetParser.addNode this ty) (s, m) es =
  (s ++ omap (λ e, NodesetParser.parseNode this e ty) es,
   setAll m (length s) (omap (λ e, NodesetParser.parseNode this e ty) es)).
Proof.
  revert s m. induction es as [|e es IH]; intros s m; simpl.
  - by rewrite app_nil_r.
  - unfold NodesetParser.addNode at 2.
    destruct (NodesetParser.parseNode this e ty) as [n|]; simpl.
    + rewrite IH, length_app, <- app_assoc. simpl. do 2 f_equal. lia.
    + apply IH.
Qed.

Lemma foldl_nodeTypes this (Q : string → list Dom.Element) tys s m :
  foldl (λ acc ty, foldl (NodesetParser.addNode this ty) acc (Q ty)) (s, m) tys =
  let ns := omap (λ x : string * Dom.Element, NodesetParser.parseNode this x.2 x.1)
                 (ty ← tys; pair ty <$> Q ty) in
  (s ++ ns, setAll m (length s) ns).
Proof.
  revert s m. induction tys as [|ty tys IH]; intros s m; csimpl.
  - by rewrite app_nil_r.
  - rewrite foldl_addNode, IH. csimpl.
    rewrite omap_app, setAll_app, length_app, <- app_assoc.
    assert (omap (λ x : string * Dom.Element, NodesetParser.parseNode this x.2 x.1)
                 (pair ty <$> Q ty)
            = omap (λ e, NodesetParser.parseNode this e ty) (Q ty)) as ->; [|done].
    induction (Q ty) as [|e es IHes]; csimpl; [done|].
    by rewrite IHes.
Qed.

Lemma parseNodes_eq this uaNodeSet :
  NodesetParser.parseNodes this uaNodeSet =
  (parsedNodes this uaNodeSet, setAll [] 0 (parsedNodes this uaNodeSet)).
Proof.
  unfold NodesetParser.parseNodes.
  by rewrite (foldl_nodeTypes this (λ ty, Dom.querySelectorAll ty uaNodeSet)).
Qed.

Lemma parseNode_Some this e ty n :
  NodesetParser.parseNode this e ty = Some n →
  elementId (ty, e) = Some (nodeId n) ∧ children n = [] ∧
  nodeClass n = NodesetParser.getNodeClass ty ∧
  references n = NodesetParser.parseReferences e.
Proof.
  unfold NodesetParser.parseNode, elementId. simpl.
  destruct (Js.nonEmpty (Dom.getAttribute "NodeId" e)) as [id|]; [|done].
  by intros [= <-].
Qed.

Lemma parseNode_None this e ty :
  NodesetParser.parseNode this e ty = None ↔ elementId (ty, e) = None.
Proof.
  unfold NodesetParser.parseNode, elementId. simpl.
  by destruct (Js.nonEmpty (Dom.getAttribute "NodeId" e)).
Qed.

(** The identifiers of the parsed nodes are the non-empty [NodeId]s of the
    elements, in processing order. *)
Lemma parsedNodes_ids this uaNodeSet :
  nodeId <$> parsedNodes this uaNodeSet = omap elementId (nodeElements uaNodeSet).
Proof.
  unfold parsedNodes. induction (nodeElements uaNodeSet) as [|[ty e] es IH]; simpl; [done|].
  destruct (NodesetParser.parseNode this e ty) as [n|] eqn:Hn.
  - apply parseNode_Some in Hn as (-> & _). csimpl. by rewrite IH.
  - apply parseNode_None in Hn as ->. done.
Qed.

Lemma parsedNodes_children this uaNodeSet n :
  n ∈ parsedNodes this uaNodeSet → children n = [].
Proof.
  unfold parsedNodes. intros ([ty e] & _ & Hn)%list_elem_of_omap.
  by apply parseNode_Some in Hn as (_ & ? & _).
Qed.

Lemma elem_of_set {V} (m : list (string * V)) k v k' v' :
  (k', v') ∈ JsMap.set m k v → (k' = k ∧ v' = v) ∨ (k', v') ∈ m.
Proof.
  induction m as [|[k0 v0] m IH]; simpl.
  - intros ?%list_elem_of_singleton. left. by simplify_eq.
  - case_bool_decide as E0.
    + subst k0. intros [?|?]%elem_of_cons; [left; by simplify_eq|right; by right].
    + intros [->|?]%elem_of_cons; [right; left; done|].
      destruct IH as [?|?]; [done|by left|right; by right].
Qed.

Lemma wfNodes_fresh store nodes : wfNodes store nodes → length store ∉ nodes.*2.
Proof.
  intros Hwf ([k l] & Heq & Hin)%list_elem_of_fmap. simpl in Heq. subst l.
  destruct (wf_entry _ _ Hwf k _ Hin) as (n & Hn & _).
  apply lookup_lt_Some in Hn. lia.
Qed.

Lemma setAll_wf s m ns :
  wfNodes s m → wfNodes (s ++ ns) (setAll m (length s) ns).
Proof.
  revert s m. induction ns as [|n ns IH]; intros s m Hwf; simpl.
  - by rewrite app_nil_r.
  - replace (s ++ n :: ns) with ((s ++ [n]) ++ ns) by by rewrite <- app_assoc.
    replace (S (length s)) with (length (s ++ [n])) by (rewrite length_app; simpl; lia).
    apply IH. split.
    + apply NoDup_set_keys, Hwf.
    + apply NoDup_set_values; [apply Hwf|by apply wfNodes_fresh].
    + intros k l [[-> ->]|Hin]%elem_of_set.
      * exists n. split; [|done]. by rewrite lookup_app_r, Nat.sub_diag.
      * destruct (wf_entry _ _ Hwf k l Hin) as (n' & Hn' & <-).
        exists n'. split; [|done]. by apply lookup_app_l_Some.
Qed.

Lemma get_setAll_notin m i ns k :
  k ∉ nodeId <$> ns → JsMap.get (setAll m i ns) k = JsMap.get m k.
Proof.
  revert m i. induction ns as [|n ns IH]; intros m i; csimpl; [done|].
  intros [Hne Hk]%not_elem_of_cons.
  rewrite IH, get_set by done. by rewrite bool_decide_false.
Qed.

(** Of several nodes with one identifier, the one stored last is the one the
    map holds. *)
Lemma get_setAll_last m i ns1 n ns2 :
  nodeId n ∉ nodeId <$> ns2 →
  JsMap.get (setAll m i (ns1 ++ n :: ns2)) (nodeId n) = Some (i + length ns1).
Proof.
  intros Hk. rewrite setAll_app. simpl.
  rewrite get_setAll_notin, get_set by done. by rewrite bool_decide_true.
Qed.

Lemma keys_setAll m i ns k :
  k ∈ JsMap.keys (setAll m i ns) ↔ k ∈ JsMap.keys m ∨ k ∈ nodeId <$> ns.
Proof.
  revert m i. induction ns as [|n ns IH]; intros m i; csimpl.
  - rewrite elem_of_nil. tauto.
  - rewrite IH, keys_set, elem_of_cons.
    case_bool_decide as Hk.
    + split; [tauto|]. intros [?|[->|?]]; tauto.
    + rewrite elem_of_app, list_elem_of_singleton. tauto.
Qed.

Lemma parseNodes_wf this uaNodeSet :
  wfNodes (parsedNodes this uaNodeSet) (setAll [] 0 (parsedNodes this uaNodeSet)).
Proof.
  apply (setAll_wf [] []). split.
  - apply NoDup_nil_2.
  - apply NoDup_nil_2.
  - by intros k l ?%elem_of_nil.
Qed.

(** ** The hierarchy builder *)

Lemma pushAll_nil node : pushAll node [] = node.
Proof. destruct node. unfold pushAll. simpl. by rewrite app_nil_r. Qed.

Lemma pushAll_push node c cs : pushAll (push node c) cs = pushAll node (c :: cs).
Proof. unfold pushAll, push. simpl. by rewrite <- app_assoc. Qed.

Lemma foldl_link nodes l store refs :
  foldl (NodesetParser.link nodes l) store refs =
  alter (λ node, pushAll node (childrenOf nodes refs)) l store.
Proof.
  revert store. induction refs as [|ref refs IH]; intros store; simpl.
  - symmetry. apply list_alter_id, pushAll_nil.
  - rewrite IH. unfold NodesetParser.link, childrenOf. simpl.
    destruct (NodesetParser.isHierarchical ref); [|done].
    destruct (JsMap.get nodes (targetNodeId ref)) as [c|]; [|done].
    rewrite list_alter_alter_eq. apply list_alter_ext; [|done].
    intros node _. simpl. apply pushAll_push.
Qed.

Lemma linkEntry_eq nodes store entry :
  linkEntry nodes store entry =
  alter (λ node, pushAll node (childrenOf nodes (references node))) entry.2 store.
Proof.
  unfold linkEntry. destruct (store !! entry.2) as [node|] eqn:Hn.
  - rewrite foldl_link. apply list_alter_ext; [|done].
    intros x Hx. rewrite Hn in Hx. by injection Hx as <-.
  - symmetry. apply list_eq. intros i. destruct (decide (entry.2 = i)) as [<-|].
    + by rewrite list_lookup_alter_eq, Hn.
    + by rewrite list_lookup_alter_ne.
Qed.

Lemma foldl_linkEntry nodes es store l :
  NoDup es.*2 →
  foldl (linkEntry nodes) store es !! l =
  if bool_decide (l ∈ es.*2)
  then (λ node, pushAll node (childrenOf nodes (references node))) <$> store !! l
  else store !! l.
Proof.
  revert store. induction es as [|[k l0] es IH]; intros store; csimpl.
  - done.
  - intros [Hl0 Hes]%NoDup_cons. rewrite IH, linkEntry_eq by done. simpl.
    destruct (decide (l = l0)) as [->|Hne].
    + rewrite bool_decide_false by done.
      rewrite bool_decide_true by left. apply list_lookup_alter_eq.
    + rewrite list_lookup_alter_ne by done.
      repeat case_bool_decide; try done.
      * exfalso. set_solver.
      * exfalso. set_solver.
Qed.

Lemma buildHierarchy_lookup store nodes l :
  NoDup nodes.*2 →
  NodesetParser.buildHierarchy store nodes !! l =
  if bool_decide (l ∈ nodes.*2)
  then (λ node, pushAll node (childrenOf nodes (references node))) <$> store !! l
  else store !! l.
Proof. apply (foldl_linkEntry nodes nodes). Qed.

(** ** The categorizer *)

Lemma collect_category store c entry b :
  category b (NodesetParser.collect store c entry) =
  match store !! entry.2 with
  | Some node =>
      if decide (bucketOf node = Some b) then push (category b c) entry.2
      else category b c
  | None => category b c
  end.
Proof.
  unfold NodesetParser.collect, bucketOf, eventTest, interfaceTest.
  destruct (store !! entry.2) as [node|]; [|done].
  destruct (nodeClass node); try (destruct b; reflexivity);
    destruct (_ || _); try (destruct b; reflexivity);
    destruct (_ || _); destruct b; reflexivity.
Qed.

Lemma foldl_collect store c nodes b :
  category b (foldl (NodesetParser.collect store) c nodes) =
  pushAll (category b c) (members store nodes b).
Proof.
  revert c. induction nodes as [|entry nodes IH]; intros c; simpl.
  - by rewrite pushAll_nil.
  - rewrite IH, collect_category. unfold members. simpl.
    destruct (store !! entry.2) as [node|]; [|done].
    destruct (decide (bucketOf node = Some b)); [|done].
    apply pushAll_push.
Qed.

Lemma foldl_pushIfNonEmpty acc cats :
  foldl NodesetParser.pushIfNonEmpty acc cats =
  acc ++ filter (λ c, children c ≠ []) cats.
Proof.
  revert acc. induction cats as [|c cats IH]; intros acc; simpl.
  - by rewrite app_nil_r.
  - rewrite IH, filter_cons. unfold NodesetParser.pushIfNonEmpty.
    destruct (decide (children c ≠ [])) as [Hne|He].
    + destruct (children c); [done|]. simpl. by rewrite <- app_assoc.
    + destruct (children c); [done|]. exfalso. by apply He.
Qed.

Lemma organizeIntoCategories_eq store nodes :
  NodesetParser.organizeIntoCategories store nodes =
  filter (λ c, children c ≠ [])
         ((λ b, categoryNode b (members store nodes b)) <$> buckets).
Proof.
  unfold NodesetParser.organizeIntoCategories.
  set (c := foldl (NodesetParser.collect store) NodesetParser.createCategories nodes).
  change (foldl NodesetParser.pushIfNonEmpty [] (flip category c <$> buckets) =
          filter (λ c, children c ≠ [])
                 ((λ b, categoryNode b (members store nodes b)) <$> buckets)).
  assert (flip category c <$> buckets =
          (λ b, categoryNode b (members store nodes b)) <$> buckets) as ->.
  { apply list_fmap_ext. intros _ b _. unfold flip, c.
    rewrite foldl_collect. by destruct b. }
  by rewrite foldl_pushIfNonEmpty.
Qed.

Lemma elem_of_members store nodes b l :
  l ∈ members store nodes b ↔
  ∃ k node, (k, l) ∈ nodes ∧ store !! l = Some node ∧ bucketOf node = Some b.
Proof.
  unfold members. rewrite list_elem_of_omap. split.
  - intros ([k l'] & Hin & H). simpl in H.
    destruct (store !! l') as [node|] eqn:Hn; [|done].
    destruct (decide (bucketOf node = Some b)); [|done].
    injection H as ->. by exists k, node.
  - intros (k & node & Hin & Hn & Hb). exists (k, l). split; [done|]. simpl.
    rewrite Hn. by rewrite decide_True.
Qed.

Lemma elem_of_organizeIntoCategories store nodes c :
  c ∈ NodesetParser.organizeIntoCategories store nodes ↔
  ∃ b, c = categoryNode b (members store nodes b) ∧ members store nodes b ≠ [].
Proof.
  rewrite organizeIntoCategories_eq, list_elem_of_filter, list_elem_of_fmap.
  split.
  - intros [Hne (b & -> & _)]. by exists b.
  - intros (b & -> & Hne). split; [done|]. exists b. split; [done|].
    unfold buckets. destruct b; set_solver.
Qed.

Lemma bucketName_inj b1 b2 : bucketName b1 = bucketName b2 → b1 = b2.
Proof. by destruct b1, b2. Qed.

Lemma bucketOf_class node b :
  bucketOf node = Some b → nodeClass node = bucketClass b.
Proof.
  unfold bucketOf. destruct (nodeClass node); try done; try (by intros [= <-]).
  destruct (eventTest node); [by intros [= <-]|].
  destruct (interfaceTest node); by intros [= <-].
Qed.

Lemma bucketOf_is_Some node :
  is_Some (bucketOf node) ↔ nodeClass node ∈ typeClasses.
Proof.
  unfold bucketOf, typeClasses. rewrite !elem_of_cons, elem_of_nil.
  destruct (nodeClass node);
    try destruct (eventTest node); try destruct (interfaceTest node);
    (split; [intros [b Hb]; try done; tauto | intros H; try (by eexists); intuition congruence]).
Qed.

(** ** What a successful [parseNodeset] returns *)

Section SuccessfulParse.
Context {this : NodesetParser.t} {xmlDoc : Dom.Document} {fileName' : string}
        {referenceNodesets : list Dom.Document}
        {this' : NodesetParser.t} {r : OpcUaNodeset}.
Hypothesis Hparse :
  NodesetParser.parseNodeset this xmlDoc fileName' referenceNodesets = (this', Returned r).

Lemma parseNodeset_Returned :
  ∃ uaNodeSet,
    Dom.docQuerySelector "parsererror" xmlDoc = None ∧
    Dom.docQuerySelector "UANodeSet" xmlDoc = Some uaNodeSet ∧
    this' = NodesetParser.parseAliases
              (foldl NodesetParser.addReferenceNodeset this referenceNodesets) uaNodeSet ∧
    nodes r = setAll [] 0 (parsedNodes this' uaNodeSet) ∧
    store r = NodesetParser.buildHierarchy (parsedNodes this' uaNodeSet) (nodes r) ∧
    rootNodes r = NodesetParser.organizeIntoCategories (store r) (nodes r) ∧
    fileName r = fileName' ∧
    namespaceUri r = NodesetParser.extractNamespaceUri uaNodeSet ∧
    namespaceIndex r = 1%Z.
Proof.
  revert Hparse. unfold NodesetParser.parseNodeset, NodesetParser.processNodeset.
  destruct (Dom.docQuerySelector "parsererror" xmlDoc); [done|].
  destruct (Dom.docQuerySelector "UANodeSet" xmlDoc) as [uaNodeSet|]; [|done].
  rewrite parseNodes_eq. intros [= <- <-]. exists uaNodeSet. by repeat split.
Qed.

Lemma parseNodeset_rootNodes :
  rootNodes r = NodesetParser.organizeIntoCategories (store r) (nodes r).
Proof. by destruct parseNodeset_Returned as (ns & _ & _ & _ & _ & _ & Hroot & _). Qed.

(** The node map of the result is well formed. *)
Lemma parseNodeset_wf : wfNodes (store r) (nodes r).
Proof.
  destruct parseNodeset_Returned as (ns & _ & _ & _ & Hnodes & Hstore & _).
  pose proof (parseNodes_wf this' ns) as Hwf. rewrite <- Hnodes in Hwf.
  split; [apply Hwf..|].
  intros k l Hin. destruct (wf_entry _ _ Hwf k l Hin) as (n & Hn & Hk).
  exists (pushAll n (childrenOf (nodes r) (references n))). split; [|done].
  rewrite Hstore, buildHierarchy_lookup by apply Hwf.
  rewrite bool_decide_true, Hn; [done|].
  apply list_elem_of_fmap. by exists (k, l).
Qed.

(** The object behind a map entry: the parsed node, with the children the
    hierarchy builder gave it. *)
Lemma parseNodeset_entry uaNodeSet k l :
  Dom.docQuerySelector "UANodeSet" xmlDoc = Some uaNodeSet →
  (k, l) ∈ nodes r →
  ∃ n0, parsedNodes this' uaNodeSet !! l = Some n0 ∧ nodeId n0 = k ∧ children n0 = [] ∧
        store r !! l = Some (pushAll n0 (childrenOf (nodes r) (references n0))).
Proof.
  destruct parseNodeset_Returned as (ns & _ & Hns & _ & Hnodes & Hstore & _).
  intros Hns' Hin. rewrite Hns in Hns'. injection Hns' as ->.
  pose proof (parseNodes_wf this' uaNodeSet) as Hwf. rewrite <- Hnodes in Hwf.
  destruct (wf_entry _ _ Hwf k l Hin) as (n0 & Hn0 & Hk).
  exists n0. split_and!; [done..| |].
  - eapply parsedNodes_children, list_elem_of_lookup_2, Hn0.
  - rewrite Hstore, buildHierarchy_lookup by apply Hwf.
    rewrite bool_decide_true, Hn0; [done|].
    apply list_elem_of_fmap. by exists (k, l).
Qed.

(** Where an object of the node map sits in the root list. *)
Lemma in_root_category k l node b :
  (k, l) ∈ nodes r → store r !! l = Some node →
  (∃ c, c ∈ rootNodes r ∧ browseName c = bucketName b ∧ l ∈ children c) ↔
  bucketOf node = Some b.
Proof.
  intros Hin Hn. rewrite parseNodeset_rootNodes. split.
  - intros (c & (b' & -> & _)%elem_of_organizeIntoCategories & Hname & Hl).
    simpl in Hname. apply bucketName_inj in Hname as ->.
    simpl in Hl. apply elem_of_members in Hl as (k' & node' & _ & Hn' & Hb).
    rewrite Hn in Hn'. by injection Hn' as <-.
  - intros Hb.
    assert (l ∈ members (store r) (nodes r) b) as Hl.
    { apply elem_of_members. by exists k, node. }
    exists (categoryNode b (members (store r) (nodes r) b)). split_and!; [|done..].
    apply elem_of_organizeIntoCategories. exists b. split; [done|].
    intros E. rewrite E in Hl. by apply elem_of_nil in Hl.
Qed.

Lemma root_category_is_bucket c :
  c ∈ rootNodes r →
  ∃ b, c = categoryNode b (members (store r) (nodes r) b) ∧
       members (store r) (nodes r) b ≠ [].
Proof. rewrite parseNodeset_rootNodes. apply elem_of_organizeIntoCategories. Qed.

End SuccessfulParse.

(** ** Children *)

Lemma isHierarchical_true ref :
  NodesetParser.isHierarchical ref = true ↔
  referenceType ref ∈ ["HasComponent"; "Organizes"; "HasProperty"] ∧ isForward ref = true.
Proof.
  unfold NodesetParser.isHierarchical.
  rewrite andb_true_iff, !orb_true_iff, !bool_decide_eq_true.
  rewrite !elem_of_cons, elem_of_nil. tauto.
Qed.

Lemma elem_of_childrenOf nodes refs l :
  l ∈ childrenOf nodes refs ↔
  ∃ ref, ref ∈ refs ∧ NodesetParser.isHierarchical ref = true ∧
         JsMap.get nodes (targetNodeId ref) = Some l.
Proof.
  unfold childrenOf. rewrite list_elem_of_omap. split.
  - intros (ref & Hin & Hl). exists ref.
    destruct (NodesetParser.isHierarchical ref); [done|done].
  - intros (ref & Hin & Hh & Hl). exists ref. by rewrite Hh.
Qed.

(** C5. After a successful parse, the children of every node [A] of the node
    map are, in the order of [A]'s reference list, the map's own objects for
    the targets of [A]'s forward [HasComponent], [Organizes] and
    [HasProperty] references that are keys of the map; hence a node [B] of
    the map is among [A]'s children exactly when [A] has such a reference to
    [B]'s key, and no backward reference and no other reference type makes a
    child. *)
Theorem C5_children_from_forward_references
    this xmlDoc fileName' referenceNodesets this' r :
  NodesetParser.parseNodeset this xmlDoc fileName' referenceNodesets = (this', Returned r) →
  ∀ a la, (a, la) ∈ nodes r →
    ∃ A, store r !! la = Some A ∧ nodeId A = a ∧
         children A = childrenOf (nodes r) (references A) ∧
         ∀ b lb, (b, lb) ∈ nodes r →
           (lb ∈ children A ↔
            ∃ ref, ref ∈ references A ∧
                   referenceType ref ∈ ["HasComponent"; "Organizes"; "HasProperty"] ∧
                   isForward ref = true ∧
                   targetNodeId ref = b).
Proof.
  intros Hparse a la Ha.
  destruct (parseNodeset_Returned Hparse) as (ns & _ & Hns & _ & Hnodes & _).
  destruct (parseNodeset_entry Hparse _ _ _ Hns Ha)
    as (n0 & _ & Hid & Hch & HA).
  pose proof (parseNodeset_wf Hparse) as Hwf.
  eexists. split; [exact HA|]. simpl. rewrite Hch. simpl.
  split; [done|]. split; [done|].
  intros b lb Hb. rewrite elem_of_childrenOf. split.
  - intros (ref & Hin & Hh & Hget). exists ref.
    apply isHierarchical_true in Hh as [Hty Hfw]. split_and!; [done..|].
    apply get_Some_elem in Hget.
    (* one object, one key *)
    destruct (list_elem_of_lookup_1 _ _ Hget) as [i Hi].
    destruct (list_elem_of_lookup_1 _ _ Hb) as [j Hj].
    assert (i = j) as ->.
    { eapply NoDup_lookup; [apply (wf_locs _ _ Hwf)|..].
      - by rewrite list_lookup_fmap, Hi.
      - by rewrite list_lookup_fmap, Hj. }
    rewrite Hi in Hj. by injection Hj.
  - intros (ref & Hin & Hty & Hfw & <-). exists ref. split_and!; [done| |].
    + by apply isHierarchical_true.
    + apply elem_get; [apply Hwf|done].
Qed.

(** ** The node map *)

Lemma parseNodeset_returns this xmlDoc fileName' referenceNodesets uaNodeSet :
  Dom.docQuerySelector "parsererror" xmlDoc = None →
  Dom.docQuerySelector "UANodeSet" xmlDoc = Some uaNodeSet →
  ∃ this' r,
    NodesetParser.parseNodeset this xmlDoc fileName' referenceNodesets = (this', Returned r).
Proof.
  intros He Hns. unfold NodesetParser.parseNodeset, NodesetParser.processNodeset.
  rewrite He, Hns. destruct (NodesetParser.parseNodes _ _). eauto.
Qed.

Lemma one_entry_per_key {V} (m : list (string * V)) k :
  NoDup (JsMap.keys m) → k ∈ JsMap.keys m →
  length (filter (λ en, en.1 = k) m) = 1.
Proof.
  unfold JsMap.keys. induction m as [|[k0 v0] m IH]; csimpl.
  - by intros _ ?%elem_of_nil.
  - intros [Hk0 Hm]%NoDup_cons Hk. rewrite filter_cons. simpl.
    destruct (decide (k0 = k)) as [->|Hne]; simpl.
    + f_equal. apply length_zero_iff_nil.
      clear -Hk0. induction m as [|[k1 v1] m IH]; [done|].
      rewrite filter_cons. simpl. apply not_elem_of_cons in Hk0 as [? ?].
      rewrite decide_False by done. by apply IH.
    + apply IH; [done|]. by apply elem_of_cons in Hk as [?|?].
Qed.

Lemma elementId_Some x id :
  elementId x = Some id ↔ Dom.getAttribute "NodeId" x.2 = Some id ∧ id ≠ "".
Proof. apply nonEmpty_Some. Qed.

Lemma keys_nodes this uaNodeSet id :
  id ∈ JsMap.keys (setAll [] 0 (parsedNodes this uaNodeSet)) ↔
  ∃ x, x ∈ nodeElements uaNodeSet ∧ Dom.getAttribute "NodeId" x.2 = Some id ∧ id ≠ "".
Proof.
  rewrite keys_setAll, parsedNodes_ids, list_elem_of_omap. csimpl.
  rewrite elem_of_nil. split.
  - intros [[]|(x & Hx & Hid)]. exists x. by apply elementId_Some in Hid.
  - intros (x & Hx & Hid). right. exists x. split; [done|]. by apply elementId_Some.
Qed.

Lemma setAll_size_NoDup m i ns :
  NoDup (JsMap.keys m ++ (nodeId <$> ns)) →
  JsMap.size (setAll m i ns) = JsMap.size m + length ns.
Proof.
  unfold JsMap.size.
  revert m i. induction ns as [|n ns IH]; intros m i; csimpl; [lia|].
  intros Hnd. rewrite IH.
  - assert (length (JsMap.set m (nodeId n) i) = S (length m)) as ->; [|lia].
    rewrite <- (length_fmap fst (JsMap.set _ _ _)).
    change (fst <$> JsMap.set m (nodeId n) i) with (JsMap.keys (JsMap.set m (nodeId n) i)).
    rewrite keys_set, bool_decide_false.
    + unfold JsMap.keys. rewrite length_app, length_fmap. simpl. lia.
    + apply NoDup_app in Hnd as (_ & Hnd & _). intros Hin.
      apply (Hnd _ Hin). left.
  - rewrite keys_set, bool_decide_false.
    + by rewrite <- app_assoc.
    + apply NoDup_app in Hnd as (_ & Hnd & _). intros Hin.
      apply (Hnd _ Hin). left.
Qed.

(** C6 (as amended). Whenever the main document has no [parsererror] and has
    a [UANodeSet] element, [parseNodeset] returns, and in its node map:
    every recognized element with a non-empty [NodeId] has exactly one entry
    under that raw identifier; every key is the non-empty [NodeId] of a
    recognized element, so elements with no [NodeId], or an empty one, leave
    nothing behind; and when the non-empty [NodeId]s are pairwise distinct
    the map has as many entries as there are elements that bear one. *)
Theorem C6_node_map_entries this xmlDoc fileName' referenceNodesets uaNodeSet :
  Dom.docQuerySelector "parsererror" xmlDoc = None →
  Dom.docQuerySelector "UANodeSet" xmlDoc = Some uaNodeSet →
  ∃ this' r,
    NodesetParser.parseNodeset this xmlDoc fileName' referenceNodesets = (this', Returned r) ∧
    (∀ x id, x ∈ nodeElements uaNodeSet →
             Dom.getAttribute "NodeId" x.2 = Some id → id ≠ "" →
             length (filter (λ en, en.1 = id) (nodes r)) = 1) ∧
    (∀ id, id ∈ JsMap.keys (nodes r) →
           ∃ x, x ∈ nodeElements uaNodeSet ∧
                Dom.getAttribute "NodeId" x.2 = Some id ∧ id ≠ "") ∧
    (NoDup (omap elementId (nodeElements uaNodeSet)) →
     JsMap.size (nodes r) = length (omap elementId (nodeElements uaNodeSet))).
Proof.
  intros He Hns.
  destruct (parseNodeset_returns this xmlDoc fileName' referenceNodesets _ He Hns)
    as (this' & r & Hparse).
  exists this', r. split; [done|].
  destruct (parseNodeset_Returned Hparse) as (ns & _ & Hns' & _ & Hnodes & _).
  rewrite Hns in Hns'. injection Hns' as <-.
  pose proof (parseNodeset_wf Hparse) as Hwf.
  split_and!.
  - intros x id Hx Hid Hne. apply one_entry_per_key; [apply Hwf|].
    rewrite Hnodes. apply keys_nodes. eauto.
  - intros id. rewrite Hnodes. apply keys_nodes.
  - intros Hnd. rewrite Hnodes, setAll_size_NoDup.
    + simpl. by rewrite <- (parsedNodes_ids this'), length_fmap.
    + simpl. by rewrite parsedNodes_ids.
Qed.

(** C10 (as amended). Let the main document have no [parsererror] and a
    [UANodeSet] element, and let an element with the non-empty [NodeId] [id]
    be the last one with that [NodeId] in the processing order (tag by tag,
    document order under a tag).  Then [parseNodeset] returns, the node map
    has exactly one entry for [id], and its object is the node parsed from
    that last element, with the children the hierarchy builder gave it:
    nodes parsed from earlier elements with the same [NodeId] are
    replaced. *)
Theorem C10_last_duplicate_wins
    this xmlDoc fileName' referenceNodesets uaNodeSet earlier ty e later id :
  Dom.docQuerySelector "parsererror" xmlDoc = None →
  Dom.docQuerySelector "UANodeSet" xmlDoc = Some uaNodeSet →
  nodeElements uaNodeSet = earlier ++ (ty, e) :: later →
  Dom.getAttribute "NodeId" e = Some id →
  id ≠ "" →
  (∀ x, x ∈ later → Dom.getAttribute "NodeId" x.2 ≠ Some id) →
  ∃ this' r l n0,
    NodesetParser.parseNodeset this xmlDoc fileName' referenceNodesets = (this', Returned r) ∧
    NodesetParser.parseNode this' e ty = Some n0 ∧
    JsMap.get (nodes r) id = Some l ∧
    store r !! l = Some (pushAll n0 (childrenOf (nodes r) (references n0))) ∧
    length (filter (λ en, en.1 = id) (nodes r)) = 1.
Proof.
  intros He Hns Hsplit Hid Hne Hlater.
  destruct (parseNodeset_returns this xmlDoc fileName' referenceNodesets _ He Hns)
    as (this' & r & Hparse).
  destruct (parseNodeset_Returned Hparse) as (ns & _ & Hns' & _ & Hnodes & Hstore & _).
  rewrite Hns in Hns'. injection Hns' as <-.
  pose proof (parseNodeset_wf Hparse) as Hwf.
  assert (elementId (ty, e) = Some id) as Hel by by apply elementId_Some.
  destruct (NodesetParser.parseNode this' e ty) as [n0|] eqn:Hn0;
    [|apply (parseNode_None this') in Hn0; congruence].
  pose proof (parseNode_Some _ _ _ _ Hn0) as (Hid0 & _).
  rewrite Hel in Hid0. injection Hid0 as Hid0.
  set (f := λ x : string * Dom.Element, NodesetParser.parseNode this' x.2 x.1).
  assert (parsedNodes this' uaNodeSet = omap f earlier ++ n0 :: omap f later) as Hparsed.
  { unfold parsedNodes. rewrite Hsplit, omap_app. csimpl. fold f.
    unfold f at 2. simpl. by rewrite Hn0. }
  assert (nodeId n0 ∉ nodeId <$> omap f later) as Hlast.
  { intros (n & Hn & ([ty' e'] & Hx & Hf)%list_elem_of_omap)%list_elem_of_fmap.
    apply parseNode_Some in Hf as (Hf & _). apply elementId_Some in Hf as [Hf _].
    apply (Hlater _ Hx). simpl in *. congruence. }
  exists this', r, (length (omap f earlier)), n0. split_and!; [done..| | |].
  - rewrite Hnodes, Hparsed, Hid0. by apply get_setAll_last.
  - rewrite Hstore, buildHierarchy_lookup by apply Hwf.
    rewrite bool_decide_true.
    + by rewrite Hparsed, list_lookup_middle.
    + apply list_elem_of_fmap. exists (id, length (omap f earlier)). split; [done|].
      apply get_Some_elem. rewrite Hnodes, Hparsed, Hid0. by apply get_setAll_last.
  - apply one_entry_per_key; [apply Hwf|].
    rewrite Hnodes. apply keys_nodes. exists (ty, e). split; [|done].
    rewrite Hsplit. apply elem_of_app. right. left.
Qed.

(** ** Category membership *)

Lemma eventTest_true node :
  eventTest node = true ↔
  Js.includes (Js.toLowerCase (browseName node)) "event" = true ∨
  ∃ ref, ref ∈ references node ∧ referenceType ref = "HasSubtype" ∧
         Js.includes (targetNodeId ref) "EventType" = true.
Proof.
  unfold eventTest, NodesetParser.hasEventTypeReference.
  rewrite orb_true_iff, existsb_exists.
  apply or_iff_compat_l. split.
  - intros (ref & Hin%list_elem_of_In & [Hty%bool_decide_eq_true Ht]%andb_true_iff). eauto.
  - intros (ref & Hin & Hty & Ht). exists ref. split; [by apply list_elem_of_In|].
    by rewrite andb_true_iff, bool_decide_eq_true.
Qed.

Lemma interfaceTest_true node :
  interfaceTest node = true ↔
  Js.includes (Js.toLowerCase (browseName node)) "interface" = true ∨
  ∃ ref, ref ∈ references node ∧
         (referenceType ref = "HasInterface" ∨
          referenceType ref = "HasSubtype" ∧
          Js.includes (targetNodeId ref) "Interface" = true).
Proof.
  unfold interfaceTest, NodesetParser.hasInterfaceReference.
  rewrite orb_true_iff, existsb_exists.
  apply or_iff_compat_l. split.
  - intros (ref & Hin%list_elem_of_In & H). exists ref. split; [done|].
    by rewrite orb_true_iff, andb_true_iff, !bool_decide_eq_true in H.
  - intros (ref & Hin & H). exists ref. split; [by apply list_elem_of_In|].
    by rewrite orb_true_iff, andb_true_iff, !bool_decide_eq_true.
Qed.

(** C8. After a successful parse the root list is made of the six synthetic
    categories DataTypes, EventTypes, InterfaceTypes, ObjectTypes,
    ReferenceTypes, VariableTypes, in this order, each holding its members,
    with the categories that got no member left out.  Its members are objects
    of the node map whose node class is DataType, ReferenceType, VariableType
    or ObjectType, and an object of the node map is under some category
    exactly when it has one of these four classes. *)
Theorem C8_root_categories this xmlDoc fileName' referenceNodesets this' r :
  NodesetParser.parseNodeset this xmlDoc fileName' referenceNodesets = (this', Returned r) →
  rootNodes r =
    filter (λ c, children c ≠ [])
           ((λ b, categoryNode b (members (store r) (nodes r) b)) <$> buckets) ∧
  browseName <$> rootNodes r `sublist_of`
    ["DataTypes"; "EventTypes"; "InterfaceTypes"; "ObjectTypes";
     "ReferenceTypes"; "VariableTypes"] ∧
  (∀ b, bucketName b ∈ browseName <$> rootNodes r ↔
        ∃ l, l ∈ members (store r) (nodes r) b) ∧
  (∀ c l, c ∈ rootNodes r → l ∈ children c →
          ∃ k node, (k, l) ∈ nodes r ∧ store r !! l = Some node ∧
                    nodeClass node ∈ typeClasses) ∧
  (∀ k l node, (k, l) ∈ nodes r → store r !! l = Some node →
     ((∃ c, c ∈ rootNodes r ∧ l ∈ children c) ↔ nodeClass node ∈ typeClasses)).
Proof.
  intros Hparse.
  pose proof Hparse as (ns & _ & _ & _ & _ & _ & Hroot & _)%parseNodeset_Returned.
  split_and!.
  - by rewrite Hroot, organizeIntoCategories_eq.
  - rewrite Hroot, organizeIntoCategories_eq.
    change ["DataTypes"; "EventTypes"; "InterfaceTypes"; "ObjectTypes";
            "ReferenceTypes"; "VariableTypes"]
      with (browseName <$> ((λ b, categoryNode b (members (store r) (nodes r) b)) <$> buckets)).
    apply fmap_sublist, sublist_filter.
  - intros b. rewrite list_elem_of_fmap. split.
    + intros (c & Hname & Hc).
      destruct (root_category_is_bucket Hparse _ Hc) as (b' & -> & Hne).
      simpl in Hname. apply bucketName_inj in Hname as ->.
      destruct (members (store r) (nodes r) b') as [|l ms]; [done|].
      exists l. left.
    + intros (l & Hl). exists (categoryNode b (members (store r) (nodes r) b)).
      split; [done|]. rewrite Hroot. apply elem_of_organizeIntoCategories.
      exists b. split; [done|]. intros E. rewrite E in Hl. by apply elem_of_nil in Hl.
  - intros c l Hc Hl.
    destruct (root_category_is_bucket Hparse _ Hc) as (b & -> & _).
    simpl in Hl. apply elem_of_members in Hl as (k & node & Hin & Hn & Hb).
    exists k, node. split_and!; [done..|]. apply bucketOf_is_Some. eauto.
  - intros k l node Hin Hn. rewrite <- bucketOf_is_Some. split.
    + intros (c & Hc & Hl).
      destruct (root_category_is_bucket Hparse _ Hc) as (b & -> & _).
      exists b. apply (in_root_category Hparse _ _ _ _ Hin Hn).
      eexists. split_and!; [exact Hc|done|done].
    + intros [b Hb].
      apply (in_root_category Hparse _ _ _ _ Hin Hn) in Hb
        as (c & Hc & _ & Hl).
      eauto.
Qed.

Lemma bucketOf_ObjectType node :
  nodeClass node = NodeClass.ObjectType →
  bucketOf node =
  Some (if eventTest node then EventTypes
        else if interfaceTest node then InterfaceTypes else ObjectTypes).
Proof.
  unfold bucketOf. intros ->.
  by destruct (eventTest node), (interfaceTest node).
Qed.

(** C2 (as amended). After a successful parse, an [ObjectType] node of the
    node map is under EventTypes exactly when its lower-cased browse name
    contains "event" or it has a [HasSubtype] reference, forward or backward,
    whose target nodeId contains "EventType"; failing that it is under
    InterfaceTypes exactly when the interface rule holds, and under
    ObjectTypes otherwise; and it is a member of one root category only. *)
Theorem C2_event_bucket this xmlDoc fileName' referenceNodesets this' r k l node :
  NodesetParser.parseNodeset this xmlDoc fileName' referenceNodesets = (this', Returned r) →
  (k, l) ∈ nodes r → store r !! l = Some node →
  nodeClass node = NodeClass.ObjectType →
  (under r "EventTypes" l ↔ eventRule node) ∧
  (under r "InterfaceTypes" l ↔ ¬ eventRule node ∧ interfaceRule node) ∧
  (under r "ObjectTypes" l ↔ ¬ eventRule node ∧ ¬ interfaceRule node) ∧
  (∃ c, c ∈ rootNodes r ∧ l ∈ children c ∧
        ∀ c', c' ∈ rootNodes r → l ∈ children c' → c' = c).
Proof.
  intros Hparse Hin Hn Hclass.
  pose proof (λ b, in_root_category Hparse _ _ _ b Hin Hn) as Hunder.
  pose proof (bucketOf_ObjectType node Hclass) as Hb.
  unfold under, eventRule, interfaceRule.
  rewrite <- eventTest_true, <- interfaceTest_true.
  rewrite (Hunder EventTypes), (Hunder InterfaceTypes), (Hunder ObjectTypes), Hb.
  split_and!.
  - destruct (eventTest node), (interfaceTest node); split; congruence.
  - destruct (eventTest node), (interfaceTest node); split;
      try congruence; intuition congruence.
  - destruct (eventTest node), (interfaceTest node); split;
      try congruence; intuition congruence.
  - destruct (proj2 (Hunder _) Hb) as (c & Hc & _ & Hl).
    exists c. split_and!; [done..|].
    intros c' Hc' Hl'.
    destruct (root_category_is_bucket Hparse _ Hc) as (b1 & -> & _).
    destruct (root_category_is_bucket Hparse _ Hc') as (b2 & -> & _).
    simpl in Hl, Hl'.
    apply elem_of_members in Hl as (k1 & n1 & _ & Hn1 & Hb1).
    apply elem_of_members in Hl' as (k2 & n2 & _ & Hn2 & Hb2).
    rewrite Hn in Hn1, Hn2. injection Hn1 as <-. injection Hn2 as <-.
    rewrite Hb1 in Hb2. by injection Hb2 as ->.
Qed.

(** ** Failures of [parseNodeset] *)

Lemma docQuerySelector_None tag d :
  Dom.docQuerySelector tag d = None ↔ ¬ hasElement tag d.
Proof.
  unfold Dom.docQuerySelector, hasElement. rewrite head_None. split.
  - intros Hnil (e & Hin & Htag).
    assert (e ∈ filter (λ x, Dom.tagName x = tag) (Dom.inclusive (Dom.documentElement d))) as H
      by by apply list_elem_of_filter.
    rewrite Hnil in H. by apply elem_of_nil in H.
  - intros Hno. destruct (filter _ _) as [|e es] eqn:E; [done|].
    exfalso. apply Hno. exists e.
    assert (e ∈ filter (λ x, Dom.tagName x = tag) (Dom.inclusive (Dom.documentElement d))) as H
      by (rewrite E; left).
    apply list_elem_of_filter in H as [? ?]. done.
Qed.

Lemma docQuerySelector_Some tag d e :
  Dom.docQuerySelector tag d = Some e → hasElement tag d.
Proof.
  unfold Dom.docQuerySelector, hasElement. intros H. exists e.
  assert (e ∈ filter (λ x, Dom.tagName x = tag) (Dom.inclusive (Dom.documentElement d))) as Hin.
  { destruct (filter _ _) as [|e' es]; [done|]. injection H as ->. left. }
  by apply list_elem_of_filter in Hin as [? ?].
Qed.

Lemma failed_is_not_invalid text :
  "Failed to parse XML: " +:+ text ≠ "Invalid nodeset format: UANodeSet element not found".
Proof. discriminate. Qed.

(** C7 (as amended). [parseNodeset] throws "Invalid nodeset format:
    UANodeSet element not found" exactly when the main document has no
    [parsererror] element and no [UANodeSet] element at any depth; it throws
    the other error, "Failed to parse XML: ..." with the text of the
    [parsererror] element, exactly when the document has one; it returns a
    result exactly in the remaining case, so neither failure comes with a
    result. *)
Theorem C7_failures this xmlDoc fileName' referenceNodesets :
  let outcome := (NodesetParser.parseNodeset this xmlDoc fileName' referenceNodesets).2 in
  (outcome = Thrown "Invalid nodeset format: UANodeSet element not found" ↔
   ¬ hasElement "parsererror" xmlDoc ∧ ¬ hasElement "UANodeSet" xmlDoc) ∧
  ((∃ parserError,
      Dom.docQuerySelector "parsererror" xmlDoc = Some parserError ∧
      outcome = Thrown ("Failed to parse XML: " +:+ Dom.textContent parserError)) ↔
   hasElement "parsererror" xmlDoc) ∧
  ((∃ r, outcome = Returned r) ↔
   ¬ hasElement "parsererror" xmlDoc ∧ hasElement "UANodeSet" xmlDoc) ∧
  (∀ text, "Failed to parse XML: " +:+ text ≠
           "Invalid nodeset format: UANodeSet element not found").
Proof.
  simpl. unfold NodesetParser.parseNodeset, NodesetParser.processNodeset.
  destruct (Dom.docQuerySelector "parsererror" xmlDoc) as [pe|] eqn:Hpe;
    [|destruct (Dom.docQuerySelector "UANodeSet" xmlDoc) as [ns|] eqn:Hns].
  - apply docQuerySelector_Some in Hpe as Hhas. simpl. split_and!.
    + split; [intros [= H]; by apply failed_is_not_invalid in H|tauto].
    + split; [done|]. intros _. by exists pe.
    + split; [by intros [r ?]|tauto].
    + apply failed_is_not_invalid.
  - apply docQuerySelector_None in Hpe. apply docQuerySelector_Some in Hns.
    destruct (NodesetParser.parseNodes _ _) as [st nd]. simpl. split_and!.
    + split; [done|tauto].
    + split; [by intros (? & ? & ?)|done].
    + split; [done|]. intros _. eauto.
    + apply failed_is_not_invalid.
  - apply docQuerySelector_None in Hpe. apply docQuerySelector_None in Hns.
    simpl. split_and!.
    + done.
    + split; [by intros (? & ? & ?)|done].
    + split; [by intros [r ?]|tauto].
    + apply failed_is_not_invalid.
Qed.

(** ** The namespace query *)

Lemma extractNamespaces_eq xmlDoc :
  FileImportService.extractNamespaces xmlDoc = omap namespaceOf (imap pair (uriElements xmlDoc)).
Proof.
  unfold FileImportService.extractNamespaces, uriElements.
  generalize (imap pair (Dom.docQuerySelectorAllChain ["UANodeSet"; "NamespaceUris"; "Uri"] xmlDoc)).
  intros l. induction l as [|[i e] l IH]; [done|]. csimpl. by rewrite IH.
Qed.

Lemma namespaceOf_Some x ns :
  namespaceOf x = Some ns ↔
  index ns = x.1 ∧ uri ns = Js.trim (Dom.textContent x.2) ∧ uri ns ≠ "".
Proof.
  unfold namespaceOf, Js.truthy. destruct ns as [i u]. simpl.
  case_bool_decide as E; split.
  - by intros [= <- <-].
  - by intros (-> & -> & _).
  - done.
  - intros (_ & -> & ?). done.
Qed.

Lemma namespaces_from k (l : list Dom.Element) :
  Forall (λ ns, k ≤ index ns) (omap namespaceOf (imap (λ i e, (k + i, e)) l)) ∧
  StronglySorted lt (index <$> omap namespaceOf (imap (λ i e, (k + i, e)) l)).
Proof.
  revert k. induction l as [|e l IH]; intros k.
  - split; [constructor|constructor].
  - rewrite imap_cons. csimpl.
    assert (imap ((λ i e0, (k + i, e0)) ∘ S) l = imap (λ i e0, (S k + i, e0)) l) as ->.
    { apply imap_ext. intros i x _. simpl. f_equal. lia. }
    destruct (IH (S k)) as [Hge Hsorted].
    assert (Forall (λ ns, k ≤ index ns)
                   (omap namespaceOf (imap (λ i e0, (S k + i, e0)) l))) as Hge'.
    { eapply Forall_impl; [exact Hge|]. simpl. intros. lia. }
    destruct (namespaceOf (k + 0, e)) as [ns|] eqn:Hns; [|done].
    apply namespaceOf_Some in Hns as (Hi & _). simpl in Hi.
    split.
    + constructor; [lia|done].
    + csimpl. constructor; [done|].
      apply Forall_fmap. eapply Forall_impl; [exact Hge|]. simpl. intros. lia.
Qed.

Lemma namespaces_all k (l : list Dom.Element) :
  (∀ e, e ∈ l → Js.trim (Dom.textContent e) ≠ "") →
  omap namespaceOf (imap (λ i e, (k + i, e)) l) =
  imap (λ i e, {| index := k + i; uri := Js.trim (Dom.textContent e) |}) l.
Proof.
  revert k. induction l as [|e l IH]; intros k Hall; [done|].
  rewrite !imap_cons. csimpl.
  assert (imap ((λ i e0, (k + i, e0)) ∘ S) l = imap (λ i e0, (S k + i, e0)) l) as ->.
  { apply imap_ext. intros i x _. simpl. f_equal. lia. }
  rewrite IH by (intros; apply Hall; by right).
  unfold namespaceOf at 1, Js.truthy. simpl.
  rewrite bool_decide_true by (apply Hall; left).
  f_equal. apply imap_ext. intros i x _. simpl. f_equal. lia.
Qed.

(** C9 (as amended). [extractNamespaces] reads the [Uri] elements whose
    parent is a [NamespaceUris] element whose parent is a [UANodeSet]
    element, and nothing else.  It returns one entry for each of them whose
    trimmed text is not empty, with that text as [uri] and with the
    element's position among all these [Uri] elements as [index]; the indices
    of the result increase strictly, and they are 0, 1, 2, ... and match the
    positions in the result when no [Uri] element is empty. *)
Theorem C9_extractNamespaces xmlDoc :
  (∀ e, e ∈ uriElements xmlDoc ↔
        ∃ anc, ("NamespaceUris" :: "UANodeSet" :: anc, e)
                 ∈ Dom.withAncestors [] (Dom.documentElement xmlDoc) ∧
               Dom.tagName e = "Uri") ∧
  (∀ ns, ns ∈ FileImportService.extractNamespaces xmlDoc ↔
         ∃ e, uriElements xmlDoc !! index ns = Some e ∧
              uri ns = Js.trim (Dom.textContent e) ∧ uri ns ≠ "") ∧
  StronglySorted lt (index <$> FileImportService.extractNamespaces xmlDoc) ∧
  ((∀ e, e ∈ uriElements xmlDoc → Js.trim (Dom.textContent e) ≠ "") →
   length (FileImportService.extractNamespaces xmlDoc) = length (uriElements xmlDoc) ∧
   ∀ i ns, FileImportService.extractNamespaces xmlDoc !! i = Some ns → index ns = i).
Proof.
  split_and!.
  - intros e. unfold uriElements, Dom.docQuerySelectorAllChain.
    rewrite list_elem_of_fmap. split.
    + intros ([anc e'] & -> & [Hp Hin]%list_elem_of_filter). simpl in *.
      destruct (Dom.tagName e') as [|c t] eqn:Ht; [done|].
      destruct anc as [|p [|g anc]]; simpl in Hp;
        repeat (apply andb_true_iff in Hp as [?%bool_decide_eq_true Hp]); try done.
      subst. by exists anc.
    + intros (anc & Hin & Htag). exists ("NamespaceUris" :: "UANodeSet" :: anc, e).
      split; [done|]. apply list_elem_of_filter. split; [|done].
      simpl. by rewrite Htag.
  - intros ns. rewrite extractNamespaces_eq, list_elem_of_omap. split.
    + intros ([i e] & Hin & (Hi & Hu & Hne)%namespaceOf_Some). simpl in *.
      apply elem_of_lookup_imap in Hin as (j & y & [= -> ->] & Hy).
      exists y. by rewrite Hi.
    + intros (e & He & Hu & Hne). exists (index ns, e). split.
      * by apply (elem_of_lookup_imap_2 pair).
      * by apply namespaceOf_Some.
  - rewrite extractNamespaces_eq. apply (namespaces_from 0).
  - intros Hall. rewrite extractNamespaces_eq.
    change (imap pair (uriElements xmlDoc))
      with (imap (λ i e, (0 + i, e)) (uriElements xmlDoc)).
    rewrite namespaces_all by done. split; [apply length_imap|].
    intros i ns. rewrite list_lookup_imap.
    destruct (uriElements xmlDoc !! i); [|done]. by intros [= <-].
Qed.

(** ** The name table *)

Lemma addName_eq m x :
  addName m x = match nameOf x with Some (id, bn) => <[id := bn]> m | None => m end.
Proof.
  unfold addName, NodesetParser.addNodeName, nameOf.
  by destruct (Js.nonEmpty (Dom.getAttribute "NodeId" x.2)),
              (Js.nonEmpty (Dom.getAttribute "BrowseName" x.2)).
Qed.

Lemma nameOf_Some x id bn :
  nameOf x = Some (id, bn) ↔
  (Dom.getAttribute "NodeId" x.2 = Some id ∧ id ≠ "") ∧
  (Dom.getAttribute "BrowseName" x.2 = Some bn ∧ bn ≠ "").
Proof.
  unfold nameOf. rewrite <- !nonEmpty_Some.
  destruct (Js.nonEmpty (Dom.getAttribute "NodeId" x.2)),
           (Js.nonEmpty (Dom.getAttribute "BrowseName" x.2));
    split; try done; try (by intros [? ?]).
  - by intros [= -> ->].
  - by intros [[= ->] [= ->]].
Qed.

Lemma foldl_nodeNames (Q : string → list Dom.Element) tys m :
  foldl (λ m ty, foldl NodesetParser.addNodeName m (Q ty)) m tys =
  foldl addName m (ty ← tys; pair ty <$> Q ty).
Proof.
  revert m. induction tys as [|ty tys IH]; intros m; csimpl; [done|].
  rewrite foldl_app, foldl_fmap. apply IH.
Qed.

Lemma parseNodeNames_nodeNameMap this uaNodeSet :
  NodesetParser.nodeNameMap (NodesetParser.parseNodeNames this uaNodeSet) =
  foldl addName (NodesetParser.nodeNameMap this) (nodeElements uaNodeSet).
Proof.
  unfold NodesetParser.parseNodeNames. cbn [NodesetParser.nodeNameMap].
  apply (foldl_nodeNames (λ ty, Dom.querySelectorAll ty uaNodeSet)).
Qed.

Lemma parseAliases_nodeNameMap this uaNodeSet :
  NodesetParser.nodeNameMap (NodesetParser.parseAliases this uaNodeSet) =
  NodesetParser.nodeNameMap this.
Proof. unfold NodesetParser.parseAliases. by destruct (Dom.querySelector _ _). Qed.

Lemma referenceNodesets_nodeNameMap this referenceNodesets :
  NodesetParser.nodeNameMap (foldl NodesetParser.addReferenceNodeset this referenceNodesets) =
  foldl addName (NodesetParser.nodeNameMap this) (referenceElements referenceNodesets).
Proof.
  revert this. induction referenceNodesets as [|d ds IH]; intros this; csimpl; [done|].
  rewrite foldl_app, IH. f_equal. unfold NodesetParser.addReferenceNodeset.
  destruct (Dom.docQuerySelector "UANodeSet" d); [|done].
  by rewrite parseNodeNames_nodeNameMap, parseAliases_nodeNameMap.
Qed.

(** The name table after [parseNodeset]: the main document adds nothing. *)
Lemma parseNodeset_nodeNameMap this xmlDoc fileName' referenceNodesets :
  NodesetParser.nodeNameMap
    (NodesetParser.parseNodeset this xmlDoc fileName' referenceNodesets).1 =
  foldl addName (NodesetParser.nodeNameMap this) (referenceElements referenceNodesets).
Proof.
  rewrite parseNodeset_state. simpl.
  destruct (Dom.docQuerySelector "parsererror" xmlDoc);
    [apply referenceNodesets_nodeNameMap|].
  destruct (Dom.docQuerySelector "UANodeSet" xmlDoc);
    [|apply referenceNodesets_nodeNameMap].
  rewrite parseAliases_nodeNameMap. apply referenceNodesets_nodeNameMap.
Qed.

Lemma names_is_Some m l id :
  is_Some (m !! id) ∨ (∃ x bn, x ∈ l ∧ nameOf x = Some (id, bn)) →
  is_Some (foldl addName m l !! id).
Proof.
  revert m. induction l as [|y l IH]; intros m; simpl.
  - intros [?|(x & bn & []%elem_of_nil & _)]. done.
  - intros H. apply IH. rewrite addName_eq.
    destruct H as [Hm|(x & bn & [->|Hx]%elem_of_cons & Hn)].
    + left. destruct (nameOf y) as [[id' bn']|]; [|done].
      destruct (decide (id' = id)) as [->|]; [rewrite lookup_insert_eq; eauto|].
      by rewrite lookup_insert_ne.
    + left. rewrite Hn, lookup_insert_eq. eauto.
    + right. eauto.
Qed.

Lemma names_unchanged m l id :
  (∀ y, y ∈ l → Dom.getAttribute "NodeId" y.2 ≠ Some id) →
  foldl addName m l !! id = m !! id.
Proof.
  revert m. induction l as [|y l IH]; intros m Hl; simpl; [done|].
  rewrite IH by (intros; apply Hl; by right). rewrite addName_eq.
  destruct (nameOf y) as [[id' bn']|] eqn:Hy; [|done].
  apply nameOf_Some in Hy as [[Hy _] _].
  rewrite lookup_insert_ne; [done|]. intros ->. by apply (Hl y); [left|].
Qed.

Lemma names_last m l1 x l2 id bn :
  nameOf x = Some (id, bn) →
  (∀ y, y ∈ l2 → Dom.getAttribute "NodeId" y.2 ≠ Some id) →
  foldl addName m (l1 ++ x :: l2) !! id = Some bn.
Proof.
  intros Hx Hl2. rewrite foldl_app. simpl.
  rewrite names_unchanged by done. by rewrite addName_eq, Hx, lookup_insert_eq.
Qed.

Lemma names_origin m l id bn :
  foldl addName m l !! id = Some bn →
  m !! id = Some bn ∨ ∃ x, x ∈ l ∧ nameOf x = Some (id, bn).
Proof.
  revert m. induction l as [|y l IH]; intros m; simpl; [by left|].
  intros [H|(x & Hx & Hn)]%IH.
  - rewrite addName_eq in H. destruct (nameOf y) as [[id' bn']|] eqn:Hy; [|by left].
    destruct (decide (id' = id)) as [->|].
    + rewrite lookup_insert_eq in H. injection H as ->. right. exists y. split; [left|done].
    + rewrite lookup_insert_ne in H by done. by left.
  - right. exists x. split; [by right|done].
Qed.

Lemma elem_of_referenceElements referenceNodesets x :
  x ∈ referenceElements referenceNodesets ↔
  ∃ d refNodeSet, d ∈ referenceNodesets ∧
                  Dom.docQuerySelector "UANodeSet" d = Some refNodeSet ∧
                  x ∈ nodeElements refNodeSet.
Proof.
  unfold referenceElements. rewrite list_elem_of_bind. split.
  - intros (d & Hx & Hd). destruct (Dom.docQuerySelector "UANodeSet" d) as [ns|] eqn:E.
    + by exists d, ns.
    + by apply elem_of_nil in Hx.
  - intros (d & ns & Hd & E & Hx). exists d. by rewrite E.
Qed.

(** C3 (as amended). After [parseNodeset], the name table holds an entry for
    the [NodeId] of every recognized element of every auxiliary document
    that has a non-empty [NodeId] and a non-empty [BrowseName]; the entry
    is that element's [BrowseName] when no element visited later bears the
    same [NodeId]; every entry was there before the call or comes from such
    an element of an auxiliary document.  The main document adds nothing to
    the name table, and the keys of the result's node map are the non-empty
    [NodeId]s of the main document's recognized elements only. *)
Theorem C3_name_table_from_auxiliary_documents
    this xmlDoc fileName' referenceNodesets :
  let this' := (NodesetParser.parseNodeset this xmlDoc fileName' referenceNodesets).1 in
  (∀ x id bn, x ∈ referenceElements referenceNodesets →
     Dom.getAttribute "NodeId" x.2 = Some id → id ≠ "" →
     Dom.getAttribute "BrowseName" x.2 = Some bn → bn ≠ "" →
     is_Some (NodesetParser.nodeNameMap this' !! id)) ∧
  (∀ earlier x later id bn,
     referenceElements referenceNodesets = earlier ++ x :: later →
     Dom.getAttribute "NodeId" x.2 = Some id → id ≠ "" →
     Dom.getAttribute "BrowseName" x.2 = Some bn → bn ≠ "" →
     (∀ y, y ∈ later → Dom.getAttribute "NodeId" y.2 ≠ Some id) →
     NodesetParser.nodeNameMap this' !! id = Some bn) ∧
  (∀ id bn, NodesetParser.nodeNameMap this' !! id = Some bn →
     NodesetParser.nodeNameMap this !! id = Some bn ∨
     ∃ x, x ∈ referenceElements referenceNodesets ∧
          Dom.getAttribute "NodeId" x.2 = Some id ∧
          Dom.getAttribute "BrowseName" x.2 = Some bn) ∧
  NodesetParser.nodeNameMap (NodesetParser.parseNodeset this xmlDoc fileName' []).1 =
    NodesetParser.nodeNameMap this ∧
  (∀ r uaNodeSet,
     (NodesetParser.parseNodeset this xmlDoc fileName' referenceNodesets).2 = Returned r →
     Dom.docQuerySelector "UANodeSet" xmlDoc = Some uaNodeSet →
     ∀ id, id ∈ JsMap.keys (nodes r) ↔
           ∃ x, x ∈ nodeElements uaNodeSet ∧
                Dom.getAttribute "NodeId" x.2 = Some id ∧ id ≠ "").
Proof.
  simpl. rewrite !parseNodeset_nodeNameMap. split_and!.
  - intros x id bn Hx Hid Hne Hbn Hbne. apply names_is_Some. right.
    exists x, bn. split; [done|]. by apply nameOf_Some.
  - intros earlier x later id bn -> Hid Hne Hbn Hbne Hlater.
    apply names_last; [by apply nameOf_Some|done].
  - intros id bn [?|(x & Hx & [[? _] [? _]]%nameOf_Some)]%names_origin; [by left|].
    right. by exists x.
  - done.
  - intros r uaNodeSet Hr Hns id.
    destruct (NodesetParser.parseNodeset this xmlDoc fileName' referenceNodesets)
      as [this' out] eqn:Hparse.
    simpl in Hr. subst out.
    destruct (parseNodeset_Returned Hparse) as (ns & _ & Hns' & _ & Hnodes & _).
    rewrite Hns in Hns'. injection Hns' as <-.
    rewrite Hnodes. apply keys_nodes.
Qed.

(** ** What a reused parser instance carries over *)

Lemma foldl_union {B} (f : gmap string string → B → gmap string string) l m0 mb :
  (∀ m x, f (m ∪ mb) x = f m x ∪ mb) →
  foldl f (m0 ∪ mb) l = foldl f m0 l ∪ mb.
Proof.
  intros Hf. revert m0. induction l as [|x l IH]; intros m0; simpl; [done|].
  by rewrite Hf, IH.
Qed.

Lemma addAlias_union m mb alias :
  NodesetParser.addAlias (m ∪ mb) alias = NodesetParser.addAlias m alias ∪ mb.
Proof.
  unfold NodesetParser.addAlias.
  destruct (Js.nonEmpty (Dom.getAttribute _ _)); [|done].
  destruct (Js.nonEmpty (Some _)); [|done].
  apply insert_union_l.
Qed.

Lemma addNodeName_union m mb xmlNode :
  NodesetParser.addNodeName (m ∪ mb) xmlNode = NodesetParser.addNodeName m xmlNode ∪ mb.
Proof.
  unfold NodesetParser.addNodeName.
  destruct (Js.nonEmpty (Dom.getAttribute "NodeId" _)); [|done].
  destruct (Js.nonEmpty (Dom.getAttribute "BrowseName" _)); [|done].
  apply insert_union_l.
Qed.

Lemma parseAliases_over base this0 this1 uaNodeSet :
  over base this0 this1 →
  over base (NodesetParser.parseAliases this0 uaNodeSet)
            (NodesetParser.parseAliases this1 uaNodeSet).
Proof.
  intros [Ha Hn]. unfold NodesetParser.parseAliases.
  destruct (Dom.querySelector "Aliases" uaNodeSet); [|done].
  split; [|done]. simpl. rewrite Ha. apply foldl_union.
  intros m x. apply addAlias_union.
Qed.

Lemma parseNodeNames_over base this0 this1 uaNodeSet :
  over base this0 this1 →
  over base (NodesetParser.parseNodeNames this0 uaNodeSet)
            (NodesetParser.parseNodeNames this1 uaNodeSet).
Proof.
  intros [Ha Hn]. split; [done|].
  rewrite !parseNodeNames_nodeNameMap, Hn.
  apply foldl_union. intros m x. apply addNodeName_union.
Qed.

Lemma referenceNodesets_over base this0 this1 referenceNodesets :
  over base this0 this1 →
  over base (foldl NodesetParser.addReferenceNodeset this0 referenceNodesets)
            (foldl NodesetParser.addReferenceNodeset this1 referenceNodesets).
Proof.
  revert this0 this1. induction referenceNodesets as [|d ds IH]; intros this0 this1 H; simpl.
  - done.
  - apply IH. unfold NodesetParser.addReferenceNodeset.
    destruct (Dom.docQuerySelector "UANodeSet" d); [|done].
    by apply parseNodeNames_over, parseAliases_over.
Qed.

Lemma over_new this : over this NodesetParser.new this.
Proof. split; simpl; by rewrite (left_id_L ∅ (∪)). Qed.

Lemma resolveNodeId_over base this0 this1 X :
  over base this0 this1 →
  NodesetParser.aliasMap base !! X = None →
  NodesetParser.nodeNameMap base !! X = None →
  NodesetParser.resolveNodeId this1 X = NodesetParser.resolveNodeId this0 X.
Proof.
  intros [Ha Hn] HaX HnX. unfold NodesetParser.resolveNodeId.
  by rewrite Ha, Hn, !lookup_union_l.
Qed.

Lemma fmap_resolve_over base this0 this1 (o : option string) :
  over base this0 this1 →
  (∀ X, o = Some X →
        NodesetParser.aliasMap base !! X = None ∧ NodesetParser.nodeNameMap base !! X = None) →
  NodesetParser.resolveNodeId this1 <$> o = NodesetParser.resolveNodeId this0 <$> o.
Proof.
  intros Hover Ho. destruct o as [X|]; [|done]. simpl. f_equal.
  destruct (Ho X eq_refl). by eapply resolveNodeId_over.
Qed.

Lemma parseNode_over base this0 this1 xmlNode nodeType :
  over base this0 this1 →
  (∀ X, X ∈ resolvedBy xmlNode →
        NodesetParser.aliasMap base !! X = None ∧ NodesetParser.nodeNameMap base !! X = None) →
  NodesetParser.parseNode this1 xmlNode nodeType =
  NodesetParser.parseNode this0 xmlNode nodeType.
Proof.
  intros Hover Hclean. unfold NodesetParser.parseNode.
  destruct (Js.nonEmpty (Dom.getAttribute "NodeId" xmlNode)) as [id|]; [|done].
  assert (∀ o, (∀ X, o = Some X → X ∈ resolvedBy xmlNode) →
               NodesetParser.resolveNodeId this1 <$> o =
               NodesetParser.resolveNodeId this0 <$> o) as Hres.
  { intros o Ho. eapply fmap_resolve_over; [done|]. intros X HX. apply Hclean, Ho, HX. }
  assert (∀ o : option OpcUaReference,
            (∀ X, targetNodeId <$> o = Some X → X ∈ resolvedBy xmlNode) →
            (λ ref, NodesetParser.resolveNodeId this1 (targetNodeId ref)) <$> o =
            (λ ref, NodesetParser.resolveNodeId this0 (targetNodeId ref)) <$> o) as Hres'.
  { intros o Ho. specialize (Hres (targetNodeId <$> o) Ho).
    destruct o; simpl in *; congruence. }
  f_equal. f_equal.
  - apply Hres. intros X HX. unfold resolvedBy. rewrite HX. simpl. left.
  - apply Hres'. intros X HX. unfold resolvedBy. rewrite HX.
    rewrite !elem_of_app. do 4 right. simpl. left.
  - apply Hres. intros X HX. unfold resolvedBy. rewrite HX.
    rewrite !elem_of_app. right. left. simpl. left.
  - apply Hres'. intros X HX. unfold resolvedBy. rewrite HX.
    rewrite !elem_of_app. do 3 right. left. simpl. left.
  - apply Hres. intros X HX. unfold resolvedBy. rewrite HX.
    rewrite !elem_of_app. do 2 right. left. simpl. left.
Qed.

Lemma parsedNodes_over base this0 this1 uaNodeSet :
  over base this0 this1 →
  (∀ X, X ∈ (x ← nodeElements uaNodeSet; resolvedBy x.2) →
        NodesetParser.aliasMap base !! X = None ∧ NodesetParser.nodeNameMap base !! X = None) →
  parsedNodes this1 uaNodeSet = parsedNodes this0 uaNodeSet.
Proof.
  intros Hover. unfold parsedNodes.
  induction (nodeElements uaNodeSet) as [|x l IH]; intros Hclean; csimpl; [done|].
  rewrite (parseNode_over base this0 this1), IH; [done| |done|].
  - intros X HX. apply Hclean. csimpl. apply elem_of_app. by right.
  - intros X HX. apply Hclean. csimpl. apply elem_of_app. by left.
Qed.

(** C4 (as amended). A parser instance carries its two tables from call to
    call: after a call they are what a fresh instance would hold after the
    same call, laid over what the instance held before.  The result of a
    call on a used instance is the result of the same call on a fresh
    instance whenever the tables held no entry, before the call, for any
    identifier the call resolves. *)
Theorem C4_result_on_a_used_instance this xmlDoc fileName' referenceNodesets :
  over this
       (NodesetParser.parseNodeset NodesetParser.new xmlDoc fileName' referenceNodesets).1
       (NodesetParser.parseNodeset this xmlDoc fileName' referenceNodesets).1 ∧
  ((∀ X, X ∈ resolvedIds xmlDoc →
         NodesetParser.aliasMap this !! X = None ∧
         NodesetParser.nodeNameMap this !! X = None) →
   (NodesetParser.parseNodeset this xmlDoc fileName' referenceNodesets).2 =
   (NodesetParser.parseNodeset NodesetParser.new xmlDoc fileName' referenceNodesets).2).
Proof.
  pose proof (referenceNodesets_over this _ _ referenceNodesets (over_new this)) as Hrefs.
  split.
  - rewrite !parseNodeset_state. simpl.
    destruct (Dom.docQuerySelector "parsererror" xmlDoc); [done|].
    destruct (Dom.docQuerySelector "UANodeSet" xmlDoc); [|done].
    by apply parseAliases_over.
  - unfold resolvedIds, NodesetParser.parseNodeset, NodesetParser.processNodeset.
    destruct (Dom.docQuerySelector "parsererror" xmlDoc); [done|].
    destruct (Dom.docQuerySelector "UANodeSet" xmlDoc) as [uaNodeSet|]; [|done].
    intros Hclean. rewrite !parseNodes_eq.
    by rewrite (parsedNodes_over this _ _ uaNodeSet
                  (parseAliases_over _ _ _ uaNodeSet Hrefs) Hclean).
Qed.

(** * Further properties of the import service and the parser *)

(** ** Structural validation and the parser *)

Lemma elem_of_nodeElements uaNodeSet ty e :
  (ty, e) ∈ nodeElements uaNodeSet ↔
  ty ∈ NodesetParser.nodeTypes ∧ e ∈ Dom.descendants uaNodeSet ∧ Dom.tagName e = ty.
Proof.
  unfold nodeElements. rewrite list_elem_of_bind. split.
  - intros (ty' & (e' & [= -> ->] & He)%list_elem_of_fmap & Hty).
    apply list_elem_of_filter in He as [? ?]. done.
  - intros (Hty & He & Htag). exists ty. split; [|done].
    apply list_elem_of_fmap. exists e. split; [done|].
    by apply list_elem_of_filter.
Qed.

(** The elements [validateXML] counts as node definitions are the elements
    the parser visits. *)
Lemma querySelectorAllAny_nodeElements uaNodeSet :
  Dom.querySelectorAllAny NodesetParser.nodeTypes uaNodeSet = [] ↔
  nodeElements uaNodeSet = [].
Proof.
  split; intros Hnil.
  - destruct (nodeElements uaNodeSet) as [|[ty e] l] eqn:E; [done|]. exfalso.
    assert ((ty, e) ∈ nodeElements uaNodeSet) as Hin by (rewrite E; left).
    apply elem_of_nodeElements in Hin as (Hty & He & Htag).
    assert (e ∈ Dom.querySelectorAllAny NodesetParser.nodeTypes uaNodeSet) as Hin.
    { apply list_elem_of_filter. by rewrite Htag. }
    rewrite Hnil in Hin. by apply elem_of_nil in Hin.
  - destruct (Dom.querySelectorAllAny _ _) as [|e l] eqn:E; [done|]. exfalso.
    assert (e ∈ Dom.querySelectorAllAny NodesetParser.nodeTypes uaNodeSet) as Hin
      by (rewrite E; left).
    apply list_elem_of_filter in Hin as [Htag He].
    assert ((Dom.tagName e, e) ∈ nodeElements uaNodeSet) as Hin
      by by apply elem_of_nodeElements.
    rewrite Hnil in Hin. by apply elem_of_nil in Hin.
Qed.

Lemma validateXML_parsed xmlDoc :
  Dom.docQuerySelector "parsererror" xmlDoc = None →
  Validation.errors (FileImportService.validateXML xmlDoc) =
    match Dom.docQuerySelector "UANodeSet" xmlDoc with
    | None => [missingRoot; missingNamespaceUris; missingNodes]
    | Some uaNodeSet =>
        (if decide (Dom.querySelectorAllChild "NamespaceUris" "Uri" uaNodeSet = [])
         then [missingNamespaceUris] else []) ++
        (if decide (nodeElements uaNodeSet = []) then [missingNodes] else [])
    end ∧
  Validation.isValid (FileImportService.validateXML xmlDoc) =
    bool_decide (Validation.errors (FileImportService.validateXML xmlDoc) = []).
Proof.
  intros Hpe. unfold FileImportService.validateXML. rewrite Hpe.
  destruct (Dom.docQuerySelector "UANodeSet" xmlDoc) as [ns|]; [|done].
  cbn [fmap option_fmap option_map Validation.errors Validation.isValid].
  destruct (decide (nodeElements ns = [])) as [Hn|Hn].
  - apply querySelectorAllAny_nodeElements in Hn as ->.
    by destruct (Dom.querySelectorAllChild "NamespaceUris" "Uri" ns).
  - destruct (Dom.querySelectorAllAny NodesetParser.nodeTypes ns) eqn:E.
    { exfalso. by apply Hn, querySelectorAllAny_nodeElements. }
    by destruct (Dom.querySelectorAllChild "NamespaceUris" "Uri" ns).
Qed.

(** X1. [validateXML] finds a document valid exactly when it has no
    [parsererror] element, has a [UANodeSet] element, and that element has
    below it a [Uri] element whose parent is a [NamespaceUris] element and
    at least one element that the parser recognizes as a node; the verdict
    is valid exactly when no error is reported. *)
Theorem X1_validateXML_verdict xmlDoc :
  (Validation.isValid (FileImportService.validateXML xmlDoc) = true ↔
   ¬ hasElement "parsererror" xmlDoc ∧
   ∃ uaNodeSet, Dom.docQuerySelector "UANodeSet" xmlDoc = Some uaNodeSet ∧
                Dom.querySelectorAllChild "NamespaceUris" "Uri" uaNodeSet ≠ [] ∧
                nodeElements uaNodeSet ≠ []) ∧
  (Validation.isValid (FileImportService.validateXML xmlDoc) = true ↔
   Validation.errors (FileImportService.validateXML xmlDoc) = []).
Proof.
  destruct (Dom.docQuerySelector "parsererror" xmlDoc) as [pe|] eqn:Hpe.
  - unfold FileImportService.validateXML. rewrite Hpe. simpl.
    apply docQuerySelector_Some in Hpe. split; split; try done. by intros [? _].
  - destruct (validateXML_parsed xmlDoc Hpe) as [-> ->].
    apply docQuerySelector_None in Hpe. rewrite bool_decide_eq_true.
    split; [|done].
    destruct (Dom.docQuerySelector "UANodeSet" xmlDoc) as [ns|].
    + split.
      * intros H. repeat case_decide; simpl in H; try done.
        split; [done|]. by exists ns.
      * intros (_ & ns' & [= <-] & ? & ?). by rewrite !decide_False.
    + split; [done|]. by intros (_ & ns' & ? & _).
Qed.

(** X2. A document that [validateXML] finds valid is one that
    [parseNodeset] returns a result for, whatever the instance holds and
    whatever auxiliary documents come with it. *)
Theorem X2_valid_documents_parse this xmlDoc fileName' referenceNodesets :
  Validation.isValid (FileImportService.validateXML xmlDoc) = true →
  ∃ this' r,
    NodesetParser.parseNodeset this xmlDoc fileName' referenceNodesets = (this', Returned r).
Proof.
  intros Hvalid.
  destruct (Dom.docQuerySelector "parsererror" xmlDoc) as [pe|] eqn:Hpe.
  { unfold FileImportService.validateXML in Hvalid. by rewrite Hpe in Hvalid. }
  destruct (validateXML_parsed xmlDoc Hpe) as [Herr Hval].
  rewrite Hval, Herr in Hvalid. apply bool_decide_eq_true in Hvalid.
  destruct (Dom.docQuerySelector "UANodeSet" xmlDoc) as [ns|] eqn:Hns; [|done].
  by eapply parseNodeset_returns.
Qed.

(** X3. The errors of [validateXML] tell how [parseNodeset] fails: the
    single PARSE_ERROR is reported exactly when [parseNodeset] throws
    "Failed to parse XML: ...", and the missing-root error exactly when it
    throws "Invalid nodeset format: UANodeSet element not found"; a missing
    root always comes with the two other missing-element errors, in this
    order. *)
Theorem X3_validation_errors_and_parser_failures
    this xmlDoc fileName' referenceNodesets :
  let errors := Validation.errors (FileImportService.validateXML xmlDoc) in
  let outcome := (NodesetParser.parseNodeset this xmlDoc fileName' referenceNodesets).2 in
  ((∃ details, errors = [parseError details]) ↔
   ∃ text, outcome = Thrown ("Failed to parse XML: " +:+ text)) ∧
  (missingRoot ∈ errors ↔
   outcome = Thrown "Invalid nodeset format: UANodeSet element not found") ∧
  (missingRoot ∈ errors → errors = [missingRoot; missingNamespaceUris; missingNodes]).
Proof.
  simpl. unfold NodesetParser.parseNodeset, NodesetParser.processNodeset.
  destruct (Dom.docQuerySelector "parsererror" xmlDoc) as [pe|] eqn:Hpe.
  - unfold FileImportService.validateXML. rewrite Hpe. simpl. split_and!.
    + split; intros _; eauto.
    + split.
      * intros ?%list_elem_of_singleton. done.
      * intros H. discriminate H.
    + intros ?%list_elem_of_singleton. done.
  - destruct (validateXML_parsed xmlDoc Hpe) as [-> _].
    destruct (Dom.docQuerySelector "UANodeSet" xmlDoc) as [ns|] eqn:Hns.
    + destruct (NodesetParser.parseNodes _ _) as [st nd]. simpl.
      assert (missingRoot ∉
                (if decide (Dom.querySelectorAllChild "NamespaceUris" "Uri" ns = [])
                 then [missingNamespaceUris] else []) ++
                (if decide (nodeElements ns = []) then [missingNodes] else [])) as Hnot.
      { repeat case_decide; simpl;
          repeat (rewrite not_elem_of_cons; split; [done|]); apply not_elem_of_nil. }
      split_and!.
      * split; [|by intros [? ?]]. intros [details H].
        repeat case_decide; simpl in H; discriminate H.
      * split; [done|done].
      * done.
    + simpl. split_and!.
      * split; [by intros [? ?]|by intros [? ?]].
      * split; [done|]. intros _. left.
      * done.
Qed.

(** * The parser on concrete documents *)

Example mainDoc_nodes :
  nodes <$> (match (NodesetParser.parseNodeset NodesetParser.new Examples.mainDoc "main.xml" []).2
             with Returned r => Some r | Thrown _ => None end) =
  Some [("ns=1;i=1", 0); ("ns=1;i=2", 2); ("ns=1;i=3", 3)].
Proof. vm_compute. reflexivity. Qed.

Example mainDoc_children :
  (λ r, children <$> store r) <$>
    (match (NodesetParser.parseNodeset NodesetParser.new Examples.mainDoc "main.xml" []).2
     with Returned r => Some r | Thrown _ => None end) =
  Some [[2]; []; []; []].
Proof. vm_compute. reflexivity. Qed.

Example mainDoc_rootNodes :
  (λ r, (λ c, (browseName c, children c)) <$> rootNodes r) <$>
    (match (NodesetParser.parseNodeset NodesetParser.new Examples.mainDoc "main.xml" []).2
     with Returned r => Some r | Thrown _ => None end) =
  Some [("EventTypes", [3])].
Proof. vm_compute. reflexivity. Qed.

Example secondDoc_dataType_fresh :
  (λ r, dataType <$> store r) <$>
    (match (NodesetParser.parseNodeset NodesetParser.new Examples.secondDoc "second.xml" []).2
     with Returned r => Some r | Thrown _ => None end) =
  Some [Some "i=24"].
Proof. vm_compute. reflexivity. Qed.

Example secondDoc_dataType_used :
  (λ r, dataType <$> store r) <$>
    (match (FileImportService.parseNodesetFile Examples.usedParser
              Examples.secondDoc "second.xml" []).2
     with Returned r => Some r | Thrown _ => None end) =
  Some [Some "BaseDataType"].
Proof. vm_compute. reflexivity. Qed.

Example sparseUris_namespaces :
  FileImportService.extractNamespaces Examples.sparseUrisDoc =
  [{| index := 1; uri := "http://example.com/UA" |}].
Proof. vm_compute. reflexivity. Qed.

Example urisDoc_namespaces :
  FileImportService.extractNamespaces Examples.urisDoc =
  [{| index := 0; uri := "http://example.com/A" |};
   {| index := 1; uri := "http://example.com/B" |}].
Proof. vm_compute. reflexivity. Qed.

(** * The properties on concrete documents *)

Lemma C1_witness :
  SymbolTable.reachable
    (NodesetParser.parseNodeset NodesetParser.new Examples.mainDoc "main.xml"
       [Examples.auxDoc]).1 ∧
  NodesetParser.resolveNodeId
    (NodesetParser.parseNodeset NodesetParser.new Examples.mainDoc "main.xml"
       [Examples.auxDoc]).1 "i=24" = "BaseDataType".
Proof.
  split.
  - apply SymbolTable.reachable_parseNodeset, SymbolTable.reachable_new.
  - destruct (C1_resolveNodeId_priority
                (NodesetParser.parseNodeset NodesetParser.new Examples.mainDoc "main.xml"
                   [Examples.auxDoc]).1 "i=24") as [_ H].
    + apply SymbolTable.reachable_parseNodeset, SymbolTable.reachable_new.
    + apply (H "BaseDataType" "BaseDataTypeName"); vm_compute; reflexivity.
Defined.

Lemma C2_counterexample : ¬ C2_as_stated Examples.forwardSubtypeDoc.
Proof.
  intros H.
  run_parseNodeset
    (NodesetParser.parseNodeset NodesetParser.new Examples.forwardSubtypeDoc "unknown.xml" [])
    this' r Hparse Hr.
  assert (("ns=1;i=1", 0) ∈ nodes r) as Hin by (rewrite <- Hr; by left).
  destruct (store r !! 0) as [node|] eqn:Hnode; [|by rewrite <- Hr in Hnode].
  assert (nodeClass node = NodeClass.ObjectType) as Hclass.
  { rewrite <- Hr in Hnode. by injection Hnode as <-. }
  destruct (H this' r "ns=1;i=1" 0 node Hparse Hin Hnode Hclass) as [Hto _].
  rewrite <- Hr in Hnode. injection Hnode as <-.
  destruct Hto as [Hname|(ref & Href & _ & Hfw & _)].
  - eexists. rewrite <- Hr. split; [left|]. split; [reflexivity|left].
  - vm_compute in Hname. discriminate.
  - apply list_elem_of_singleton in Href as ->. discriminate.
Qed.

Lemma C2_witness :
  ∃ this' r node,
    NodesetParser.parseNodeset NodesetParser.new Examples.forwardSubtypeDoc "unknown.xml" []
      = (this', Returned r) ∧
    ("ns=1;i=1", 0) ∈ nodes r ∧ store r !! 0 = Some node ∧
    nodeClass node = NodeClass.ObjectType ∧
    eventRule node ∧ under r "EventTypes" 0.
Proof.
  run_parseNodeset
    (NodesetParser.parseNodeset NodesetParser.new Examples.forwardSubtypeDoc "unknown.xml" [])
    this' r Hparse Hr.
  assert (("ns=1;i=1", 0) ∈ nodes r) as Hin by (rewrite <- Hr; by left).
  destruct (store r !! 0) as [node|] eqn:Hnode; [|by rewrite <- Hr in Hnode].
  assert (nodeClass node = NodeClass.ObjectType) as Hclass.
  { rewrite <- Hr in Hnode. by injection Hnode as <-. }
  assert (eventRule node) as Hevent.
  { rewrite <- Hr in Hnode. injection Hnode as <-.
    right. eexists. split; [left|]. split; reflexivity. }
  exists this', r, node. split_and!; [done..|].
  by apply (C2_event_bucket _ _ _ _ _ _ _ _ _ Hparse Hin Hnode Hclass).
Defined.

Lemma C3_counterexample : ¬ C3_as_stated Examples.namedDoc.
Proof.
  intros H.
  specialize (H (Dom.documentElement Examples.namedDoc)
                ("UAObject", Dom.Elem "UAObject"
                               [("NodeId", "ns=1;i=1"); ("BrowseName", "Pump")] [])
                "ns=1;i=1" "Pump" eq_refl).
  vm_compute in H. discriminate H; [left|reflexivity|reflexivity].
Qed.

Lemma C3_witness :
  let x := ("UADataType",
            Dom.Elem "UADataType" [("NodeId", "i=24"); ("BrowseName", "BaseDataTypeName")] []) in
  let this' := (NodesetParser.parseNodeset NodesetParser.new Examples.mainDoc "main.xml"
                  [Examples.auxDoc]).1 in
  referenceElements [Examples.auxDoc] = [] ++ x :: [] ∧
  NodesetParser.nodeNameMap this' !! "i=24" = Some "BaseDataTypeName" ∧
  NodesetParser.nodeNameMap this' !! "ns=1;i=1" = None.
Proof.
  intros x this'. split; [reflexivity|]. split.
  - destruct (C3_name_table_from_auxiliary_documents
                NodesetParser.new Examples.mainDoc "main.xml" [Examples.auxDoc])
      as (_ & Hlast & _).
    apply (Hlast [] x []); [reflexivity|reflexivity|done|reflexivity|done|].
    by intros y ?%elem_of_nil.
  - vm_compute. reflexivity.
Defined.

Lemma C4_counterexample : ¬ C4_as_stated Examples.usedParser Examples.secondDoc.
Proof.
  intros H.
  assert (SymbolTable.reachable Examples.usedParser) as Hused
    by apply SymbolTable.reachable_parseNodeset, SymbolTable.reachable_new.
  specialize (H Hused). vm_compute in H. discriminate H.
Qed.

Lemma C4_witness :
  (∀ X, X ∈ resolvedIds Examples.mainDoc →
        NodesetParser.aliasMap Examples.usedParser !! X = None ∧
        NodesetParser.nodeNameMap Examples.usedParser !! X = None) ∧
  (NodesetParser.parseNodeset Examples.usedParser Examples.mainDoc "main.xml" []).2 =
  (NodesetParser.parseNodeset NodesetParser.new Examples.mainDoc "main.xml" []).2.
Proof.
  assert (∀ X, X ∈ resolvedIds Examples.mainDoc →
               NodesetParser.aliasMap Examples.usedParser !! X = None ∧
               NodesetParser.nodeNameMap Examples.usedParser !! X = None) as Hclean.
  { intros X HX. change (resolvedIds Examples.mainDoc) with ["i=6"] in HX.
    apply list_elem_of_singleton in HX as ->. split; vm_compute; reflexivity. }
  split; [exact Hclean|].
  by apply (C4_result_on_a_used_instance Examples.usedParser Examples.mainDoc "main.xml" []).
Defined.

Lemma C5_witness :
  ∃ this' r A,
    NodesetParser.parseNodeset NodesetParser.new Examples.mainDoc "main.xml" []
      = (this', Returned r) ∧
    ("ns=1;i=1", 0) ∈ nodes r ∧ ("ns=1;i=2", 2) ∈ nodes r ∧
    store r !! 0 = Some A ∧ children A = [2] ∧
    (2 ∈ children A ↔
     ∃ ref, ref ∈ references A ∧
            referenceType ref ∈ ["HasComponent"; "Organizes"; "HasProperty"] ∧
            isForward ref = true ∧ targetNodeId ref = "ns=1;i=2").
Proof.
  run_parseNodeset
    (NodesetParser.parseNodeset NodesetParser.new Examples.mainDoc "main.xml" [])
    this' r Hparse Hr.
  assert (("ns=1;i=1", 0) ∈ nodes r) as Hparent by (rewrite <- Hr; by left).
  assert (("ns=1;i=2", 2) ∈ nodes r) as Hchild by (rewrite <- Hr; right; by left).
  destruct (C5_children_from_forward_references _ _ _ _ _ _ Hparse _ _ Hparent)
    as (A & HA & _ & _ & Hiff).
  exists this', r, A. split_and!; [done..| |by apply Hiff].
  rewrite <- Hr in HA. by injection HA as <-.
Defined.

Lemma C6_counterexample : ¬ C6_as_stated Examples.emptyIdDoc.
Proof.
  intros H.
  run_parseNodeset
    (NodesetParser.parseNodeset NodesetParser.new Examples.emptyIdDoc "unknown.xml" [])
    this' r Hparse Hr.
  specialize (H _ this' r ("UAObject", Examples.emptyIdElement) "" eq_refl Hparse).
  rewrite <- Hr in H. discriminate H; [left|reflexivity].
Qed.

Lemma C6_witness :
  Dom.docQuerySelector "parsererror" Examples.mainDoc = None ∧
  Dom.docQuerySelector "UANodeSet" Examples.mainDoc
    = Some (Dom.documentElement Examples.mainDoc) ∧
  ∃ this' r,
    NodesetParser.parseNodeset NodesetParser.new Examples.mainDoc "main.xml" []
      = (this', Returned r) ∧
    length (filter (λ en, en.1 = "ns=1;i=2") (nodes r)) = 1.
Proof.
  split; [reflexivity|]. split; [reflexivity|].
  destruct (C6_node_map_entries NodesetParser.new Examples.mainDoc "main.xml" []
              (Dom.documentElement Examples.mainDoc) eq_refl eq_refl)
    as (this' & r & Hparse & Hone & _).
  exists this', r. split; [done|].
  apply (Hone ("UAVariable", Examples.childVariable)); [|reflexivity|done].
  vm_compute. right. right. left.
Defined.

Lemma C7_counterexample : ¬ C7_as_stated Examples.nestedDoc.
Proof.
  intros [_ H].
  assert ((NodesetParser.parseNodeset NodesetParser.new Examples.nestedDoc "unknown.xml" []).2
          = Thrown "Invalid nodeset format: UANodeSet element not found") as Hthrown.
  { apply H. split; [by apply docQuerySelector_None|done]. }
  vm_compute in Hthrown. discriminate Hthrown.
Qed.

Lemma C8_witness :
  ∃ this' r,
    NodesetParser.parseNodeset NodesetParser.new Examples.mainDoc "main.xml" []
      = (this', Returned r) ∧
    browseName <$> rootNodes r = ["EventTypes"] ∧
    browseName <$> rootNodes r `sublist_of`
      ["DataTypes"; "EventTypes"; "InterfaceTypes"; "ObjectTypes";
       "ReferenceTypes"; "VariableTypes"].
Proof.
  run_parseNodeset
    (NodesetParser.parseNodeset NodesetParser.new Examples.mainDoc "main.xml" [])
    this' r Hparse Hr.
  exists this', r. split; [done|]. split; [by rewrite <- Hr|].
  by destruct (C8_root_categories _ _ _ _ _ _ Hparse) as (_ & Hsub & _).
Defined.

Lemma C9_counterexample : ¬ C9_as_stated Examples.sparseUrisDoc.
Proof. intros [Hlen _]. vm_compute in Hlen. discriminate Hlen. Qed.

Lemma C9_witness :
  (∀ e, e ∈ uriElements Examples.urisDoc → Js.trim (Dom.textContent e) ≠ "") ∧
  length (FileImportService.extractNamespaces Examples.urisDoc) = 2 ∧
  ∀ i ns, FileImportService.extractNamespaces Examples.urisDoc !! i = Some ns → index ns = i.
Proof.
  assert (∀ e, e ∈ uriElements Examples.urisDoc → Js.trim (Dom.textContent e) ≠ "") as Hall.
  { intros e He. vm_compute in He.
    apply elem_of_cons in He as [->|He]; [done|].
    apply list_elem_of_singleton in He as ->. done. }
  split; [exact Hall|].
  destruct (C9_extractNamespaces Examples.urisDoc) as (_ & _ & _ & H).
  destruct (H Hall) as [Hlen Hindex]. split; [|exact Hindex].
  rewrite Hlen. reflexivity.
Defined.

Lemma C10_counterexample : ¬ C10_as_stated Examples.emptyIdDoc.
Proof.
  intros H.
  destruct (H (Dom.documentElement Examples.emptyIdDoc)
              [("UAObject", Examples.emptyIdElement)] ("UAObject", Examples.emptyIdElement) []
              "" eq_refl eq_refl eq_refl)
    as (this' & r & Hparse & Hone).
  - eexists. split; [left|reflexivity].
  - reflexivity.
  - by intros y ?%elem_of_nil.
  - vm_compute in Hparse. injection Hparse as _ <-. discriminate Hone.
Qed.

Lemma C10_witness :
  let parent := ("UAObject",
                 Dom.Elem "UAObject" [("NodeId", "ns=1;i=1"); ("BrowseName", "Parent")]
                   [Examples.el "References" []
                      [Examples.el "Reference" [("ReferenceType", "HasComponent")]
                         [inl "ns=1;i=2"];
                       Examples.el "Reference"
                         [("ReferenceType", "HasComponent"); ("IsForward", "false")]
                         [inl "ns=1;i=2"]]]) in
  let first := ("UAObject",
                Dom.Elem "UAObject" [("NodeId", "ns=1;i=2"); ("BrowseName", "FirstChild")] []) in
  let eventType := ("UAObjectType",
                    Dom.Elem "UAObjectType"
                      [("NodeId", "ns=1;i=3"); ("BrowseName", "BaseEventType")] []) in
  nodeElements (Dom.documentElement Examples.mainDoc)
    = [parent; first] ++ ("UAVariable", Examples.childVariable) :: [eventType] ∧
  ∃ this' r l n,
    NodesetParser.parseNodeset NodesetParser.new Examples.mainDoc "main.xml" []
      = (this', Returned r) ∧
    JsMap.get (nodes r) "ns=1;i=2" = Some l ∧
    store r !! l = Some n ∧
    browseName n = "Child" ∧ nodeClass n = NodeClass.Variable_ ∧
    length (filter (λ en, en.1 = "ns=1;i=2") (nodes r)) = 1.
Proof.
  intros parent first eventType. split; [reflexivity|].
  destruct (C10_last_duplicate_wins NodesetParser.new Examples.mainDoc "main.xml" []
              (Dom.documentElement Examples.mainDoc)
              [parent; first] "UAVariable" Examples.childVariable [eventType] "ns=1;i=2")
    as (this' & r & l & n0 & Hparse & Hn0 & Hget & Hstore & Hone);
    [reflexivity|reflexivity|reflexivity|reflexivity|done| |].
  - intros y ->%list_elem_of_singleton. done.
  - exists this', r, l, (pushAll n0 (childrenOf (nodes r) (references n0))).
    split_and!; [done..| | |done].
    + unfold NodesetParser.parseNode in Hn0. simpl in Hn0. by injection Hn0 as <-.
    + simpl. by apply parseNode_Some in Hn0 as (_ & _ & -> & _).
Defined.

(** ** Checksums *)

Lemma toInt32_range x : (- 2 ^ 31 ≤ Js.toInt32 x < 2 ^ 31)%Z.
Proof.
  unfold Js.toInt32.
  change (2 ^ 31)%Z with 2147483648%Z. change (2 ^ 32)%Z with 4294967296%Z.
  pose proof (Z.mod_pos_bound (x + 2147483648) 4294967296). lia.
Qed.

Lemma toInt32_shift x k : Js.toInt32 (x + k * 2 ^ 32) = Js.toInt32 x.
Proof.
  unfold Js.toInt32.
  replace (x + k * 2 ^ 32 + 2 ^ 31)%Z with (x + 2 ^ 31 + k * 2 ^ 32)%Z by lia.
  by rewrite Z_mod_plus_full.
Qed.

Lemma toInt32_decomp x : ∃ q, Js.toInt32 x = (x + q * 2 ^ 32)%Z.
Proof.
  exists (- ((x + 2 ^ 31) / 2 ^ 32))%Z. unfold Js.toInt32.
  change (2 ^ 31)%Z with 2147483648%Z. change (2 ^ 32)%Z with 4294967296%Z.
  rewrite Z.mod_eq by lia. lia.
Qed.

Lemma hashStep_eq h c :
  FileImportService.hashStep h c = Js.toInt32 (31 * h + Js.charCode c).
Proof.
  unfold FileImportService.hashStep, Js.shiftLeft. rewrite Z.shiftl_mul_pow2 by lia.
  destruct (toInt32_decomp (h * 2 ^ 5)) as [q ->].
  replace (h * 2 ^ 5 + q * 2 ^ 32 - h + Js.charCode c)%Z
    with (31 * h + Js.charCode c + q * 2 ^ 32)%Z by lia.
  apply toInt32_shift.
Qed.

Lemma hashStep_toInt32 x c :
  FileImportService.hashStep (Js.toInt32 x) c = Js.toInt32 (31 * x + Js.charCode c).
Proof.
  rewrite hashStep_eq. destruct (toInt32_decomp x) as [q ->].
  replace (31 * (x + q * 2 ^ 32) + Js.charCode c)%Z
    with (31 * x + Js.charCode c + (31 * q) * 2 ^ 32)%Z by lia.
  apply toInt32_shift.
Qed.

Lemma hashLoop_toInt32 x s :
  FileImportService.hashLoop (Js.toInt32 x) s = Js.toInt32 (polynomial x s).
Proof.
  revert x. induction s as [|c r IH]; intros x; simpl; [done|].
  by rewrite hashStep_toInt32, IH.
Qed.

Lemma hashLoop_app h a b :
  FileImportService.hashLoop h (a +:+ b) =
  FileImportService.hashLoop (FileImportService.hashLoop h a) b.
Proof.
  revert h. induction a as [|c a IH]; intros h; [done|].
  change (String c a +:+ b) with (String c (a +:+ b)). simpl. apply IH.
Qed.

(** X4. The fallback checksum is the polynomial hash with multiplier 31 of
    the character codes, wrapped to a signed 32-bit integer: shifting left by
    five and subtracting is multiplying by 31.  Its text is "fallback-" and
    the decimal digits of the absolute value, which is at most 2^31. *)
Theorem X4_fallback_checksum_is_polynomial_hash xmlContent :
  FileImportService.hashLoop 0 xmlContent = Js.toInt32 (polynomial 0 xmlContent) ∧
  FileImportService.generateChecksum None xmlContent =
    "fallback-" +:+ pretty (Z.abs (Js.toInt32 (polynomial 0 xmlContent))) ∧
  (0 ≤ Z.abs (FileImportService.hashLoop 0 xmlContent) ≤ 2 ^ 31)%Z.
Proof.
  assert (FileImportService.hashLoop 0 xmlContent = Js.toInt32 (polynomial 0 xmlContent)) as E
    by apply (hashLoop_toInt32 0).
  split; [done|]. split.
  - unfold FileImportService.generateChecksum. by rewrite E.
  - rewrite E. pose proof (toInt32_range (polynomial 0 xmlContent)).
    change (2 ^ 31)%Z with 2147483648%Z in *. lia.
Qed.

Lemma hashLoop_Aa_BB h :
  FileImportService.hashLoop h "Aa" = FileImportService.hashLoop h "BB".
Proof.
  simpl. rewrite (hashStep_eq h "A"), (hashStep_eq h "B"), !hashStep_toInt32.
  f_equal. change (Js.charCode "A") with 65%Z. change (Js.charCode "a") with 97%Z.
  change (Js.charCode "B") with 66%Z. lia.
Qed.

Lemma fallback_truthy xmlContent :
  Js.nonEmpty (Some (FileImportService.generateChecksum None xmlContent)) =
  Some (FileImportService.generateChecksum None xmlContent).
Proof. done. Qed.

(** X5. The fallback checksum does not tell apart two texts that differ
    only in having "Aa" where the other has "BB": the texts are different,
    their checksums are equal, and once one of them is loaded
    [detectDuplicate] reports the other as a duplicate. *)
Theorem X5_fallback_checksum_collisions before after :
  before +:+ "Aa" +:+ after ≠ before +:+ "BB" +:+ after ∧
  FileImportService.generateChecksum None (before +:+ "Aa" +:+ after) =
  FileImportService.generateChecksum None (before +:+ "BB" +:+ after) ∧
  FileImportService.detectDuplicate
    (Some (FileImportService.generateChecksum None (before +:+ "BB" +:+ after)))
    {[ FileImportService.generateChecksum None (before +:+ "Aa" +:+ after) ]} = true.
Proof.
  assert (FileImportService.generateChecksum None (before +:+ "Aa" +:+ after) =
          FileImportService.generateChecksum None (before +:+ "BB" +:+ after)) as E.
  { unfold FileImportService.generateChecksum. do 3 f_equal.
    rewrite !hashLoop_app. f_equal. apply hashLoop_Aa_BB. }
  split_and!; [|done|].
  - intros H. apply (inj (String.app before)) in H. discriminate H.
  - unfold FileImportService.detectDuplicate. rewrite fallback_truthy.
    apply bool_decide_eq_true. rewrite E. by apply elem_of_singleton.
Qed.

Lemma hex_byte b :
  ∃ c1 c2 a1 a2,
    Js.padStart 2 "0" (Js.toString16 (Byte.to_N b)) = String c1 (String c2 EmptyString) ∧
    hexValue c1 = Some a1 ∧ hexValue c2 = Some a2 ∧
    Byte.of_N (16 * a1 + a2) = Some b.
Proof. destruct b; do 4 eexists; repeat split; vm_compute; reflexivity. Qed.

Lemma hex_cons b bs :
  FileImportService.hex (b :: bs) =
  Js.padStart 2 "0" (Js.toString16 (Byte.to_N b)) +:+ FileImportService.hex bs.
Proof. done. Qed.

Lemma unhex_hex bs : unhex (FileImportService.hex bs) = Some bs.
Proof.
  induction bs as [|b bs IH]; [done|].
  rewrite hex_cons. destruct (hex_byte b) as (c1 & c2 & a1 & a2 & -> & H1 & H2 & Hb).
  change (String c1 (String c2 EmptyString) +:+ FileImportService.hex bs)
    with (String c1 (String c2 (FileImportService.hex bs))).
  simpl. by rewrite H1, H2, Hb, IH.
Qed.

Lemma length_hex bs : String.length (FileImportService.hex bs) = 2 * length bs.
Proof.
  induction bs as [|b bs IH]; [done|].
  rewrite hex_cons. destruct (hex_byte b) as (c1 & c2 & _ & _ & -> & _).
  change (String c1 (String c2 EmptyString) +:+ FileImportService.hex bs)
    with (String c1 (String c2 (FileImportService.hex bs))).
  simpl. rewrite IH. lia.
Qed.

(** X6. A checksum of the digest kind can be read back: it has two
    characters for each byte of the digest, decoding it gives the digest, and
    so two texts have the same checksum exactly when the platform gives them
    the same digest. *)
Theorem X6_digest_checksum_round_trip
    (digest : list Byte.byte → list Byte.byte) xmlContent other :
  unhex (FileImportService.generateChecksum (Some digest) xmlContent) =
    Some (digest (FileImportService.encode xmlContent)) ∧
  String.length (FileImportService.generateChecksum (Some digest) xmlContent) =
    2 * length (digest (FileImportService.encode xmlContent)) ∧
  (FileImportService.generateChecksum (Some digest) xmlContent =
   FileImportService.generateChecksum (Some digest) other ↔
   digest (FileImportService.encode xmlContent) = digest (FileImportService.encode other)).
Proof.
  unfold FileImportService.generateChecksum. split_and!.
  - apply unhex_hex.
  - apply length_hex.
  - split; [|by intros ->]. intros H.
    assert (unhex (FileImportService.hex (digest (FileImportService.encode xmlContent))) =
            unhex (FileImportService.hex (digest (FileImportService.encode other)))) as H'
      by by rewrite H.
    rewrite !unhex_hex in H'. by injection H'.
Qed.

(** X7. A checksum of the digest kind is never a checksum of the fallback
    kind: the first has hexadecimal digits only, the second starts with
    "fallback-". *)
Theorem X7_checksum_kinds_never_meet
    (digest : list Byte.byte → list Byte.byte) xmlContent other :
  FileImportService.generateChecksum (Some digest) xmlContent ≠
  FileImportService.generateChecksum None other.
Proof.
  intros H.
  assert (unhex (FileImportService.generateChecksum (Some digest) xmlContent) =
          unhex (FileImportService.generateChecksum None other)) as H' by by rewrite H.
  unfold FileImportService.generateChecksum in H'. rewrite unhex_hex in H'.
  discriminate H'.
Qed.

(** ** Trimmed text *)

Lemma trimStart_startsClean s : startsClean (Js.trimStart s).
Proof.
  induction s as [|c r IH]; simpl; [done|].
  destruct (Ascii.is_space c) eqn:E; [done|]. simpl. done.
Qed.

Lemma trimStart_of_clean s : startsClean s → Js.trimStart s = s.
Proof. destruct s as [|c r]; simpl; [done|]. by intros ->. Qed.

Lemma trimEnd_startsClean s : startsClean s → startsClean (Js.trimEnd s).
Proof.
  destruct s as [|c r]; simpl; [done|]. intros Hc.
  destruct (Js.trimEnd r); simpl; [by rewrite Hc|done].
Qed.

Lemma trimEnd_idemp s : Js.trimEnd (Js.trimEnd s) = Js.trimEnd s.
Proof.
  induction s as [|c r IH]; simpl; [done|].
  destruct (Js.trimEnd r) as [|d t] eqn:E.
  - destruct (Ascii.is_space c) eqn:Hc; simpl; [done|]. by rewrite Hc.
  - change (Js.trimEnd (String c (String d t))) with
      (match Js.trimEnd (String d t) with
       | EmptyString => if Ascii.is_space c then EmptyString else String c EmptyString
       | r' => String c r'
       end).
    by rewrite IH.
Qed.

Lemma trim_idemp s : Js.trim (Js.trim s) = Js.trim s.
Proof.
  unfold Js.trim.
  rewrite (trimStart_of_clean (Js.trimEnd (Js.trimStart s)))
    by apply trimEnd_startsClean, trimStart_startsClean.
  apply trimEnd_idemp.
Qed.

Lemma getElementText_trimmed parent tagName :
  Js.trim (NodesetParser.getElementText parent tagName) =
  NodesetParser.getElementText parent tagName.
Proof.
  unfold NodesetParser.getElementText.
  destruct (Dom.querySelector tagName parent) as [element|]; [|done].
  destruct (Dom.querySelector "Text" element) as [textElement|];
    [destruct (Js.truthy _)|]; apply trim_idemp.
Qed.

(** ** What [parseNode] puts in a node *)

Lemma parseReferences_elem xmlNode ref :
  ref ∈ NodesetParser.parseReferences xmlNode →
  referenceType ref ≠ "" ∧ targetNodeId ref ≠ "" ∧
  Js.trim (targetNodeId ref) = targetNodeId ref.
Proof.
  unfold NodesetParser.parseReferences.
  destruct (Dom.querySelector "References" xmlNode) as [re|]; [|by intros ?%elem_of_nil].
  intros (x & _ & Hx)%list_elem_of_omap. unfold NodesetParser.parseReference in Hx.
  destruct (Js.truthy (Js.trim (Dom.textContent x))) eqn:Ht; [|done].
  injection Hx as <-. simpl. split_and!.
  - unfold Js.orElse. destruct (Dom.getAttribute "ReferenceType" x) as [s|]; [|done].
    destruct (Js.truthy s) eqn:Hs; [|done]. by apply bool_decide_eq_true in Hs.
  - by apply bool_decide_eq_true in Ht.
  - apply trim_idemp.
Qed.

Lemma find_is_Some {A} (f : A → bool) (l : list A) :
  is_Some (List.find f l) ↔ ∃ x, x ∈ l ∧ f x = true.
Proof.
  split.
  - intros [x [Hin Hf]%find_some]. exists x. by rewrite list_elem_of_In.
  - intros (x & Hin & Hf). destruct (List.find f l) eqn:E; [done|].
    apply list_elem_of_In in Hin. by rewrite (find_none _ _ E x Hin) in Hf.
Qed.

Lemma find_target_nonEmpty xmlNode (f : OpcUaReference → bool) :
  Js.nonEmpty (targetNodeId <$> List.find f (NodesetParser.parseReferences xmlNode)) =
  targetNodeId <$> List.find f (NodesetParser.parseReferences xmlNode).
Proof.
  destruct (List.find f _) as [ref|] eqn:E; [|done]. simpl.
  apply find_some in E as [Hin%list_elem_of_In _].
  apply parseReferences_elem in Hin as (_ & Ht & _).
  unfold Js.nonEmpty, Js.truthy. by rewrite bool_decide_true.
Qed.

(** The fields of a parsed node, read off the element. *)
Lemma parseNode_fields this e ty n :
  NodesetParser.parseNode this e ty = Some n →
  displayName n = NodesetParser.getElementText e "DisplayName" ∧
  description n = Some (NodesetParser.getElementText e "Description") ∧
  browseName n =
    Js.orElse (Dom.getAttribute "BrowseName" e) (NodesetParser.getElementText e "DisplayName") ∧
  dataType n =
    NodesetParser.resolveNodeId this <$> Js.nonEmpty (Dom.getAttribute "DataType" e) ∧
  derivedFrom n =
    NodesetParser.resolveNodeId this <$>
      (targetNodeId <$>
         List.find (λ ref, bool_decide (referenceType ref = "HasSubtype") && negb (isForward ref))
                   (NodesetParser.parseReferences e)) ∧
  typeDefinition n =
    (λ ref, NodesetParser.resolveNodeId this (targetNodeId ref)) <$>
      List.find (λ ref, bool_decide (referenceType ref = "HasTypeDefinition") && isForward ref)
                (NodesetParser.parseReferences e) ∧
  modellingRule n =
    (λ ref, NodesetParser.resolveNodeId this (targetNodeId ref)) <$>
      List.find (λ ref, bool_decide (referenceType ref = "HasModellingRule") && isForward ref)
                (NodesetParser.parseReferences e).
Proof.
  unfold NodesetParser.parseNode.
  destruct (Js.nonEmpty (Dom.getAttribute "NodeId" e)) as [id|]; [|done].
  intros [= <-]. simpl. split_and!; try done.
  unfold NodesetParser.findDerivedFrom. by rewrite find_target_nonEmpty.
Qed.

Lemma elem_of_parsedNodes this uaNodeSet n :
  n ∈ parsedNodes this uaNodeSet ↔
  ∃ ty e, (ty, e) ∈ nodeElements uaNodeSet ∧ NodesetParser.parseNode this e ty = Some n.
Proof.
  unfold parsedNodes. rewrite list_elem_of_omap. split.
  - intros ([ty e] & Hin & Hn). by exists ty, e.
  - intros (ty & e & Hin & Hn). by exists (ty, e).
Qed.

Section StoreOfSuccessfulParse.
Context {this : NodesetParser.t} {xmlDoc : Dom.Document} {fileName' : string}
        {referenceNodesets : list Dom.Document}
        {this' : NodesetParser.t} {r : OpcUaNodeset}.
Hypothesis Hparse :
  NodesetParser.parseNodeset this xmlDoc fileName' referenceNodesets = (this', Returned r).

(** Every object of the store is a parsed node; the hierarchy builder gave
    children to those the node map holds and left the others alone. *)
Lemma store_lookup uaNodeSet l n :
  Dom.docQuerySelector "UANodeSet" xmlDoc = Some uaNodeSet →
  store r !! l = Some n →
  ∃ n0, parsedNodes this' uaNodeSet !! l = Some n0 ∧ children n0 = [] ∧
        n = if bool_decide (l ∈ (nodes r).*2)
            then pushAll n0 (childrenOf (nodes r) (references n0)) else n0.
Proof.
  destruct (parseNodeset_Returned Hparse) as (ns & _ & Hns & _ & Hnodes & Hstore & _).
  intros Hns' Hn. rewrite Hns in Hns'. injection Hns' as ->.
  pose proof (parseNodes_wf this' uaNodeSet) as Hwf. rewrite <- Hnodes in Hwf.
  rewrite Hstore, buildHierarchy_lookup in Hn by apply Hwf.
  destruct (parsedNodes this' uaNodeSet !! l) as [n0|] eqn:Hn0;
    [|by destruct (bool_decide _)].
  exists n0. split; [done|]. split.
  - eapply parsedNodes_children, list_elem_of_lookup_2, Hn0.
  - destruct (bool_decide _); simpl in Hn; by injection Hn.
Qed.

Lemma store_elem uaNodeSet n :
  Dom.docQuerySelector "UANodeSet" xmlDoc = Some uaNodeSet →
  n ∈ store r →
  ∃ ty e n0 cs, (ty, e) ∈ nodeElements uaNodeSet ∧
                NodesetParser.parseNode this' e ty = Some n0 ∧ n = pushAll n0 cs.
Proof.
  intros Hns [l Hl]%list_elem_of_lookup_1.
  destruct (store_lookup _ _ _ Hns Hl) as (n0 & Hn0 & _ & ->).
  apply list_elem_of_lookup_2, elem_of_parsedNodes in Hn0 as (ty & e & Hin & Hn0).
  exists ty, e, n0. destruct (bool_decide _).
  - by eexists.
  - exists []. by rewrite pushAll_nil.
Qed.

End StoreOfSuccessfulParse.

Lemma parseNode_type this e ty n :
  NodesetParser.parseNode this e ty = Some n →
  type n = NodesetParser.resolveNodeId this <$> Js.nonEmpty (Dom.getAttribute "ParentNodeId" e).
Proof.
  unfold NodesetParser.parseNode.
  destruct (Js.nonEmpty (Dom.getAttribute "NodeId" e)) as [id|]; [|done].
  by intros [= <-].
Qed.

(** X8. What the parser puts in a node is clean text: in every node object
    of a result the identifier is not empty, the display name and the
    description are trimmed, the browse name is empty only if the display
    name is, and every reference has a non-empty type and a non-empty,
    trimmed target. *)
Theorem X8_parsed_text_is_clean
    this xmlDoc fileName' referenceNodesets this' r :
  NodesetParser.parseNodeset this xmlDoc fileName' referenceNodesets = (this', Returned r) →
  ∀ n, n ∈ store r →
    nodeId n ≠ "" ∧
    Js.trim (displayName n) = displayName n ∧
    (∃ d, description n = Some d ∧ Js.trim d = d) ∧
    (browseName n = "" → displayName n = "") ∧
    ∀ ref, ref ∈ references n →
      referenceType ref ≠ "" ∧ targetNodeId ref ≠ "" ∧
      Js.trim (targetNodeId ref) = targetNodeId ref.
Proof.
  intros Hparse n Hn.
  destruct (parseNodeset_Returned Hparse) as (ns & _ & Hns & _).
  destruct (store_elem Hparse ns n Hns Hn) as (ty & e & n0 & cs & _ & Hn0 & ->).
  destruct (parseNode_Some _ _ _ _ Hn0) as ([_ Hid]%elementId_Some & _ & _ & Hrefs).
  destruct (parseNode_fields _ _ _ _ Hn0) as (Hdn & Hd & Hbn & _).
  simpl. split_and!.
  - done.
  - rewrite Hdn. apply getElementText_trimmed.
  - eexists. split; [exact Hd|]. apply getElementText_trimmed.
  - rewrite Hbn, Hdn. unfold Js.orElse.
    destruct (Dom.getAttribute "BrowseName" e) as [s|]; [|done].
    unfold Js.truthy. by case_bool_decide.
  - intros ref. rewrite Hrefs. apply parseReferences_elem.
Qed.

(** ** Tables without empty strings *)

Lemma addAlias_nonEmpty m alias :
  (∀ k v, m !! k = Some v → k ≠ "" ∧ v ≠ "") →
  ∀ k v, NodesetParser.addAlias m alias !! k = Some v → k ≠ "" ∧ v ≠ "".
Proof.
  intros Hm k v. unfold NodesetParser.addAlias.
  destruct (Js.nonEmpty (Dom.getAttribute "Alias" alias)) as [a|] eqn:Ea; [|apply Hm].
  destruct (Js.nonEmpty (Some _)) as [id|] eqn:Eid; [|apply Hm].
  apply nonEmpty_Some in Ea as [_ ?]. apply nonEmpty_Some in Eid as [_ ?].
  destruct (decide (id = k)) as [->|].
  - rewrite lookup_insert_eq. by intros [= <-].
  - rewrite lookup_insert_ne by done. apply Hm.
Qed.

Lemma addNodeName_nonEmpty m xmlNode :
  (∀ k v, m !! k = Some v → k ≠ "" ∧ v ≠ "") →
  ∀ k v, NodesetParser.addNodeName m xmlNode !! k = Some v → k ≠ "" ∧ v ≠ "".
Proof.
  intros Hm k v. unfold NodesetParser.addNodeName.
  destruct (Js.nonEmpty (Dom.getAttribute "NodeId" xmlNode)) as [id|] eqn:Eid; [|apply Hm].
  destruct (Js.nonEmpty (Dom.getAttribute "BrowseName" xmlNode)) as [bn|] eqn:Ebn; [|apply Hm].
  apply nonEmpty_Some in Eid as [_ ?]. apply nonEmpty_Some in Ebn as [_ ?].
  destruct (decide (id = k)) as [->|].
  - rewrite lookup_insert_eq. by intros [= <-].
  - rewrite lookup_insert_ne by done. apply Hm.
Qed.

Lemma parseAliases_symbolsNonEmpty this uaNodeSet :
  symbolsNonEmpty this → symbolsNonEmpty (NodesetParser.parseAliases this uaNodeSet).
Proof.
  intros [Ha Hn]. unfold NodesetParser.parseAliases.
  destruct (Dom.querySelector "Aliases" uaNodeSet) as [ae|]; [|done].
  split; [|done]. cbn [NodesetParser.aliasMap].
  apply (foldl_preserves (λ m, ∀ k v, m !! k = Some v → k ≠ "" ∧ v ≠ "")); [|done].
  intros m a Hm. by apply addAlias_nonEmpty.
Qed.

Lemma parseNodeNames_symbolsNonEmpty this uaNodeSet :
  symbolsNonEmpty this → symbolsNonEmpty (NodesetParser.parseNodeNames this uaNodeSet).
Proof.
  intros [Ha Hn]. split; [done|].
  unfold NodesetParser.parseNodeNames. cbn [NodesetParser.nodeNameMap].
  apply (foldl_preserves (λ m, ∀ k v, m !! k = Some v → k ≠ "" ∧ v ≠ "")); [|exact Hn].
  intros m ty Hm.
  apply (foldl_preserves (λ m, ∀ k v, m !! k = Some v → k ≠ "" ∧ v ≠ "")); [|exact Hm].
  intros m' x Hm'. by apply addNodeName_nonEmpty.
Qed.

Lemma parseNodeset_symbolsNonEmpty this xmlDoc fileName referenceNodesets :
  symbolsNonEmpty this →
  symbolsNonEmpty (NodesetParser.parseNodeset this xmlDoc fileName referenceNodesets).1.
Proof.
  intros Hthis. rewrite parseNodeset_state. simpl.
  assert (symbolsNonEmpty
            (foldl NodesetParser.addReferenceNodeset this referenceNodesets)) as H.
  { apply (foldl_preserves symbolsNonEmpty); [|done].
    intros s d Hs. unfold NodesetParser.addReferenceNodeset.
    destruct (Dom.docQuerySelector _ _); [|done].
    by apply parseNodeNames_symbolsNonEmpty, parseAliases_symbolsNonEmpty. }
  destruct (Dom.docQuerySelector "parsererror" _); [done|].
  destruct (Dom.docQuerySelector "UANodeSet" _); [|done].
  by apply parseAliases_symbolsNonEmpty.
Qed.

Lemma reachable_symbolsNonEmpty this :
  SymbolTable.reachable this → symbolsNonEmpty this.
Proof.
  induction 1 as [|this xmlDoc fileName refs _ IH].
  - split; intros k v; simpl; by rewrite lookup_empty.
  - by apply parseNodeset_symbolsNonEmpty.
Qed.

Lemma resolveNodeId_nonEmpty this X :
  symbolsNonEmpty this → X ≠ "" → NodesetParser.resolveNodeId this X ≠ "".
Proof.
  intros [Ha Hn] HX. unfold NodesetParser.resolveNodeId, Js.truthy.
  rewrite bool_decide_true by done. simpl.
  case_bool_decide as Halias.
  { destruct Halias as [a Halias]. rewrite Halias. simpl. by apply (Ha X). }
  case_bool_decide as Hname.
  { destruct Hname as [a Hname]. rewrite Hname. simpl. by apply (Hn X). }
  unfold Js.orElse. destruct (last (Js.split ":" X)) as [s|]; [|done].
  unfold Js.truthy. by case_bool_decide.
Qed.

(** X9. In every state a parser instance can be in, [resolveNodeId] gives
    the empty string for the empty identifier only: no alias, no
    discovered name and no suffix after a colon is ever empty. *)
Theorem X9_resolveNodeId_is_empty_for_the_empty_id_only this X :
  SymbolTable.reachable this →
  (NodesetParser.resolveNodeId this X = "" ↔ X = "").
Proof.
  intros Hthis%reachable_symbolsNonEmpty. split.
  - intros H. destruct (decide (X = "")) as [|HX]; [done|].
    by destruct (resolveNodeId_nonEmpty this X Hthis HX).
  - by intros ->.
Qed.

Lemma fmap_resolve_nonEmpty this (o : option string) :
  symbolsNonEmpty this → o ≠ Some "" → NodesetParser.resolveNodeId this <$> o ≠ Some "".
Proof.
  intros Hthis Ho. destruct o as [X|]; [|done]. simpl. intros [= H].
  apply (resolveNodeId_nonEmpty this X); [done| |done]. by intros ->.
Qed.

Lemma nonEmpty_not_empty a : Js.nonEmpty a ≠ Some "".
Proof. by intros [_ ?]%nonEmpty_Some. Qed.

Lemma find_resolve_nonEmpty this xmlNode (f : OpcUaReference → bool) :
  symbolsNonEmpty this →
  (λ ref, NodesetParser.resolveNodeId this (targetNodeId ref)) <$>
    List.find f (NodesetParser.parseReferences xmlNode) ≠ Some "".
Proof.
  intros Hthis. destruct (List.find f _) as [ref|] eqn:E; [|done]. simpl. intros [= H].
  apply find_some in E as [Hin%list_elem_of_In _].
  apply parseReferences_elem in Hin as (_ & Ht & _).
  by apply (resolveNodeId_nonEmpty this (targetNodeId ref)).
Qed.

(** X10. On an instance in a state it can be in, no name the parser
    resolves for a node is the empty string: the data type, the parent
    type, the type definition, the modelling rule and the supertype of every
    node object of a result are absent or not empty. *)
Theorem X10_resolved_names_are_never_empty
    this xmlDoc fileName' referenceNodesets this' r :
  SymbolTable.reachable this →
  NodesetParser.parseNodeset this xmlDoc fileName' referenceNodesets = (this', Returned r) →
  ∀ n, n ∈ store r →
    dataType n ≠ Some "" ∧ type n ≠ Some "" ∧ typeDefinition n ≠ Some "" ∧
    modellingRule n ≠ Some "" ∧ derivedFrom n ≠ Some "".
Proof.
  intros Hthis Hparse n Hn.
  assert (symbolsNonEmpty this') as Hthis'.
  { apply reachable_symbolsNonEmpty.
    pose proof (SymbolTable.reachable_parseNodeset this xmlDoc fileName' referenceNodesets Hthis)
      as H.
    by rewrite Hparse in H. }
  destruct (parseNodeset_Returned Hparse) as (ns & _ & Hns & _).
  destruct (store_elem Hparse ns n Hns Hn) as (ty & e & n0 & cs & _ & Hn0 & ->).
  destruct (parseNode_fields _ _ _ _ Hn0) as (_ & _ & _ & Hdt & Hdf & Htd & Hmr).
  pose proof (parseNode_type _ _ _ _ Hn0) as Hty.
  simpl. rewrite Hdt, Hty, Htd, Hmr, Hdf. split_and!.
  - apply fmap_resolve_nonEmpty, nonEmpty_not_empty. done.
  - apply fmap_resolve_nonEmpty, nonEmpty_not_empty. done.
  - by apply find_resolve_nonEmpty.
  - by apply find_resolve_nonEmpty.
  - apply fmap_resolve_nonEmpty; [done|].
    rewrite <- find_target_nonEmpty. apply nonEmpty_not_empty.
Qed.

(** ** The alias table after an import *)

Lemma addAlias_eq m a :
  NodesetParser.addAlias m a =
  match aliasOf a with Some (id, name) => <[id := name]> m | None => m end.
Proof.
  unfold NodesetParser.addAlias, aliasOf.
  by destruct (Js.nonEmpty (Dom.getAttribute "Alias" a)),
              (Js.nonEmpty (Some (Js.trim (Dom.textContent a)))).
Qed.

Lemma aliasOf_Some a id name :
  aliasOf a = Some (id, name) ↔
  Dom.getAttribute "Alias" a = Some name ∧ name ≠ "" ∧
  id = Js.trim (Dom.textContent a) ∧ id ≠ "".
Proof.
  unfold aliasOf. split.
  - destruct (Js.nonEmpty (Dom.getAttribute "Alias" a)) as [x|] eqn:Ea; [|done].
    destruct (Js.nonEmpty (Some (Js.trim (Dom.textContent a)))) as [y|] eqn:Ey; [|done].
    intros [= <- <-]. apply nonEmpty_Some in Ea as [? ?].
    apply nonEmpty_Some in Ey as [[= <-] ?]. done.
  - intros (Ha & Hname & -> & Hid).
    assert (Js.nonEmpty (Dom.getAttribute "Alias" a) = Some name) as ->
      by by apply nonEmpty_Some.
    assert (Js.nonEmpty (Some (Js.trim (Dom.textContent a))) =
            Some (Js.trim (Dom.textContent a))) as -> by by apply nonEmpty_Some.
    done.
Qed.

Lemma parseAliases_aliasMap this uaNodeSet :
  NodesetParser.aliasMap (NodesetParser.parseAliases this uaNodeSet) =
  foldl NodesetParser.addAlias (NodesetParser.aliasMap this) (aliasElements uaNodeSet).
Proof.
  unfold NodesetParser.parseAliases, aliasElements.
  by destruct (Dom.querySelector "Aliases" uaNodeSet).
Qed.

Lemma parseNodeNames_aliasMap this uaNodeSet :
  NodesetParser.aliasMap (NodesetParser.parseNodeNames this uaNodeSet) =
  NodesetParser.aliasMap this.
Proof. done. Qed.

Lemma referenceNodesets_aliasMap this referenceNodesets :
  NodesetParser.aliasMap (foldl NodesetParser.addReferenceNodeset this referenceNodesets) =
  foldl NodesetParser.addAlias (NodesetParser.aliasMap this)
        (d ← referenceNodesets;
         match Dom.docQuerySelector "UANodeSet" d with
         | Some refNodeSet => aliasElements refNodeSet
         | None => []
         end).
Proof.
  revert this. induction referenceNodesets as [|d ds IH]; intros this; csimpl; [done|].
  rewrite foldl_app, IH. f_equal. unfold NodesetParser.addReferenceNodeset.
  destruct (Dom.docQuerySelector "UANodeSet" d); [|done].
  by rewrite parseNodeNames_aliasMap, parseAliases_aliasMap.
Qed.

Lemma parseNodeset_aliasMap this xmlDoc fileName' referenceNodesets :
  NodesetParser.aliasMap
    (NodesetParser.parseNodeset this xmlDoc fileName' referenceNodesets).1 =
  foldl NodesetParser.addAlias (NodesetParser.aliasMap this)
        (aliasSequence xmlDoc referenceNodesets).
Proof.
  rewrite parseNodeset_state. unfold aliasSequence. cbn zeta.
  rewrite foldl_app, <- referenceNodesets_aliasMap.
  destruct (Dom.docQuerySelector "parsererror" xmlDoc); [done|].
  destruct (Dom.docQuerySelector "UANodeSet" xmlDoc); [|done].
  apply parseAliases_aliasMap.
Qed.

Lemma aliases_lookup m seq k :
  foldl NodesetParser.addAlias m seq !! k =
  match last (aliasesFor k seq) with
  | Some name => Some name
  | None => m !! k
  end.
Proof.
  revert m. induction seq as [|a seq IH]; intros m; [done|].
  simpl. rewrite IH. unfold aliasesFor. csimpl. fold (aliasesFor k seq).
  rewrite addAlias_eq.
  destruct (aliasOf a) as [[id name]|]; csimpl; [|done].
  destruct (decide (id = k)) as [->|Hne].
  - rewrite last_cons. destruct (last (aliasesFor k seq)); [done|].
    by rewrite lookup_insert_eq.
  - destruct (last (aliasesFor k seq)); [done|]. by rewrite lookup_insert_ne.
Qed.

(** X11. The alias table after a call of [parseNodeset], whatever its
    outcome: an identifier stands for the name that the last [Alias]
    element declaring it gives, among those of the auxiliary documents in
    their order followed by those of the main document (if it parsed and has
    a [UANodeSet] element), and for what it stood for before the call if
    there is no such element.  An [Alias] element declares its trimmed text
    for the value of its [Alias] attribute, if neither is empty. *)
Theorem X11_alias_table_after_an_import this xmlDoc fileName' referenceNodesets :
  let this' := (NodesetParser.parseNodeset this xmlDoc fileName' referenceNodesets).1 in
  (∀ k, NodesetParser.aliasMap this' !! k =
        match last (aliasesFor k (aliasSequence xmlDoc referenceNodesets)) with
        | Some name => Some name
        | None => NodesetParser.aliasMap this !! k
        end) ∧
  (∀ k name, name ∈ aliasesFor k (aliasSequence xmlDoc referenceNodesets) ↔
     ∃ a, a ∈ aliasSequence xmlDoc referenceNodesets ∧
          Dom.getAttribute "Alias" a = Some name ∧ name ≠ "" ∧
          k = Js.trim (Dom.textContent a) ∧ k ≠ "").
Proof.
  simpl. split.
  - intros k. rewrite parseNodeset_aliasMap. apply aliases_lookup.
  - intros k name. unfold aliasesFor. rewrite list_elem_of_omap. split.
    + intros (a & Hin & Ha). exists a. split; [done|].
      destruct (aliasOf a) as [[id name']|] eqn:E; [|done]. csimpl in Ha.
      case_decide as Hk; [|done]. simpl in Hk. injection Ha as <-. subst id.
      by apply aliasOf_Some.
    + intros (a & Hin & Ha). exists a. split; [done|].
      apply aliasOf_Some in Ha. rewrite Ha. csimpl. by rewrite decide_True.
Qed.

(** ** Importing again *)

Lemma parseNodeset_state_over base this0 this1 xmlDoc fileName' referenceNodesets :
  over base this0 this1 →
  over base (NodesetParser.parseNodeset this0 xmlDoc fileName' referenceNodesets).1
            (NodesetParser.parseNodeset this1 xmlDoc fileName' referenceNodesets).1.
Proof.
  intros H. rewrite !parseNodeset_state. cbn zeta.
  pose proof (referenceNodesets_over _ _ _ referenceNodesets H).
  destruct (Dom.docQuerySelector "parsererror" xmlDoc); [done|].
  destruct (Dom.docQuerySelector "UANodeSet" xmlDoc); [|done].
  by apply parseAliases_over.
Qed.

Lemma state_eq (a b : NodesetParser.t) :
  NodesetParser.aliasMap a = NodesetParser.aliasMap b →
  NodesetParser.nodeNameMap a = NodesetParser.nodeNameMap b → a = b.
Proof. destruct a, b. simpl. by intros -> ->. Qed.

Lemma parseNodeset_state_idemp this xmlDoc fileName' referenceNodesets :
  (NodesetParser.parseNodeset
     (NodesetParser.parseNodeset this xmlDoc fileName' referenceNodesets).1
     xmlDoc fileName' referenceNodesets).1 =
  (NodesetParser.parseNodeset this xmlDoc fileName' referenceNodesets).1.
Proof.
  destruct (parseNodeset_state_over this NodesetParser.new this
              xmlDoc fileName' referenceNodesets (over_new this)) as [Ha Hn].
  remember (NodesetParser.parseNodeset this xmlDoc fileName' referenceNodesets).1 as st1.
  destruct (parseNodeset_state_over st1 NodesetParser.new st1
              xmlDoc fileName' referenceNodesets (over_new st1)) as [Ha2 Hn2].
  apply state_eq.
  - rewrite Ha2, Ha. by rewrite (assoc_L (∪)), (idemp_L (∪)).
  - rewrite Hn2, Hn. by rewrite (assoc_L (∪)), (idemp_L (∪)).
Qed.

Lemma parseNodeset_by_state this0 this1 xmlDoc fileName' referenceNodesets :
  (NodesetParser.parseNodeset this0 xmlDoc fileName' referenceNodesets).1 =
  (NodesetParser.parseNodeset this1 xmlDoc fileName' referenceNodesets).1 →
  NodesetParser.parseNodeset this0 xmlDoc fileName' referenceNodesets =
  NodesetParser.parseNodeset this1 xmlDoc fileName' referenceNodesets.
Proof.
  rewrite !parseNodeset_state. cbn zeta.
  unfold NodesetParser.parseNodeset, NodesetParser.processNodeset.
  destruct (Dom.docQuerySelector "parsererror" xmlDoc); [by intros ->|].
  destruct (Dom.docQuerySelector "UANodeSet" xmlDoc); by intros ->.
Qed.

(** X12. Importing the same documents again changes nothing: a call of
    [parseNodeset] on the instance as the same call left it has the same
    outcome and leaves the same tables.  What an import adds to the tables
    is all that a later import of the same documents could add. *)
Theorem X12_importing_again this xmlDoc fileName' referenceNodesets :
  NodesetParser.parseNodeset
    (NodesetParser.parseNodeset this xmlDoc fileName' referenceNodesets).1
    xmlDoc fileName' referenceNodesets =
  NodesetParser.parseNodeset this xmlDoc fileName' referenceNodesets.
Proof. apply parseNodeset_by_state, parseNodeset_state_idemp. Qed.

(** ** Objects and their children *)

Lemma length_omap_le {A B} (f : A → option B) (l : list A) :
  length (omap f l) ≤ length l.
Proof. induction l as [|x l IH]; csimpl; [done|]. destruct (f x); simpl; lia. Qed.

Lemma childrenOf_values nodes refs c :
  c ∈ childrenOf nodes refs → c ∈ nodes.*2.
Proof.
  unfold childrenOf. intros (ref & _ & Hc)%list_elem_of_omap.
  destruct (NodesetParser.isHierarchical ref); [|done].
  apply get_Some_elem in Hc. apply list_elem_of_fmap. by exists (targetNodeId ref, c).
Qed.

(** X13. In a result, the children of every node object are objects of the
    node map, there are at most as many of them as the object has
    references, and an object that the node map does not hold (one that a
    later element with the same [NodeId] replaced) has no children and is
    nobody's child. *)
Theorem X13_children_are_objects_of_the_node_map
    this xmlDoc fileName' referenceNodesets this' r :
  NodesetParser.parseNodeset this xmlDoc fileName' referenceNodesets = (this', Returned r) →
  ∀ l n, store r !! l = Some n →
    (∀ c, c ∈ children n → c ∈ (nodes r).*2 ∧ is_Some (store r !! c)) ∧
    length (children n) ≤ length (references n) ∧
    (l ∉ (nodes r).*2 → children n = [] ∧ ∀ n', n' ∈ store r → l ∉ children n').
Proof.
  intros Hparse.
  destruct (parseNodeset_Returned Hparse) as (ns & _ & Hns & _).
  assert (∀ l n, store r !! l = Some n → ∀ c, c ∈ children n → c ∈ (nodes r).*2) as Hin.
  { intros l n Hn c.
    destruct (store_lookup Hparse ns l n Hns Hn) as (n0 & _ & Hch & ->).
    case_bool_decide; simpl; rewrite Hch; [|by intros ?%elem_of_nil].
    apply childrenOf_values. }
  intros l n Hn. split_and!.
  - intros c Hc. pose proof (Hin l n Hn c Hc) as Hc'. split; [done|].
    apply list_elem_of_fmap in Hc' as ([k c'] & -> & Hkc).
    destruct (wf_entry _ _ (parseNodeset_wf Hparse) k c' Hkc) as (nc & Hnc & _).
    simpl. eauto.
  - destruct (store_lookup Hparse ns l n Hns Hn) as (n0 & _ & Hch & ->).
    case_bool_decide; simpl; rewrite Hch; simpl; [|lia]. apply length_omap_le.
  - intros Hl. split.
    + destruct (store_lookup Hparse ns l n Hns Hn) as (n0 & _ & Hch & ->).
      by rewrite bool_decide_false.
    + intros n' [l' Hn']%list_elem_of_lookup_1 Hc. by apply Hl, (Hin l' n' Hn').
Qed.

(** ** Node classes *)

Lemma getNodeClass_tag ty :
  ty ∈ NodesetParser.nodeTypes →
  "UA" +:+ nodeClassName (NodesetParser.getNodeClass ty) = ty.
Proof.
  unfold NodesetParser.nodeTypes. rewrite !elem_of_cons, elem_of_nil.
  intros [->|[->|[->|[->|[->|[->|[->|[->|[]]]]]]]]]; reflexivity.
Qed.

(** X14. Every node object of a result was built from a recognized element
    of the main document's [UANodeSet] that bears the object's identifier,
    and its node class is the one the element's tag names: the tag is "UA"
    followed by the class.  The fallback of [getNodeClass] to [Object] for
    an unknown tag is never taken. *)
Theorem X14_node_class_is_the_tag
    this xmlDoc fileName' referenceNodesets this' r :
  NodesetParser.parseNodeset this xmlDoc fileName' referenceNodesets = (this', Returned r) →
  ∀ n, n ∈ store r →
    ∃ uaNodeSet e,
      Dom.docQuerySelector "UANodeSet" xmlDoc = Some uaNodeSet ∧
      e ∈ Dom.descendants uaNodeSet ∧
      Dom.tagName e = "UA" +:+ nodeClassName (nodeClass n) ∧
      Dom.getAttribute "NodeId" e = Some (nodeId n).
Proof.
  intros Hparse n Hn.
  destruct (parseNodeset_Returned Hparse) as (ns & _ & Hns & _).
  destruct (store_elem Hparse ns n Hns Hn) as (ty & e & n0 & cs & Hin & Hn0 & ->).
  destruct (parseNode_Some _ _ _ _ Hn0) as ([Hid _]%elementId_Some & _ & Hclass & _).
  apply elem_of_nodeElements in Hin as (Hty & He & Htag).
  exists ns, e. simpl. rewrite Hclass, getNodeClass_tag by done. done.
Qed.

(** ** Names taken from references *)

Lemma find_head_filter {A} (f : A → bool) (P : A → Prop) `{!∀ x, Decision (P x)} l :
  (∀ x, f x = true ↔ P x) → List.find f l = head (filter P l).
Proof.
  intros Hf. induction l as [|x l IH]; [done|].
  simpl. rewrite filter_cons. destruct (f x) eqn:E.
  - by rewrite decide_True by by apply Hf.
  - rewrite decide_False; [done|]. rewrite <- Hf. by rewrite E.
Qed.

(** X15. The supertype, the type definition and the modelling rule of a
    node object of a result are read from the object's own references: the
    target of the first backward [HasSubtype] reference, of the first
    forward [HasTypeDefinition] reference and of the first forward
    [HasModellingRule] reference, each resolved in the tables as the call
    leaves them, and absent exactly when there is no such reference. *)
Theorem X15_names_taken_from_references
    this xmlDoc fileName' referenceNodesets this' r :
  NodesetParser.parseNodeset this xmlDoc fileName' referenceNodesets = (this', Returned r) →
  ∀ n, n ∈ store r →
    let first (referenceType' : string) (isForward' : bool) :=
      (λ ref, NodesetParser.resolveNodeId this' (targetNodeId ref)) <$>
        head (filter (λ ref, referenceType ref = referenceType' ∧ isForward ref = isForward')
                     (references n)) in
    derivedFrom n = first "HasSubtype" false ∧
    typeDefinition n = first "HasTypeDefinition" true ∧
    modellingRule n = first "HasModellingRule" true.
Proof.
  intros Hparse n Hn.
  destruct (parseNodeset_Returned Hparse) as (ns & _ & Hns & _).
  destruct (store_elem Hparse ns n Hns Hn) as (ty & e & n0 & cs & _ & Hn0 & ->).
  destruct (parseNode_Some _ _ _ _ Hn0) as (_ & _ & _ & Hrefs).
  destruct (parseNode_fields _ _ _ _ Hn0) as (_ & _ & _ & _ & Hdf & Htd & Hmr).
  simpl. rewrite Hdf, Htd, Hmr, Hrefs. split_and!.
  - rewrite <- option_fmap_compose. f_equal. apply find_head_filter.
    intros ref. rewrite andb_true_iff, bool_decide_eq_true, negb_true_iff. done.
  - f_equal. apply find_head_filter.
    intros ref. by rewrite andb_true_iff, bool_decide_eq_true.
  - f_equal. apply find_head_filter.
    intros ref. by rewrite andb_true_iff, bool_decide_eq_true.
Qed.

(** ** Metadata *)

Lemma length_remove_dups_le `{EqDecision A} (l : list A) :
  length (remove_dups l) ≤ length l.
Proof. induction l as [|x l IH]; simpl; [done|]. case_decide; simpl; lia. Qed.

(** X16. The metadata of a parsed nodeset: the node count is the number of
    different non-empty [NodeId]s among the recognized elements of the main
    document's [UANodeSet], so at most the number of these elements, and the
    namespace URI is never empty. *)
Theorem X16_metadata_of_a_parsed_nodeset
    nodesetParser xmlDoc fileName' referenceNodesets this' r uaNodeSet file checksum now :
  FileImportService.parseNodesetFile nodesetParser xmlDoc fileName' referenceNodesets =
    (this', Returned r) →
  Dom.docQuerySelector "UANodeSet" xmlDoc = Some uaNodeSet →
  let metadata := FileImportService.extractMetadata xmlDoc r file checksum now in
  Metadata.nodeCount metadata =
    length (remove_dups (omap elementId (nodeElements uaNodeSet))) ∧
  Metadata.nodeCount metadata ≤ length (nodeElements uaNodeSet) ∧
  Metadata.namespaceUri metadata ≠ "".
Proof.
  unfold FileImportService.parseNodesetFile. intros Hparse Hns.
  destruct (parseNodeset_Returned Hparse) as (ns & _ & Hns' & _ & Hnodes & _ & _ & _ & Huri & _).
  rewrite Hns in Hns'. injection Hns' as <-. simpl.
  assert (JsMap.size (nodes r) =
          length (remove_dups (omap elementId (nodeElements uaNodeSet)))) as Hsize.
  { unfold JsMap.size. rewrite <- (length_fmap fst). apply Permutation_length.
    apply NoDup_Permutation.
    - apply (wf_keys _ _ (parseNodeset_wf Hparse)).
    - apply NoDup_remove_dups.
    - intros k. rewrite elem_of_remove_dups, <- (parsedNodes_ids this'), Hnodes.
      change (k ∈ JsMap.keys (setAll [] 0 (parsedNodes this' uaNodeSet)) ↔
              k ∈ nodeId <$> parsedNodes this' uaNodeSet).
      rewrite keys_setAll. split; [by intros [[]%elem_of_nil|]|by right]. }
  split_and!.
  - done.
  - rewrite Hsize.
    etrans; [apply length_remove_dups_le|apply length_omap_le].
  - rewrite Huri. unfold NodesetParser.extractNamespaceUri.
    destruct (Dom.querySelector "NamespaceUris" uaNodeSet) as [nu|]; [|done].
    destruct (Dom.querySelector "Uri" nu) as [u|]; [|done].
    unfold Js.truthy. by case_bool_decide.
Qed.

(** ** Checksums and the duplicate test *)

Lemma hex_nil bs : FileImportService.hex bs = "" ↔ bs = [].
Proof.
  split; [|by intros ->]. intros H.
  pose proof (length_hex bs) as Hlen. rewrite H in Hlen. simpl in Hlen.
  destruct bs; [done|]. simpl in Hlen. lia.
Qed.

(** X17. [detectDuplicate] on a generated checksum is the membership test
    in the set of loaded checksums, unless the platform's digest is empty:
    the empty checksum, like a missing one, is never reported as a
    duplicate, even when the set holds it. *)
Theorem X17_detectDuplicate_on_generated_checksums
    subtleDigest xmlContent (loadedChecksums : gset string) :
  let checksum := FileImportService.generateChecksum subtleDigest xmlContent in
  (checksum = "" ↔
   ∃ digest, subtleDigest = Some digest ∧ digest (FileImportService.encode xmlContent) = []) ∧
  (checksum ≠ "" →
   FileImportService.detectDuplicate (Some checksum) loadedChecksums =
   bool_decide (checksum ∈ loadedChecksums)) ∧
  FileImportService.detectDuplicate (Some "") loadedChecksums = false ∧
  FileImportService.detectDuplicate None loadedChecksums = false.
Proof.
  simpl. split_and!; [| |done|done].
  - destruct subtleDigest as [digest|]; simpl.
    + rewrite hex_nil. split; [by exists digest|]. by intros (d & [= <-] & ?).
    + split; [done|]. by intros (d & ? & _).
  - intros Hne. unfold FileImportService.detectDuplicate, Js.nonEmpty, Js.truthy.
    by rewrite bool_decide_true.
Qed.

(** ** Auxiliary documents *)

Lemma referenceNodesets_filter this referenceNodesets :
  foldl NodesetParser.addReferenceNodeset this (filter hasUANodeSet referenceNodesets) =
  foldl NodesetParser.addReferenceNodeset this referenceNodesets.
Proof.
  revert this. induction referenceNodesets as [|d ds IH]; intros this; [done|].
  rewrite filter_cons. case_decide as Hd; simpl; [apply IH|].
  rewrite IH. f_equal. unfold NodesetParser.addReferenceNodeset.
  destruct (Dom.docQuerySelector "UANodeSet" d) eqn:E; [|done].
  destruct Hd. unfold hasUANodeSet. rewrite E. eauto.
Qed.

(** X18. An auxiliary document without a [UANodeSet] element is passed
    over in silence: a call of [parseNodeset] has the outcome and leaves
    the tables of the call without such documents. *)
Theorem X18_auxiliary_documents_without_a_nodeset_are_ignored
    this xmlDoc fileName' referenceNodesets :
  NodesetParser.parseNodeset this xmlDoc fileName' referenceNodesets =
  NodesetParser.parseNodeset this xmlDoc fileName' (filter hasUANodeSet referenceNodesets).
Proof.
  unfold NodesetParser.parseNodeset. cbn zeta. by rewrite referenceNodesets_filter.
Qed.

(** ** What the tables can change *)

Lemma parseNode_sameButNames this1 this2 e ty :
  option_Forall2 sameButNames (NodesetParser.parseNode this1 e ty)
                              (NodesetParser.parseNode this2 e ty).
Proof.
  unfold NodesetParser.parseNode.
  destruct (Js.nonEmpty (Dom.getAttribute "NodeId" e)) as [id|]; constructor.
  split; simpl; try done; by rewrite !fmap_is_Some.
Qed.

Lemma parsedNodes_sameButNames this1 this2 uaNodeSet :
  Forall2 sameButNames (parsedNodes this1 uaNodeSet) (parsedNodes this2 uaNodeSet).
Proof.
  unfold parsedNodes. induction (nodeElements uaNodeSet) as [|x l IH]; csimpl; [constructor|].
  destruct (parseNode_sameButNames this1 this2 x.2 x.1); [|done]. by constructor.
Qed.

Lemma setAll_sameButNames m i ns1 ns2 :
  Forall2 sameButNames ns1 ns2 → setAll m i ns1 = setAll m i ns2.
Proof.
  intros H. revert m i. induction H as [|n1 n2 l1 l2 Hn _ IH]; intros m i; [done|].
  simpl. rewrite (same_nodeId _ _ Hn). apply IH.
Qed.

Lemma pushAll_sameButNames n1 n2 cs :
  sameButNames n1 n2 → sameButNames (pushAll n1 cs) (pushAll n2 cs).
Proof. intros []. split; simpl; try done. congruence. Qed.

Lemma buildHierarchy_sameButNames store1 store2 nodes :
  NoDup nodes.*2 → Forall2 sameButNames store1 store2 →
  Forall2 sameButNames (NodesetParser.buildHierarchy store1 nodes)
                       (NodesetParser.buildHierarchy store2 nodes).
Proof.
  intros Hnodes H. apply Forall2_lookup. intros l.
  rewrite !buildHierarchy_lookup by done.
  pose proof (proj1 (Forall2_lookup _ _ _) H l) as Hl.
  destruct Hl as [n1 n2 Hn|]; case_bool_decide; simpl; constructor; try done.
  rewrite (same_references _ _ Hn). by apply pushAll_sameButNames.
Qed.

Lemma collect_sameButNames store1 store2 c entry :
  Forall2 sameButNames store1 store2 →
  NodesetParser.collect store1 c entry = NodesetParser.collect store2 c entry.
Proof.
  intros H. unfold NodesetParser.collect.
  destruct (proj1 (Forall2_lookup _ _ _) H entry.2) as [n1 n2 Hn|]; [|done].
  unfold NodesetParser.hasEventTypeReference, NodesetParser.hasInterfaceReference.
  by rewrite (same_nodeClass _ _ Hn), (same_browseName _ _ Hn), (same_references _ _ Hn).
Qed.

Lemma organizeIntoCategories_sameButNames store1 store2 nodes :
  Forall2 sameButNames store1 store2 →
  NodesetParser.organizeIntoCategories store1 nodes =
  NodesetParser.organizeIntoCategories store2 nodes.
Proof.
  intros H. unfold NodesetParser.organizeIntoCategories.
  assert (foldl (NodesetParser.collect store1) NodesetParser.createCategories nodes =
          foldl (NodesetParser.collect store2) NodesetParser.createCategories nodes) as ->;
    [|done].
  generalize NodesetParser.createCategories.
  induction nodes as [|entry nodes IH]; intros c; [done|].
  simpl. rewrite (collect_sameButNames store1 store2) by done. apply IH.
Qed.

(** X19. What the tables and the auxiliary documents can change in a
    result is the resolved names only.  Two calls of [parseNodeset] on the
    same main document, on instances in any states and with any auxiliary
    documents, succeed together, and their results have the same node map,
    the same root categories with the same members and the same namespace
    URI; their node objects agree in everything but the values of the data
    type, the parent type, the type definition, the modelling rule and the
    supertype, each of which is present in both or in neither. *)
Theorem X19_the_tables_change_resolved_names_only
    this1 this2 xmlDoc fileName1 fileName2 referenceNodesets1 referenceNodesets2 this1' r1 :
  NodesetParser.parseNodeset this1 xmlDoc fileName1 referenceNodesets1 =
    (this1', Returned r1) →
  ∃ this2' r2,
    NodesetParser.parseNodeset this2 xmlDoc fileName2 referenceNodesets2 =
      (this2', Returned r2) ∧
    nodes r1 = nodes r2 ∧
    rootNodes r1 = rootNodes r2 ∧
    namespaceUri r1 = namespaceUri r2 ∧
    Forall2 sameButNames (store r1) (store r2).
Proof.
  intros Hparse1.
  destruct (parseNodeset_Returned Hparse1)
    as (ns & Hpe & Hns & _ & Hnodes1 & Hstore1 & Hroot1 & _ & Huri1 & _).
  destruct (parseNodeset_returns this2 xmlDoc fileName2 referenceNodesets2 ns Hpe Hns)
    as (this2' & r2 & Hparse2).
  exists this2', r2. split; [done|].
  destruct (parseNodeset_Returned Hparse2)
    as (ns' & _ & Hns' & _ & Hnodes2 & Hstore2 & Hroot2 & _ & Huri2 & _).
  rewrite Hns in Hns'. injection Hns' as <-.
  pose proof (parsedNodes_sameButNames this1' this2' ns) as Hparsed.
  assert (nodes r1 = nodes r2) as Hnodes.
  { rewrite Hnodes1, Hnodes2. by apply setAll_sameButNames. }
  assert (Forall2 sameButNames (store r1) (store r2)) as Hstore.
  { rewrite Hstore1, Hstore2, <- Hnodes.
    apply buildHierarchy_sameButNames; [|done].
    apply (wf_locs _ _ (parseNodeset_wf Hparse1)). }
  split_and!; [done| |congruence|done].
  rewrite Hroot1, Hroot2, <- Hnodes. by apply organizeIntoCategories_sameButNames.
Qed.


(** ** The order of the node map *)

Lemma filter_all {A} (P : A → Prop) `{!∀ x, Decision (P x)} (l : list A) :
  (∀ x, P x) → filter P l = l.
Proof.
  intros HP. induction l as [|x l IH]; [done|].
  rewrite filter_cons, decide_True by done. by rewrite IH.
Qed.

Lemma keys_setAll_order m i ns :
  JsMap.keys (setAll m i ns) =
  JsMap.keys m ++ filter (λ k, k ∉ JsMap.keys m) (firstOccurrences (nodeId <$> ns)).
Proof.
  revert m i. induction ns as [|n ns IH]; intros m i; csimpl.
  { by rewrite app_nil_r. }
  rewrite IH, keys_set, filter_cons. case_bool_decide as Hk.
  - rewrite decide_False by (intros H; by apply H). f_equal.
    rewrite list_filter_filter_l; [done|]. by intros x Hx ->.
  - rewrite decide_True by done. rewrite <- app_assoc. simpl. do 2 f_equal.
    rewrite list_filter_filter. apply list_filter_iff. intros x.
    rewrite elem_of_app, list_elem_of_singleton. naive_solver.
Qed.

(** X20. The node map of a result lists the identifiers in the order in
    which they occur first among the recognized elements of the main
    document (tag by tag, in document order under one tag): an element that
    bears an identifier met before replaces the object and leaves the entry
    at its place. *)
Theorem X20_order_of_the_node_map
    this xmlDoc fileName' referenceNodesets this' r uaNodeSet :
  NodesetParser.parseNodeset this xmlDoc fileName' referenceNodesets = (this', Returned r) →
  Dom.docQuerySelector "UANodeSet" xmlDoc = Some uaNodeSet →
  JsMap.keys (nodes r) = firstOccurrences (omap elementId (nodeElements uaNodeSet)).
Proof.
  intros Hparse Hns.
  destruct (parseNodeset_Returned Hparse) as (ns & _ & Hns' & _ & Hnodes & _).
  rewrite Hns in Hns'. injection Hns' as <-.
  rewrite Hnodes, keys_setAll_order, parsedNodes_ids. simpl.
  apply filter_all. intros k. apply not_elem_of_nil.
Qed.


(** * The further properties on concrete documents *)

Lemma X2_witness :
  Validation.isValid (FileImportService.validateXML Examples.validDoc) = true ∧
  ∃ this' r,
    NodesetParser.parseNodeset Examples.usedParser Examples.validDoc "valid.xml"
      [Examples.auxDoc] = (this', Returned r).
Proof.
  split; [reflexivity|].
  by apply (X2_valid_documents_parse Examples.usedParser Examples.validDoc "valid.xml"
              [Examples.auxDoc]).
Defined.

Lemma X3_witness :
  missingRoot ∈ Validation.errors (FileImportService.validateXML (Examples.root "Envelope" [])) ∧
  Validation.errors (FileImportService.validateXML (Examples.root "Envelope" []))
    = [missingRoot; missingNamespaceUris; missingNodes].
Proof.
  assert (missingRoot ∈
            Validation.errors (FileImportService.validateXML (Examples.root "Envelope" [])))
    as Hin by left.
  split; [exact Hin|].
  destruct (X3_validation_errors_and_parser_failures NodesetParser.new
              (Examples.root "Envelope" []) "unknown.xml" []) as (_ & _ & H).
  exact (H Hin).
Defined.


Lemma X8_witness :
  ∃ this' r n,
    NodesetParser.parseNodeset NodesetParser.new Examples.mainDoc "main.xml" []
      = (this', Returned r) ∧
    n ∈ store r ∧ nodeId n = "ns=1;i=1" ∧ nodeId n ≠ "" ∧
    Js.trim (displayName n) = displayName n ∧
    ∀ ref, ref ∈ references n → referenceType ref ≠ "" ∧ targetNodeId ref ≠ "".
Proof.
  run_parseNodeset
    (NodesetParser.parseNodeset NodesetParser.new Examples.mainDoc "main.xml" [])
    this' r Hparse Hr.
  destruct (store r !! 0) as [n|] eqn:Hn; [|rewrite <- Hr in Hn; discriminate Hn].
  pose proof (list_elem_of_lookup_2 _ _ _ Hn) as Hin.
  destruct (X8_parsed_text_is_clean _ _ _ _ _ _ Hparse n Hin) as (Hid & Hdn & _ & _ & Hrefs).
  exists this', r, n. split_and!; [done|done| |done|done|].
  - rewrite <- Hr in Hn. by injection Hn as <-.
  - intros ref Href. destruct (Hrefs ref Href) as (? & ? & _). done.
Defined.

Lemma X9_witness :
  SymbolTable.reachable Examples.usedParser ∧
  (NodesetParser.resolveNodeId Examples.usedParser "ns=1;i=5" = "" ↔ "ns=1;i=5" = "").
Proof.
  assert (SymbolTable.reachable Examples.usedParser) as H
    by apply SymbolTable.reachable_parseNodeset, SymbolTable.reachable_new.
  split; [exact H|].
  exact (X9_resolveNodeId_is_empty_for_the_empty_id_only Examples.usedParser "ns=1;i=5" H).
Defined.

Lemma X10_witness :
  ∃ this' r n,
    SymbolTable.reachable Examples.usedParser ∧
    NodesetParser.parseNodeset Examples.usedParser Examples.mainDoc "main.xml" []
      = (this', Returned r) ∧
    n ∈ store r ∧ dataType n = Some "Int32" ∧ dataType n ≠ Some "" ∧
    derivedFrom n ≠ Some "".
Proof.
  assert (SymbolTable.reachable Examples.usedParser) as H
    by apply SymbolTable.reachable_parseNodeset, SymbolTable.reachable_new.
  run_parseNodeset
    (NodesetParser.parseNodeset Examples.usedParser Examples.mainDoc "main.xml" [])
    this' r Hparse Hr.
  destruct (store r !! 2) as [n|] eqn:Hn; [|rewrite <- Hr in Hn; discriminate Hn].
  pose proof (list_elem_of_lookup_2 _ _ _ Hn) as Hin.
  destruct (X10_resolved_names_are_never_empty _ _ _ _ _ _ H Hparse n Hin)
    as (Hdt & _ & _ & _ & Hdf).
  exists this', r, n. split_and!; [done|done|done| |done|done].
  rewrite <- Hr in Hn. by injection Hn as <-.
Defined.

Lemma X13_witness :
  ∃ this' r n,
    NodesetParser.parseNodeset NodesetParser.new Examples.mainDoc "main.xml" []
      = (this', Returned r) ∧
    store r !! 1 = Some n ∧ browseName n = "FirstChild" ∧ (1 ∉ (nodes r).*2) ∧
    children n = [] ∧ ∀ n', n' ∈ store r → 1 ∉ children n'.
Proof.
  run_parseNodeset
    (NodesetParser.parseNodeset NodesetParser.new Examples.mainDoc "main.xml" [])
    this' r Hparse Hr.
  destruct (store r !! 1) as [n|] eqn:Hn; [|rewrite <- Hr in Hn; discriminate Hn].
  assert (1 ∉ (nodes r).*2) as Hl.
  { rewrite <- Hr. by apply (bool_decide_unpack _). }
  destruct (X13_children_are_objects_of_the_node_map _ _ _ _ _ _ Hparse 1 n Hn)
    as (_ & _ & Hout).
  destruct (Hout Hl) as [Hch Hnone].
  exists this', r, n. split_and!; [done|done| |done|done|done].
  rewrite <- Hr in Hn. by injection Hn as <-.
Defined.

Lemma X14_witness :
  ∃ this' r n uaNodeSet e,
    NodesetParser.parseNodeset NodesetParser.new Examples.mainDoc "main.xml" []
      = (this', Returned r) ∧
    n ∈ store r ∧ nodeClass n = NodeClass.ObjectType ∧
    Dom.docQuerySelector "UANodeSet" Examples.mainDoc = Some uaNodeSet ∧
    e ∈ Dom.descendants uaNodeSet ∧
    Dom.tagName e = "UA" +:+ nodeClassName (nodeClass n) ∧
    Dom.getAttribute "NodeId" e = Some (nodeId n).
Proof.
  run_parseNodeset
    (NodesetParser.parseNodeset NodesetParser.new Examples.mainDoc "main.xml" [])
    this' r Hparse Hr.
  destruct (store r !! 3) as [n|] eqn:Hn; [|rewrite <- Hr in Hn; discriminate Hn].
  pose proof (list_elem_of_lookup_2 _ _ _ Hn) as Hin.
  destruct (X14_node_class_is_the_tag _ _ _ _ _ _ Hparse n Hin)
    as (uaNodeSet & e & Hns & He & Htag & Hid).
  exists this', r, n, uaNodeSet, e. split_and!; [done|done| |done|done|done|done].
  rewrite <- Hr in Hn. by injection Hn as <-.
Defined.

Lemma X15_witness :
  ∃ this' r n,
    NodesetParser.parseNodeset NodesetParser.new Examples.forwardSubtypeDoc "main.xml" []
      = (this', Returned r) ∧
    n ∈ store r ∧ nodeId n = "ns=1;i=1" ∧
    derivedFrom n =
      (λ ref, NodesetParser.resolveNodeId this' (targetNodeId ref)) <$>
        head (filter (λ ref, referenceType ref = "HasSubtype" ∧ isForward ref = false)
                     (references n)) ∧
    derivedFrom n = None.
Proof.
  run_parseNodeset
    (NodesetParser.parseNodeset NodesetParser.new Examples.forwardSubtypeDoc "main.xml" [])
    this' r Hparse Hr.
  destruct (store r !! 0) as [n|] eqn:Hn; [|rewrite <- Hr in Hn; discriminate Hn].
  pose proof (list_elem_of_lookup_2 _ _ _ Hn) as Hin.
  destruct (X15_names_taken_from_references _ _ _ _ _ _ Hparse n Hin) as (Hdf & _ & _).
  exists this', r, n. rewrite <- Hr in Hn. injection Hn as Hn.
  split_and!; [done|done|by rewrite <- Hn|done|by rewrite <- Hn].
Defined.

Lemma X16_witness :
  ∃ this' r,
    let file := {| Metadata.name := "main.xml"; Metadata.size := 120;
                   Metadata.lastModified := 5 |} in
    FileImportService.parseNodesetFile NodesetParser.new Examples.mainDoc "main.xml" []
      = (this', Returned r) ∧
    Dom.docQuerySelector "UANodeSet" Examples.mainDoc =
      Some (Dom.documentElement Examples.mainDoc) ∧
    Metadata.nodeCount (FileImportService.extractMetadata Examples.mainDoc r file None 0) = 3 ∧
    length (nodeElements (Dom.documentElement Examples.mainDoc)) = 4 ∧
    Metadata.namespaceUri (FileImportService.extractMetadata Examples.mainDoc r file None 0)
      ≠ "".
Proof.
  run_parseNodeset
    (FileImportService.parseNodesetFile NodesetParser.new Examples.mainDoc "main.xml" [])
    this' r Hparse Hr.
  destruct (X16_metadata_of_a_parsed_nodeset NodesetParser.new Examples.mainDoc "main.xml" []
              this' r (Dom.documentElement Examples.mainDoc)
              {| Metadata.name := "main.xml"; Metadata.size := 120;
                 Metadata.lastModified := 5 |} None 0 Hparse eq_refl)
    as (Hcount & _ & Huri).
  exists this', r. split_and!; [done|done| |done|done].
  rewrite Hcount. reflexivity.
Defined.

Lemma X17_witness :
  FileImportService.generateChecksum None "abc" ≠ "" ∧
  FileImportService.detectDuplicate
    (Some (FileImportService.generateChecksum None "abc")) {[ "fallback-96354" ]} =
  bool_decide (FileImportService.generateChecksum None "abc" ∈
                 ({[ "fallback-96354" ]} : gset string)).
Proof.
  assert (FileImportService.generateChecksum None "abc" ≠ "") as Hne by done.
  split; [exact Hne|].
  destruct (X17_detectDuplicate_on_generated_checksums None "abc" {[ "fallback-96354" ]})
    as (_ & H & _).
  exact (H Hne).
Defined.

Lemma X19_witness :
  ∃ this1' r1 this2' r2,
    NodesetParser.parseNodeset NodesetParser.new Examples.secondDoc "second.xml" []
      = (this1', Returned r1) ∧
    NodesetParser.parseNodeset Examples.usedParser Examples.secondDoc "again.xml"
      [Examples.auxDoc] = (this2', Returned r2) ∧
    nodes r1 = nodes r2 ∧ rootNodes r1 = rootNodes r2 ∧
    Forall2 sameButNames (store r1) (store r2) ∧ store r1 ≠ store r2.
Proof.
  run_parseNodeset
    (NodesetParser.parseNodeset NodesetParser.new Examples.secondDoc "second.xml" [])
    this1' r1 Hparse1 Hr1.
  destruct (X19_the_tables_change_resolved_names_only
              NodesetParser.new Examples.usedParser Examples.secondDoc
              "second.xml" "again.xml" [] [Examples.auxDoc] this1' r1 Hparse1)
    as (this2' & r2 & Hparse2 & Hnodes & Hroot & _ & Hstore).
  exists this1', r1, this2', r2. split_and!; [done..|].
  pose proof Hparse2 as Hval. vm_compute in Hval. injection Hval as _ Hr2.
  rewrite <- Hr1, <- Hr2. discriminate.
Defined.


Lemma X20_witness :
  ∃ this' r,
    NodesetParser.parseNodeset NodesetParser.new Examples.mainDoc "main.xml" []
      = (this', Returned r) ∧
    Dom.docQuerySelector "UANodeSet" Examples.mainDoc =
      Some (Dom.documentElement Examples.mainDoc) ∧
    omap elementId (nodeElements (Dom.documentElement Examples.mainDoc)) =
      ["ns=1;i=1"; "ns=1;i=2"; "ns=1;i=2"; "ns=1;i=3"] ∧
    JsMap.keys (nodes r) = ["ns=1;i=1"; "ns=1;i=2"; "ns=1;i=3"].
Proof.
  run_parseNodeset
    (NodesetParser.parseNodeset NodesetParser.new Examples.mainDoc "main.xml" [])
    this' r Hparse Hr.
  exists this', r. split_and!; [done|done|done|].
  by rewrite (X20_order_of_the_node_map _ _ _ _ _ _ _ Hparse eq_refl).
Defined.
